(** * GitLG: the extension's request handlers and the webview bridge

    A shallow embedding of the message plumbing of the GitLG extension:
    the host side ([h], the [git-log] request handler, [post_message]) and
    the webview side ([exchange_message] and the window message listener of
    [web/src/bridge.js]).  JavaScript values are an inductive type, strings
    are [string], the objects used as dictionaries are [gmap string _], and
    asynchronous functions are trees of awaited events that an interpreter
    runs against an arbitrary environment. *)

From stdpp Require Import gmap strings list fin_maps pretty.
From Stdlib Require Import Ascii String ZArith Lia.

Set Warnings "-register-all".
Open Scope string_scope.
Open Scope list_scope.

(** ** JavaScript values *)

Module JS.

(** The values that cross the bridge or are thrown.  Numbers are the
    integers (message ids, chunk counters); objects and arrays are compared
    by reference in JavaScript, which [strict_eq] renders as never equal. *)
Inductive value : Type :=
| VUndefined
| VNull
| VBool (b : bool)
| VNum (n : Z)
| VStr (s : string)
| VArr (items : list value)
| VObj (fields : list (string * value)).

(** ToBoolean. *)
Definition truthy (v : value) : bool :=
  match v with
  | VUndefined | VNull => false
  | VBool b => b
  | VNum n => negb (n =? 0)%Z
  | VStr s => negb (String.eqb s EmptyString)
  | VArr _ | VObj _ => true
  end.

(** [a || b]. *)
Definition or_else (a b : value) : value := if truthy a then a else b.

Definition nullish (v : value) : bool :=
  match v with
  | VUndefined | VNull => true
  | _ => false
  end.

Fixpoint assoc (k : string) (fields : list (string * value)) : value :=
  match fields with
  | [] => VUndefined
  | (k', v) :: rest => if String.eqb k k' then v else assoc k rest
  end.

(** [v.name] for a name that no primitive wrapper defines ([message],
    [args], ...): reading it off [undefined] or [null] is a TypeError,
    off an object it is the field or [undefined], off any other value it is
    [undefined]. *)
Definition get_prop (v : value) (name : string) : option value :=
  match v with
  | VUndefined | VNull => None
  | VObj fields => Some (assoc name fields)
  | _ => Some VUndefined
  end.

(** [a === b]. *)
Definition strict_eq (a b : value) : bool :=
  match a, b with
  | VUndefined, VUndefined => true
  | VNull, VNull => true
  | VBool x, VBool y => Bool.eqb x y
  | VNum x, VNum y => (x =? y)%Z
  | VStr x, VStr y => String.eqb x y
  | _, _ => false
  end.

(** ToPropertyKey, as used by [obj[key]]: ToString of the value.  An array
    joins its elements with commas, [undefined] and [null] elements being
    empty. *)
Fixpoint to_key (v : value) : string :=
  match v with
  | VUndefined => "undefined"
  | VNull => "null"
  | VBool true => "true"
  | VBool false => "false"
  | VNum n => pretty n
  | VStr s => s
  | VArr items =>
      (fix join (l : list value) : string :=
         match l with
         | [] => EmptyString
         | x :: rest =>
             (if nullish x then EmptyString else to_key x)
               +:+ match rest with [] => EmptyString | _ => "," +:+ join rest end
         end) items
  | VObj _ => "[object Object]"
  end.

(** The TypeError raised by a property read off [undefined] or [null]. *)
Definition TypeError (what : string) : value :=
  VObj [("name", VStr "TypeError"); ("message", VStr what)].

Definition Error (message : string) : value :=
  VObj [("name", VStr "Error"); ("message", VStr message)].

End JS.
Import JS.

(** ** Strings *)

Module Str.

(** The double quote character, which the command lines contain. *)
Definition dq : string := String "034"%char EmptyString.

(** The line feed. *)
Definition lf : ascii := "010"%char.

Fixpoint drop (n : nat) (s : string) : string :=
  match n, s with
  | O, _ => s
  | S n', String _ s' => drop n' s'
  | S _, EmptyString => EmptyString
  end.

(** [s.indexOf(pat)] as a split: the text before and after the leftmost
    occurrence of [pat]. *)
Fixpoint find_first (pat s : string) : option (string * string) :=
  if String.prefix pat s then Some (EmptyString, drop (String.length pat) s)
  else match s with
       | EmptyString => None
       | String c s' =>
           match find_first pat s' with
           | Some (a, b) => Some (String c a, b)
           | None => None
           end
       end.

(** GetSubstitution for a string pattern: [$$], [$&], [$`] and [$'] are
    special in the replacement text, every other character is literal. *)
Fixpoint get_substitution (matched before after repl : string) : string :=
  match repl with
  | EmptyString => EmptyString
  | String c t =>
      if Ascii.eqb c "$"%char then
        match t with
        | String d t' =>
            if Ascii.eqb d "$"%char then String "$"%char (get_substitution matched before after t')
            else if Ascii.eqb d "&"%char then matched +:+ get_substitution matched before after t'
            else if Ascii.eqb d "`"%char then before +:+ get_substitution matched before after t'
            else if Ascii.eqb d "'"%char then after +:+ get_substitution matched before after t'
            else String c (get_substitution matched before after t)
        | EmptyString => String c EmptyString
        end
      else String c (get_substitution matched before after t)
  end.

(** [s.replace(pat, repl)] with a string pattern: the leftmost occurrence
    only; no occurrence leaves [s] as it is. *)
Definition replace (pat repl s : string) : string :=
  match find_first pat s with
  | None => s
  | Some (a, b) => a +:+ get_substitution pat a b repl +:+ b
  end.

(** [s.replaceAll('\n', ' ')]. *)
Fixpoint replaceAll_lf_space (s : string) : string :=
  match s with
  | EmptyString => EmptyString
  | String c t => String (if Ascii.eqb c lf then " "%char else c) (replaceAll_lf_space t)
  end.

(** [s] occurs in [t]. *)
Definition occurs_in (s t : string) : Prop := exists a b, t = a +:+ s +:+ b.

Fixpoint has_char (c : ascii) (s : string) : bool :=
  match s with
  | EmptyString => false
  | String d t => Ascii.eqb c d || has_char c t
  end.

End Str.

(** ** Asynchronous functions as trees of awaited events *)

Module Async.

(** The settlement of a promise, or the completion of a call. *)
Inductive outcome (A : Type) : Type :=
| Ok (a : A)
| Thrown (e : value).
Arguments Ok {A} a.
Arguments Thrown {A} e.

(** [BridgeMessage]; a field that is absent reads as [undefined]. *)
Record BridgeMessage : Type := {
  type : string;
  id : value;
  command : value;
  data : value;
  error : value;
  chunk : value;
  total_chunks : value;
}.

(** What the extension host calls out to: [git.run], [parse] of
    [./log-parser] (a synchronous call, which returns or throws), the editor,
    the logger and the state store, and [post_message]. *)
Inductive event : Type -> Type :=
| git_run (args : value) : event string
| parse (log_data branch_data stash_data sep : string) (curve_radius : value) : event value
| extern (api : string) (args : list value) : event value
| post_message (msg : BridgeMessage) : event value.

(** An element of the array given to [Promise.all]: a [git.run] promise,
    with the text a [.catch(() => text)] substitutes when there is one, or a
    plain string. *)
Inductive par_item : Type :=
| PGit (cmd : string) (catch : option string)
| PValue (s : string).

(** What an observer of the extension host sees, in order. *)
Inductive obs : Type :=
| ObsGit (args : value) (r : outcome string)
| ObsParse (log_data branch_data stash_data sep : string) (curve_radius : value) (r : outcome value)
| ObsExtern (api : string) (args : list value) (r : outcome value)
| ObsPost (msg : BridgeMessage) (r : outcome value)
| ObsStart (slot : nat) (cmd : string)
| ObsSettle (slot : nat) (cmd : string) (r : outcome string)
| ObsJoin (vs : list string)
| ObsConfig (section key : string) (v : value)
| ObsLog (channel : string) (e : value).

Definition observe {B : Type} (ev : event B) : outcome B -> obs :=
  match ev in event T return outcome T -> obs with
  | git_run args => ObsGit args
  | parse l b s sep r => ObsParse l b s sep r
  | extern api args => ObsExtern api args
  | post_message msg => ObsPost msg
  end.

(** An asynchronous function body.  [Await] makes a call and hands its
    settlement to the continuation, so that a [try]/[catch] around it can
    be written; [AwaitAll] is [await Promise.all([...])]; [Config] reads
    [vscode.workspace.getConfiguration(section)[key]]; [Log] writes to the
    console or the logger. *)
Inductive task (A : Type) : Type :=
| Return (a : A)
| Throw (e : value)
| Await {B : Type} (ev : event B) (k : outcome B -> task A)
| AwaitAll (items : list par_item) (k : outcome (list string) -> task A)
| Config (section key : string) (k : value -> task A)
| Log (channel : string) (e : value) (k : task A).
Arguments Return {A} a.
Arguments Throw {A} e.
Arguments Await {A B} ev k.
Arguments AwaitAll {A} items k.
Arguments Config {A} section key k.
Arguments Log {A} channel e k.

Fixpoint bind {A B : Type} (t : task A) (f : A -> task B) : task B :=
  match t with
  | Return a => f a
  | Throw e => Throw e
  | Await ev k => Await ev (fun r => bind (k r) f)
  | AwaitAll items k => AwaitAll items (fun r => bind (k r) f)
  | Config section key k => Config section key (fun v => bind (k v) f)
  | Log channel e k => Log channel e (bind k f)
  end.

(** [try { t } catch (e) { handler e }]. *)
Fixpoint try_catch {A : Type} (t : task A) (handler : value -> task A) : task A :=
  match t with
  | Return a => Return a
  | Throw e => handler e
  | Await ev k => Await ev (fun r => try_catch (k r) handler)
  | AwaitAll items k => AwaitAll items (fun r => try_catch (k r) handler)
  | Config section key k => Config section key (fun v => try_catch (k v) handler)
  | Log channel e k => Log channel e (try_catch k handler)
  end.

Definition settled {A : Type} (r : outcome A) : task A :=
  match r with
  | Ok a => Return a
  | Thrown e => Throw e
  end.

(** [await ev], a rejection being rethrown. *)
Definition await {B : Type} (ev : event B) : task B := Await ev settled.

Declare Scope task_scope.
Delimit Scope task_scope with task.
Notation "'let!' x ':=' t 'in' k" := (bind t (fun x => k))
  (at level 10, x name, t at level 100, k at level 200) : task_scope.

(** The environment: what each call answers and in which order concurrently
    running commands complete, both as functions of everything observed so
    far. *)
Record env : Type := {
  answer : forall B : Type, list obs -> event B -> outcome B;
  configuration : list obs -> string -> string -> value;
  schedule : list obs -> list nat;
}.

(** The order in which the promises of a [Promise.all] over [n] elements
    settle: the scheduled order first, then whatever it left out. *)
Definition settle_order (sched : list nat) (n : nat) : list nat :=
  reverse (remove_dups (reverse (filter (fun i => i < n) sched ++ seq 0 n))).

Definition initial_results (items : list par_item) : list string :=
  map (fun it => match it with PValue s => s | PGit _ _ => EmptyString end) items.

Fixpoint start_all (slot : nat) (items : list par_item) : list obs :=
  match items with
  | [] => []
  | PGit cmd _ :: rest => ObsStart slot cmd :: start_all (S slot) rest
  | PValue _ :: rest => start_all (S slot) rest
  end.

(** The promises settle one after the other in [order]; the first rejection
    that no [.catch] absorbs rejects the whole [Promise.all]. *)
Fixpoint settle_all (e : env) (hist : list obs) (items : list par_item)
    (order : list nat) (results : list string) : list obs * outcome (list string) :=
  match order with
  | [] => ([], Ok results)
  | i :: order' =>
      match items !! i with
      | Some (PGit cmd catch) =>
          let r := answer e string hist (git_run (VStr cmd)) in
          let o := ObsSettle i cmd r in
          match r, catch with
          | Ok v, _ | Thrown _, Some v =>
              let '(tr, res) := settle_all e (hist ++ [o]) items order' (<[i:=v]> results) in
              (o :: tr, res)
          | Thrown x, None => ([o], Thrown x)
          end
      | _ => settle_all e hist items order' results
      end
  end.

(** The promise of an element settles with [r] and contributes [v] to the
    array of results. *)
Definition settles_to (catch : option string) (r : outcome string) (v : string) : Prop :=
  r = Ok v \/ (exists x, r = Thrown x) /\ catch = Some v.

Definition run_all (e : env) (hist : list obs) (items : list par_item)
    : list obs * outcome (list string) :=
  let started := start_all 0 items in
  let '(tr, res) :=
    settle_all e (hist ++ started) items
      (settle_order (schedule e hist) (List.length items)) (initial_results items) in
  (started ++ tr, res).

(** Running a task after the observations [hist]: the new observations and
    the settlement. *)
Fixpoint run {A : Type} (e : env) (hist : list obs) (t : task A) : list obs * outcome A :=
  match t with
  | Return a => ([], Ok a)
  | Throw x => ([], Thrown x)
  | Await ev k =>
      let r := answer e _ hist ev in
      let o := observe ev r in
      let '(tr, res) := run e (hist ++ [o]) (k r) in
      (o :: tr, res)
  | AwaitAll items k =>
      let '(tr1, r) := run_all e hist items in
      let joined := match r with Ok vs => [ObsJoin vs] | Thrown _ => [] end in
      let '(tr2, res) := run e (hist ++ tr1 ++ joined) (k r) in
      (tr1 ++ joined ++ tr2, res)
  | Config section key k =>
      let v := configuration e hist section key in
      let o := ObsConfig section key v in
      let '(tr, res) := run e (hist ++ [o]) (k v) in
      (o :: tr, res)
  | Log channel x k =>
      let o := ObsLog channel x in
      let '(tr, res) := run e (hist ++ [o]) k in
      (o :: tr, res)
  end.

End Async.

(** ** The format languages of the version-control tool

    The handler builds two format strings and hands them to the external
    tool.  What a format emits is the tool's contract: in a pretty format
    the placeholders [%H %h %aN %aE %ad %D %s] stand for the fields of a
    commit, in a ref format [%(atom)] stands for a field of a ref, and every
    other character is copied. *)

Module GitFormat.

Record commit_fields : Type := {
  full_hash : string;
  short_hash : string;
  author_name : string;
  author_email : string;
  author_date : string;
  decoration : string;
  subject : string;
}.

Definition at_char (c : ascii) (d : ascii) : bool := Ascii.eqb c d.

Fixpoint expand_pretty (c : commit_fields) (fmt : string) : string :=
  match fmt with
  | EmptyString => EmptyString
  | String p t =>
      if at_char p "%" then
        match t with
        | String x t1 =>
            if at_char x "H" then full_hash c +:+ expand_pretty c t1
            else if at_char x "h" then short_hash c +:+ expand_pretty c t1
            else if at_char x "D" then decoration c +:+ expand_pretty c t1
            else if at_char x "s" then subject c +:+ expand_pretty c t1
            else if at_char x "a" then
              match t1 with
              | String y t2 =>
                  if at_char y "N" then author_name c +:+ expand_pretty c t2
                  else if at_char y "E" then author_email c +:+ expand_pretty c t2
                  else if at_char y "d" then author_date c +:+ expand_pretty c t2
                  else String p (expand_pretty c t)
              | EmptyString => String p (expand_pretty c t)
              end
            else String p (expand_pretty c t)
        | EmptyString => String p EmptyString
        end
      else String p (expand_pretty c t)
  end.

(** [atom] is [Some name] while the scanner is inside [%(name]. *)
Fixpoint expand_ref (field : string -> string) (atom : option string) (fmt : string) : string :=
  match fmt with
  | EmptyString => EmptyString
  | String p t =>
      match atom with
      | Some name =>
          if at_char p ")" then field name +:+ expand_ref field None t
          else expand_ref field (Some (name +:+ String p EmptyString)) t
      | None =>
          if at_char p "%" then
            match t with
            | String x t1 =>
                if at_char x "(" then expand_ref field (Some EmptyString) t1
                else String p (expand_ref field None t)
            | EmptyString => String p EmptyString
            end
          else String p (expand_ref field None t)
      end
  end.

(** The two atoms of the branch listing, for a branch with upstream remote
    [remote] and full ref name [refname]. *)
Definition branch_field (remote refname : string) (name : string) : string :=
  if String.eqb name "upstream:remotename" then remote
  else if String.eqb name "refname" then refname
  else EmptyString.

End GitFormat.

(** ** The webview side (web/src/bridge.js) *)

Module Bridge.
Import Async.

(** The module-level variables.  A handler stored in [response_handlers] is
    the resolver [ok] of the promise that one call of [exchange_message]
    awaits; it is named by the number of that call.  A push handler is named
    by the number of its registration.  [message_id_counter] is a number
    that only ever counts calls, hence an integer (a JavaScript number
    counts exactly up to 2^53, which no run reaches). *)
Record state : Type := {
  response_handlers : gmap string nat;
  message_id_counter : Z;
  response_chunks : gmap string (list value);
  push_handlers : gmap string nat;
}.

Definition initial : state :=
  {| response_handlers := ∅; message_id_counter := 0; response_chunks := ∅;
     push_handlers := ∅ |}.

(** The names every object literal inherits from [Object.prototype]: read
    as keys of a dictionary they yield the inherited member, not a stored
    handler. *)
Definition Object_prototype_members : list string :=
  [ "constructor"; "toString"; "toLocaleString"; "valueOf"; "hasOwnProperty";
    "isPrototypeOf"; "propertyIsEnumerable"; "__proto__"; "__defineGetter__";
    "__defineSetter__"; "__lookupGetter__"; "__lookupSetter__" ].

Inductive property (A : Type) : Type :=
| Own (a : A)
| Inherited
| Missing.
Arguments Own {A} a.
Arguments Inherited {A}.
Arguments Missing {A}.

(** [dict[key]]. *)
Definition read {A : Type} (dict : gmap string A) (key : string) : property A :=
  match dict !! key with
  | Some a => Own a
  | None => if bool_decide (key ∈ Object_prototype_members) then Inherited else Missing
  end.

(** What the webview does that can be seen from outside the module. *)
Inductive wobs : Type :=
| WPost (request : BridgeMessage)
| WResolve (call : nat) (resp : BridgeMessage)
| WPush (listener : nat) (message : BridgeMessage).

(** [acc.concat(v)]. *)
Definition concat (acc : list value) (v : value) : list value :=
  match v with
  | VArr items => acc ++ items
  | _ => acc ++ [v]
  end.

Definition with_data (m : BridgeMessage) (v : value) : BridgeMessage :=
  {| type := type m; id := id m; command := command m; data := v; error := error m;
     chunk := chunk m; total_chunks := total_chunks m |}.

Section Listener.

(** Calling a member of [Object.prototype] as if it were a handler: it
    returns or throws, and touches nothing of this module. *)
Variable call_member : string -> BridgeMessage -> outcome unit.

(** The part of the listener after the chunk handling: the handler is
    called with the message and removed. *)
Definition dispatch (st : state) (key : string) (handler : nat) (message : BridgeMessage)
    : state * list wobs * outcome unit :=
  ({| response_handlers := delete key (response_handlers st);
      message_id_counter := message_id_counter st;
      response_chunks := response_chunks st;
      push_handlers := push_handlers st |},
   [WResolve handler message], Ok tt).

(** The listener of the window [message] event, lines 12 to 42, on the
    message that [JSON.parse] yields. *)
Definition listener (st : state) (message : BridgeMessage) : state * list wobs * outcome unit :=
  let key := to_key (id message) in
  if String.eqb (type message) "response-to-web" then
    match read (response_handlers st) key with
    | Missing => (st, [], Thrown (Error "unhandled message response id"))
    | Inherited =>
        if truthy (chunk message) then
          (st, [], Thrown (TypeError "concat is not a function"))
        else (st, [], call_member key message)
    | Own handler =>
        if truthy (chunk message) then
          let chunks :=
            concat (default [] (response_chunks st !! key)) (data message) in
          if strict_eq (chunk message) (total_chunks message) then
            dispatch
              {| response_handlers := response_handlers st;
                 message_id_counter := message_id_counter st;
                 response_chunks := delete key (response_chunks st);
                 push_handlers := push_handlers st |}
              key handler (with_data message (VArr chunks))
          else
            ({| response_handlers := response_handlers st;
                message_id_counter := message_id_counter st;
                response_chunks := <[key := chunks]> (response_chunks st);
                push_handlers := push_handlers st |}, [], Ok tt)
        else dispatch st key handler message
    end
  else if String.eqb (type message) "push-to-web" then
    match read (push_handlers st) key with
    | Missing => (st, [], Thrown (Error "unhandled message push id"))
    | Inherited => (st, [], call_member key message)
    | Own handler => (st, [WPush handler message], Ok tt)
    end
  else (st, [], Ok tt).

End Listener.

(** The request that [exchange_message(command, data)] builds once the
    counter has been incremented. *)
Definition request_of (counter : Z) (command : string) (d : value) : BridgeMessage :=
  {| type := "request-from-web"; id := VNum counter; command := VStr command; data := d;
     error := VUndefined; chunk := VUndefined; total_chunks := VUndefined |}.

(** [exchange_message], lines 44 to 52: up to the point where it awaits
    its promise.  [call] names the promise. *)
Definition exchange_message_send (st : state) (call : nat) (command : string) (d : value)
    : state * list wobs :=
  let counter := (message_id_counter st + 1)%Z in
  let request := request_of counter command d in
  ({| response_handlers := <[to_key (VNum counter) := call]> (response_handlers st);
      message_id_counter := counter;
      response_chunks := response_chunks st;
      push_handlers := push_handlers st |},
   [WPost request]).

Definition request_value (request : BridgeMessage) : value :=
  VObj [("command", command request); ("data", data request); ("id", id request);
        ("type", VStr (type request))].

(** [exchange_message], lines 55 to 64: once the promise is resolved with
    [resp]. *)
Definition exchange_message_finish (JSON_stringify : value -> string)
    (request resp : BridgeMessage) : outcome value :=
  if truthy (error resp) then
    Thrown
      (VObj [("message",
              VStr (JSON_stringify
                      (VObj [("error_response", error resp);
                             ("request", request_value request)])));
             ("message_error_response", error resp)])
  else Ok (data resp).

(** [add_push_listener(id, handler)]. *)
Definition add_push_listener (st : state) (name : string) (handler : nat) : state :=
  {| response_handlers := response_handlers st;
     message_id_counter := message_id_counter st;
     response_chunks := response_chunks st;
     push_handlers := <[name := handler]> (push_handlers st) |}.

(** What happens to the module, one thing at a time. *)
Inductive input : Type :=
| Call (command : string) (d : value)
| Message (message : BridgeMessage)
| Listen (name : string).

(** The module together with its history: the requests posted (the call
    numbered [n] posted the [n]-th of them), the handler calls made, and the
    number of push listeners registered. *)
Record world : Type := {
  st : state;
  posted : list BridgeMessage;
  resolved : list (nat * BridgeMessage);
  listeners : nat;
}.

Definition start : world :=
  {| st := initial; posted := []; resolved := []; listeners := 0 |}.

Definition resolutions (os : list wobs) : list (nat * BridgeMessage) :=
  omap (fun o => match o with WResolve n m => Some (n, m) | _ => None end) os.

Definition step (call_member : string -> BridgeMessage -> outcome unit)
    (w : world) (i : input) : world :=
  match i with
  | Call command d =>
      let '(st', os) := exchange_message_send (st w) (List.length (posted w)) command d in
      {| st := st';
         posted := posted w ++ omap (fun o => match o with WPost r => Some r | _ => None end) os;
         resolved := resolved w; listeners := listeners w |}
  | Message message =>
      let '(st', os, _) := listener call_member (st w) message in
      {| st := st'; posted := posted w; resolved := resolved w ++ resolutions os;
         listeners := listeners w |}
  | Listen name =>
      {| st := add_push_listener (st w) name (listeners w); posted := posted w;
         resolved := resolved w; listeners := S (listeners w) |}
  end.

Definition steps (call_member : string -> BridgeMessage -> outcome unit)
    (w : world) (ins : list input) : world :=
  fold_left (step call_member) ins w.

(** [n++] on a JavaScript number that holds the integer [n] between 0
    and 2^53: the sum is exact below 2^53; at 2^53 it is no longer a number
    of the format and rounds back to 2^53. *)
Definition number_increment (n : Z) : Z :=
  if (n <? 2 ^ 53)%Z then (n + 1)%Z else n.

(** A message that reaches the handler: one that is not a chunk, or the
    last chunk. *)
Definition completes (m : BridgeMessage) : bool :=
  negb (truthy (chunk m)) || strict_eq (chunk m) (total_chunks m).

(** Every request posted is in flight, its handler stored under the key of
    its own id, or has had its handler called. *)
Definition in_flight_or_resolved (w : world) : Prop :=
  forall n, n < List.length (posted w) ->
    n ∈ (resolved w).*1 \/
    response_handlers (st w) !! to_key (VNum (Z.of_nat (S n))) = Some n.

(** What holds of the module after any sequence of calls and messages:
    the counter has counted the calls; the [n]-th request carries the id
    [n + 1]; a stored handler sits under the key of the id of its own
    request; a handler that has been called was called with a message
    bearing the id of its request, is no longer stored, and was called
    once. *)
Definition inv (w : world) : Prop :=
  message_id_counter (st w) = Z.of_nat (List.length (posted w)) /\
  (forall n req, posted w !! n = Some req -> id req = VNum (Z.of_nat (S n))) /\
  (forall key n, response_handlers (st w) !! key = Some n ->
     key = to_key (VNum (Z.of_nat (S n))) /\ n < List.length (posted w)) /\
  (forall n m, (n, m) ∈ resolved w ->
     to_key (id m) = to_key (VNum (Z.of_nat (S n))) /\ n < List.length (posted w)
     /\ response_handlers (st w) !! to_key (id m) = None) /\
  NoDup (resolved w).*1.

End Bridge.

(** ** The state shared with the webview (lines 76 to 137) *)

Module StateStore.
Import Async Bridge.
Open Scope task_scope.

Definition workspace_get (key : value) : task value :=
  await (extern "context.workspaceState.get" [key]).

Definition workspace_update (key v : value) : task value :=
  await (extern "context.workspaceState.update" [key; v]).

Definition global_get (key : value) : task value :=
  await (extern "context.globalState.get" [key]).

Definition global_update (key v : value) : task value :=
  await (extern "context.globalState.update" [key; v]).

Definition get_repo_names : task value := await (extern "git.get_repo_names" []).

(** The push that announces a value of the state, lines 129 to 133. *)
Definition state_update (key v : value) : BridgeMessage :=
  {| type := "push-to-web"; id := VStr "state-update"; command := VUndefined;
     data := VObj [("key", key); ("value", v)]; error := VUndefined;
     chunk := VUndefined; total_chunks := VUndefined |}.

(** The local key of the two states that are kept per repository. *)
Definition repo_local_key (name : string) : option string :=
  if String.eqb name "repo:selected-commits-hashes" then Some "selected-commits-hashes"
  else if String.eqb name "repo:action-history" then Some "action-history"
  else None.

Section Mementos.

(** The text that the template of line 92 makes of [names[index]], for
    names that are neither [undefined] nor [null]; and [Number(v)]. *)
Variable element_text : value -> value -> string.
Variable Number : value -> value.

(** [key()] of [repo_state_memento], lines 90 to 93. *)
Definition repo_key (local_key : string) : task value :=
  let! names := get_repo_names in
  let! index := workspace_get (VStr "selected-repo-index") in
  if nullish names then Throw (TypeError "Cannot read properties of undefined")
  else Return (VStr ("repo-" +:+ local_key +:+ "-" +:+ element_text names index)).

Definition repo_get (local_key : string) : task value :=
  let! k := repo_key local_key in workspace_get k.

Definition repo_set (local_key : string) (v : value) : task value :=
  let! k := repo_key local_key in workspace_update k v.

(** [set] of the object that [state(key)] returns, lines 126 to 134, for
    the [set] of the memento chosen. *)
Definition set_then_broadcast (memento_set : task value) (key v broadcast : value)
    : task value :=
  let! stored := memento_set in
  if negb (strict_eq broadcast (VBool false)) then
    let! sent := await (post_message (state_update key v)) in Return VUndefined
  else Return VUndefined.

(** [state(key).set(state(key).get())] for a state kept per repository,
    line 110. *)
Definition reannounce (name local_key : string) : task value :=
  let! v := repo_get local_key in
  set_then_broadcast (repo_set local_key v) (VStr name) v VUndefined.

(** [state(key).get()]: the special states, lines 100 to 120, the names
    that [special_states] inherits, and the default memento. *)
Definition state_get (key : value) : task value :=
  let name := to_key key in
  if String.eqb name "selected-repo-index" then workspace_get (VStr "selected-repo-index")
  else if String.eqb name "repo-names" then get_repo_names
  else match repo_local_key name with
       | Some local_key => repo_get local_key
       | None =>
           if bool_decide (name ∈ Object_prototype_members)
           then Throw (TypeError "state(...).get is not a function")
           else global_get key
       end.

Definition memento_set (key v : value) : task value :=
  let name := to_key key in
  if String.eqb name "selected-repo-index" then
    let! stored := workspace_update (VStr "selected-repo-index") v in
    let! selected :=
      await (extern "git.set_selected_repo_index" [or_else (Number v) (VNum 0)]) in
    let! first := reannounce "repo:action-history" "action-history" in
    let! second := reannounce "repo:selected-commits-hashes" "selected-commits-hashes" in
    Return VUndefined
  else if String.eqb name "repo-names" then Return VUndefined
  else match repo_local_key name with
       | Some local_key => repo_set local_key v
       | None =>
           if bool_decide (name ∈ Object_prototype_members)
           then Throw (TypeError "memento.set is not a function")
           else global_update key v
       end.

(** [state(key).set(value, options)], [broadcast] being
    [options.broadcast]. *)
Definition state_set (key v broadcast : value) : task value :=
  set_then_broadcast (memento_set key v) key v broadcast.

End Mementos.

(** A state store that answers [undefined] to every read, with one
    repository; and sample renderings of [names[index]] and [Number]. *)
Definition one_repository : env :=
  {| answer := fun B hist ev =>
       match ev in event T return outcome T with
       | git_run _ => Ok EmptyString
       | parse _ _ _ _ _ => Ok VUndefined
       | extern api _ =>
           if String.eqb api "git.get_repo_names" then Ok (VArr [VStr "main"])
           else Ok VUndefined
       | post_message _ => Ok (VBool true)
       end;
     configuration := fun hist section key => VUndefined;
     schedule := fun hist => [] |}.

(** A request of the webview to select the first repository. *)
Definition set_index_request : BridgeMessage :=
  {| type := "request-from-web"; id := VNum 5; command := VStr "set-state";
     data := VObj [("key", VStr "selected-repo-index"); ("value", VNum 0)];
     error := VUndefined; chunk := VUndefined; total_chunks := VUndefined |}.

Definition sample_element_text (names index : value) : string := "main".

Definition sample_Number (v : value) : value := v.

End StateStore.

(** ** The extension host ([activate]) *)

Module Host.
Import Str Async.
Open Scope task_scope.

Definition EXT_ID : string := "git-log--graph".

(** [post_message], lines 52 to 57: the message is stringified and handed
    to the webview of [webview_container] when there is one. *)
Definition post_message_delivers (JSON_stringify : BridgeMessage -> string)
    (webview_container : bool) (msg : BridgeMessage) : list string :=
  if webview_container then [JSON_stringify msg] else [].

(** [intercept_errors(fun)], lines 33 to 44: log and rethrow. *)
Definition intercept_errors {A : Type} (body : task A) : task A :=
  try_catch body (fun e =>
    Log "logger.error" e
      (Log "console.error" (VStr "The above error happened inside:") (Throw e))).

Definition set_error (resp : BridgeMessage) (v : value) : BridgeMessage :=
  {| type := type resp; id := id resp; command := command resp; data := data resp;
     error := v; chunk := chunk resp; total_chunks := total_chunks resp |}.

Definition set_data (resp : BridgeMessage) (v : value) : BridgeMessage :=
  {| type := type resp; id := id resp; command := command resp; data := v;
     error := error resp; chunk := chunk resp; total_chunks := total_chunks resp |}.

(** [h(func)], lines 151 to 182. *)
Definition h (message : BridgeMessage) (func : task value) : task value :=
  let resp := {| type := "response-to-web"; id := id message; command := VUndefined;
                 data := VUndefined; error := VUndefined; chunk := VUndefined;
                 total_chunks := VUndefined |} in
  let! caught :=
    try_catch (let! data := func in Return (data, resp))
      (fun error =>
         Log "console.warn" error
           match get_prop error "message" with
           | None => Throw (TypeError "Cannot read properties of undefined (reading 'message')")
           | Some m => Return (VUndefined, set_error resp (or_else m error))
           end) in
  let '(data, resp) := caught in
  let! posted := await (post_message (set_data resp data)) in
  Return VUndefined.

(** The separator token of the [git-log] handler. *)
Definition sep : string := "^%^%^%^%^".

(** The text between the quotes of the [--pretty=format:] argument. *)
Definition EXT_FORMAT (sep : string) : string :=
  sep +:+ "%H" +:+ sep +:+ "%h" +:+ sep +:+ "%aN" +:+ sep +:+ "%aE" +:+ sep +:+ "%ad"
      +:+ sep +:+ "%D" +:+ sep +:+ "%s".

Definition pretty_argument (sep : string) : string :=
  " --pretty=format:" +:+ dq +:+ EXT_FORMAT sep +:+ dq.

(** The text between the quotes of the [--format=] argument of the branch
    listing. *)
Definition branch_format (sep : string) : string :=
  "%(upstream:remotename)" +:+ sep +:+ "%(refname)".

Definition branch_command (sep : string) : string :=
  "branch --list --all --format=" +:+ dq +:+ branch_format sep +:+ dq.

Definition stash_refs_command : string := "stash list --format=" +:+ dq +:+ "%h" +:+ dq.

Definition stash_command : string := "stash list --format=" +:+ dq +:+ "%h %gd" +:+ dq.

Definition empty_parsed : value := VObj [("commits", VArr []); ("refs", VArr [])].

(** The history-listing command line: [args] after the two replacements. *)
Definition log_command (args stash_refs : string) : string :=
  replace "{STASH_REFS}" (replaceAll_lf_space stash_refs)
    (replace " --pretty={EXT_FORMAT}" (pretty_argument sep) args).

(** The array given to [Promise.all], lines 196 to 200. *)
Definition git_log_items (args stash_refs : string) (fetch_branches : value) : list par_item :=
  [ PGit (log_command args stash_refs) None;
    if truthy fetch_branches then PGit (branch_command sep) None else PValue EmptyString;
    PGit stash_command (Some EmptyString) ].

(** Lines 201 to 206: what follows the [await Promise.all]. *)
Definition git_log_joined (r : outcome (list string)) : task value :=
  match r with
  | Thrown e => Throw e
  | Ok [log_data; branch_data; stash_data] =>
      if negb (String.eqb log_data EmptyString) then
        Config EXT_ID "curve-radius" (fun curve_radius =>
          await (parse log_data branch_data stash_data sep curve_radius))
      else Return empty_parsed
  | Ok _ => Throw (TypeError "undefined is not iterable")
  end.

(** Lines 192 to 194. *)
Definition git_log_stash_refs (fetch_stash_refs : value) : task string :=
  if truthy fetch_stash_refs then await (git_run (VStr stash_refs_command))
  else Return EmptyString.

(** The function of the [git-log] command, lines 188 to 207. *)
Definition git_log (d : value) : task value :=
  match get_prop d "args", get_prop d "fetch_stash_refs", get_prop d "fetch_branches" with
  | Some (VStr args), Some fetch_stash_refs, Some fetch_branches =>
      let! stash_refs := git_log_stash_refs fetch_stash_refs in
      AwaitAll (git_log_items args stash_refs fetch_branches) git_log_joined
  | _, _, _ => Throw (TypeError "args.replace is not a function")
  end.

(** The commands of a [request-from-web] message that are answered through
    [h].  The functions of [get-state] and [set-state] go through the state
    store; those of the others but [git] and [git-log] only call the editor
    or the logger with the request data. *)
Definition editor_commands : list string :=
  [ "show-error-message"; "show-information-message"; "get-config"; "get-state";
    "set-state"; "open-diff"; "open-multi-diff"; "view-rev"; "open-file" ].

Section Commands.

(** What the state store needs of JavaScript: the text that the template
    of line 92 makes of [names[index]], and [Number(v)]. *)
Variable element_text : value -> value -> string.
Variable Number : value -> value.

(** The function of [set-state], line 217:
    [state(d.key).set(d.value, { broadcast: false })]. *)
Definition set_state (d : value) : task value :=
  match get_prop d "key", get_prop d "value" with
  | Some key, Some v => StateStore.state_set element_text Number key v (VBool false)
  | _, _ => Throw (TypeError "Cannot read properties of undefined (reading 'key')")
  end.

Definition func_of (cmd : string) (d : value) : option (task value) :=
  if String.eqb cmd "git" then
    Some (let! out := await (git_run d) in Return (VStr out))
  else if String.eqb cmd "git-log" then Some (git_log d)
  else if String.eqb cmd "get-state" then Some (StateStore.state_get element_text d)
  else if String.eqb cmd "set-state" then Some (set_state d)
  else if bool_decide (cmd ∈ editor_commands) then Some (await (extern cmd [d]))
  else None.

(** The [onDidReceiveMessage] callback, lines 148 to 243. *)
Definition on_message (message : BridgeMessage) : task value :=
  intercept_errors
    (Log "logger.debug" (VStr "receive from webview")
       (if String.eqb (type message) "request-from-web" then
          match command message with
          | VStr cmd =>
              match func_of cmd (data message) with
              | Some func => h message func
              | None => Return VUndefined
              end
          | _ => Return VUndefined
          end
        else Return VUndefined)).

End Commands.

(** The response [h] posts when the function of the command returns
    [d], and when it throws [err] whose [message] reads as [m]. *)
Definition response_ok (message : BridgeMessage) (d : value) : BridgeMessage :=
  {| type := "response-to-web"; id := id message; command := VUndefined; data := d;
     error := VUndefined; chunk := VUndefined; total_chunks := VUndefined |}.

Definition response_error (message : BridgeMessage) (m err : value) : BridgeMessage :=
  {| type := "response-to-web"; id := id message; command := VUndefined;
     data := VUndefined; error := or_else m err; chunk := VUndefined;
     total_chunks := VUndefined |}.

(** The calls of [parse] in a trace, and the messages handed to
    [post_message]. *)
Definition parse_calls (tr : list obs)
    : list (string * string * string * string * value * outcome value) :=
  omap (fun o => match o with
                 | ObsParse l b s sp rad r => Some (l, b, s, sp, rad, r)
                 | _ => None
                 end) tr.

Definition posts (tr : list obs) : list BridgeMessage :=
  omap (fun o => match o with ObsPost m _ => Some m | _ => None end) tr.

(** Every message that [t] hands to [post_message], whatever the
    environment answers, satisfies [P]. *)
Fixpoint posts_only {A : Type} (P : BridgeMessage -> Prop) (t : task A) : Prop :=
  match t with
  | Return _ | Throw _ => True
  | Await ev k =>
      match ev with post_message m => P m | _ => True end
      /\ forall r, posts_only P (k r)
  | AwaitAll _ k => forall r, posts_only P (k r)
  | Config _ _ k => forall v, posts_only P (k v)
  | Log _ _ k => posts_only P k
  end.

(** The responses among the messages posted. *)
Definition responses (ms : list BridgeMessage) : list BridgeMessage :=
  filter (fun m => type m = "response-to-web") ms.

(** [m] is a push that announces a value of the state. *)
Definition is_state_update (m : BridgeMessage) : Prop :=
  exists key v, m = StateStore.state_update key v.

(** The observations of running commands, as opposed to those of joining,
    configuring, parsing, posting and logging. *)
Definition quiet (o : obs) : Prop :=
  match o with
  | ObsGit _ _ | ObsStart _ _ | ObsSettle _ _ _ => True
  | _ => False
  end.

(** The shapes a run of [git_log] takes on a well-formed request, after the
    observations [hist]. *)
Inductive git_log_run (e : env) (hist : list obs) (args : string)
    (fetch_stash_refs fetch_branches : value) : list obs -> outcome value -> Prop :=
| run_refs_failed x :
    truthy fetch_stash_refs = true ->
    answer e string hist (git_run (VStr stash_refs_command)) = Thrown x ->
    git_log_run e hist args fetch_stash_refs fetch_branches
      [ObsGit (VStr stash_refs_command) (Thrown x)] (Thrown x)
| run_rejected pre stash_refs tr1 x :
    run e hist (git_log_stash_refs fetch_stash_refs) = (pre, Ok stash_refs) ->
    run_all e (hist ++ pre) (git_log_items args stash_refs fetch_branches) = (tr1, Thrown x) ->
    git_log_run e hist args fetch_stash_refs fetch_branches (pre ++ tr1) (Thrown x)
| run_empty pre stash_refs tr1 b s :
    run e hist (git_log_stash_refs fetch_stash_refs) = (pre, Ok stash_refs) ->
    run_all e (hist ++ pre) (git_log_items args stash_refs fetch_branches)
      = (tr1, Ok [EmptyString; b; s]) ->
    git_log_run e hist args fetch_stash_refs fetch_branches
      (pre ++ tr1 ++ [ObsJoin [EmptyString; b; s]]) (Ok empty_parsed)
| run_parsed pre stash_refs tr1 l b s rad r :
    run e hist (git_log_stash_refs fetch_stash_refs) = (pre, Ok stash_refs) ->
    run_all e (hist ++ pre) (git_log_items args stash_refs fetch_branches)
      = (tr1, Ok [l; b; s]) ->
    l <> EmptyString ->
    git_log_run e hist args fetch_stash_refs fetch_branches
      (pre ++ tr1 ++ [ObsJoin [l; b; s]; ObsConfig EXT_ID "curve-radius" rad;
                      ObsParse l b s sep rad r]) r.

End Host.

(** ** The parser core ([./log-parser], which the host requires)

    The module is not among the source files; what follows is its
    description in the specification, sections 3 to 5. *)

Module Parser.
Import Str.

(** Modelled from the spec: the kinds of a Ref of section 3, the source of
    [./log-parser] being absent. *)
Inductive ref_kind : Type :=
| local_branch | remote_branch | tag | stash | head_pointer.

(** Modelled from the spec: the Ref of section 3. *)
Record Ref : Type := {
  name : string;
  remote : string;
  kind : ref_kind;
}.

(** Modelled from the spec: the CommitRecord of section 3. *)
Record CommitRecord : Type := {
  hash : string;
  short_hash : string;
  author_name : string;
  author_email : string;
  authored_at : string;
  subject : string;
  decorations : list Ref;
  lane : nat;
  parent_lanes : list nat;
  is_stash : bool;
}.

(** Modelled from the spec: the LaneTrack of section 3, an ordered sequence
    of slots, each empty or holding the hash it tracks. *)
Definition LaneTrack : Type := list (option string).

(** Modelled from the spec: the result of [parse], section 4.7. *)
Record Parsed : Type := {
  commits : list CommitRecord;
  refs : list Ref;
}.

(** [text.split('\n')]. *)
Fixpoint lines (text : string) : list string :=
  match text with
  | EmptyString => [EmptyString]
  | String c t =>
      if Ascii.eqb c lf then EmptyString :: lines t
      else match lines t with
           | l :: ls => String c l :: ls
           | [] => [String c EmptyString]
           end
  end.

(** Modelled from the spec: the Stash Correlator of section 4.3, one line
    being [<short-hash> <stash-slot-name>]; a line without a space holds no
    entry. *)
Definition stash_entry (line : string) : option (string * string) :=
  find_first " " line.

(** Modelled from the spec: the Stash Correlator of section 4.3, the
    mapping from short hash to slot name. *)
Definition stash_correlator (stash_text : string) : gmap string string :=
  list_to_map (omap stash_entry (lines stash_text)).

(** [n] fields that end at a separator, then the remainder. *)
Fixpoint fields_then_rest (sep : string) (n : nat) (s : string) : option (list string) :=
  match n with
  | O => Some [s]
  | S n' =>
      match find_first sep s with
      | None => None
      | Some (a, b) => cons a <$> fields_then_rest sep n' b
      end
  end.

(** Modelled from the spec: the Field Splitter of section 4.1.  The glyphs
    before the first separator, then six fields and the subject, which is
    the remainder of the line. *)
Definition split_fields (sep line : string) : option (string * list string) :=
  match find_first sep line with
  | None => None
  | Some (glyphs, payload) =>
      fs ← fields_then_rest sep 6 payload; Some (glyphs, fs)
  end.

(** The heap of the JavaScript engine as far as the parser uses it: the
    LaneTrack objects, by address. *)
Abbreviation heap := (gmap nat LaneTrack).

Section Core.

(** The parts the specification gives by contract only: how the Ref
    Correlator reads one line of the branch listing, how a decoration
    string names refs, and how the Graph Glyph Tracker updates its lanes on
    the glyphs of a row and which lane and parent lanes it assigns. *)
Variable correlate_ref : string -> option Ref.
Variable resolve_decorations : list Ref -> string -> list Ref.
Variable track_glyphs : LaneTrack -> string -> LaneTrack * nat * list nat.

(** Modelled from the spec: the Ref Correlator of section 4.2. *)
Definition ref_correlator (branch_text : string) : list Ref :=
  omap correlate_ref (lines branch_text).

(** Modelled from the spec: the Commit Assembler of section 4.5. *)
Definition assemble (known : list Ref) (stashes : gmap string string)
    (fields : list string) (row_lane : nat) (row_parents : list nat) : option CommitRecord :=
  match fields with
  | [h; sh; an; ae; ad; deco; subj] =>
      let slot := stashes !! sh in
      Some {| hash := h; short_hash := sh; author_name := an; author_email := ae;
              authored_at := ad; subject := subj;
              decorations :=
                resolve_decorations known deco
                  ++ match slot with
                     | Some slot_name => [{| name := slot_name; remote := EmptyString; kind := stash |}]
                     | None => []
                     end;
              lane := row_lane; parent_lanes := row_parents;
              is_stash := bool_decide (is_Some slot) |}
  | _ => None
  end.

(** Modelled from the spec: one row through the Graph Glyph Tracker and the
    Commit Assembler, sections 4.4 to 4.6.  The tracker reads and writes the
    LaneTrack at [track]; a row the Field Splitter rejects is skipped. *)
Definition row (known : list Ref) (stashes : gmap string string) (sep : string)
    (track : nat) (acc : heap * list CommitRecord) (line : string)
    : heap * list CommitRecord :=
  let '(hp, out) := acc in
  match split_fields sep line with
  | None => (hp, out)
  | Some (glyphs, fields) =>
      let '(lanes, row_lane, row_parents) := track_glyphs (default [] (hp !! track)) glyphs in
      (<[track := lanes]> hp,
       out ++ option_list (assemble known stashes fields row_lane row_parents))
  end.

(** Modelled from the spec: the Parse Orchestrator of section 4.7, run on
    the heap earlier calls have left.  A fresh LaneTrack is allocated for
    the call; an empty [log_text] returns at once. *)
Definition parse_on (hp : heap) (log_text branch_text stash_text separator : string)
    (curve_radius : Z) : Parsed * heap :=
  if String.eqb log_text EmptyString then ({| commits := []; refs := [] |}, hp)
  else
    let known := ref_correlator branch_text in
    let stashes := stash_correlator stash_text in
    let track := fresh (dom hp) in
    let '(hp', out) :=
      fold_left (row known stashes separator track) (lines log_text)
        (<[track := []]> hp, []) in
    ({| commits := out; refs := known |}, hp').

(** Modelled from the spec: [parse], section 4.7, as a caller sees it. *)
Definition parse (log_text branch_text stash_text separator : string) (curve_radius : Z)
    : Parsed :=
  fst (parse_on ∅ log_text branch_text stash_text separator curve_radius).

End Core.

End Parser.

(** ** Sample environments *)

Module Scenario.
Import Str Async Host.

(** An environment in which [git.run] answers by command line, [parse]
    returns [parsed], the editor answers [undefined], and concurrently
    running commands complete in [order]. *)
Definition world_of (git : string -> outcome string) (parsed : outcome value)
    (order : list nat) : env :=
  {| answer := fun B hist ev =>
       match ev in event T return outcome T with
       | git_run (VStr cmd) => git cmd
       | git_run _ => Thrown (Error "not a command line")
       | parse _ _ _ _ _ => parsed
       | extern _ _ => Ok VUndefined
       | post_message _ => Ok (VBool true)
       end;
     configuration := fun hist section key => VNum 10;
     schedule := fun hist => order |}.

Definition request_data : value :=
  VObj [("args", VStr "log --graph --pretty={EXT_FORMAT} -n 100 --all {STASH_REFS}");
        ("fetch_stash_refs", VBool true);
        ("fetch_branches", VBool true)].

(** A repository without commits, whose stash listing fails. *)
Definition empty_repository : env :=
  world_of
    (fun cmd =>
       if String.eqb cmd stash_command then Thrown (Error "fatal: no stash")
       else Ok EmptyString)
    (Ok empty_parsed) [2; 0; 1].

Definition one_commit_log : string :=
  "* ^%^%^%^%^1f0c^%^%^%^%^1f^%^%^%^%^Ada^%^%^%^%^ada@example.org^%^%^%^%^today^%^%^%^%^HEAD -> main^%^%^%^%^first".

Definition one_commit_parsed : value :=
  VObj [("commits", VArr [VObj [("hash", VStr "1f0c")]]); ("refs", VArr [])].

(** A repository with one commit, whose stash listing fails. *)
Definition one_commit : env :=
  world_of
    (fun cmd =>
       if String.eqb cmd stash_command then Thrown (Error "fatal: no stash")
       else if String.eqb cmd stash_refs_command then Ok EmptyString
       else if String.eqb cmd (branch_command sep) then Ok "^%^%^%^%^refs/heads/main"
       else Ok one_commit_log)
    (Ok one_commit_parsed) [1; 2; 0].

(** An environment in which every command is rejected with [undefined]. *)
Definition rejecting_undefined : env :=
  world_of (fun cmd => Thrown VUndefined) (Ok empty_parsed) [].

(** The request of the webview for the log. *)
Definition git_log_request : BridgeMessage :=
  {| type := "request-from-web"; id := VNum 7; command := VStr "git-log";
     data := request_data; error := VUndefined; chunk := VUndefined;
     total_chunks := VUndefined |}.

(** A response to the first request of the webview, reporting a failure. *)
Definition failed_response : BridgeMessage :=
  {| type := "response-to-web"; id := VNum 1; command := VUndefined; data := VUndefined;
     error := VStr "fatal: not a git repository"; chunk := VUndefined;
     total_chunks := VUndefined |}.

(** A [JSON.stringify] that tells nothing, and members of
    [Object.prototype] that return. *)
Definition json_opaque (v : value) : string := "{}".

Definition member_returns (name : string) (m : BridgeMessage) : outcome unit := Ok tt.

End Scenario.

(** ** Sample messages of the webview side *)

Module Samples.
Import Async Bridge.

(** [m] is a chunk of the response to the request whose id has the key
    [key]. *)
Definition chunk_of (key : string) (m : BridgeMessage) : Prop :=
  type m = "response-to-web" /\ to_key (id m) = key /\ truthy (chunk m) = true.

(** The module after its first call of [exchange_message]. *)
Definition after_first_call : world := step Scenario.member_returns start (Call "git" (VStr "log")).

Definition chunk_message (n total : Z) (part : list value) : BridgeMessage :=
  {| type := "response-to-web"; id := VNum 1; command := VUndefined; data := VArr part;
     error := VUndefined; chunk := VNum n; total_chunks := VNum total |}.

Definition push_message (name : string) : BridgeMessage :=
  {| type := "push-to-web"; id := VStr name; command := VUndefined; data := VUndefined;
     error := VUndefined; chunk := VUndefined; total_chunks := VUndefined |}.

(** The JSON round trip of a value that it leaves as it is. *)
Definition wire_same (v : value) : value := v.

End Samples.

(** ** The channel between the two sides *)

Module Channel.
Import Async Bridge.

(** What the listener of the webview gets for a message the host hands to
    [post_message]: [JSON.parse(JSON.stringify(msg))] (line 53 of the host,
    line 15 of the bridge), field by field; [wire] is what the round trip
    through JSON makes of the value of a field. *)
Definition deliver (wire : value -> value) (m : BridgeMessage) : BridgeMessage :=
  {| type := type m; id := wire (id m); command := wire (command m);
     data := wire (data m); error := wire (error m); chunk := wire (chunk m);
     total_chunks := wire (total_chunks m) |}.

(** The error that [exchange_message] throws, lines 56 to 62. *)
Definition exchange_error (JSON_stringify : value -> string) (request : BridgeMessage)
    (error_response : value) : value :=
  VObj [("message",
         VStr (JSON_stringify
                 (VObj [("error_response", error_response);
                        ("request", request_value request)])));
        ("message_error_response", error_response)].

(** [push_message_id(id)], lines 58 to 63. *)
Definition push_message_id (name : string) : task value :=
  await (post_message
           {| type := "push-to-web"; id := VStr name; command := VUndefined;
              data := VUndefined; error := VUndefined; chunk := VUndefined;
              total_chunks := VUndefined |}).

End Channel.

(** ** Other callbacks of [activate] *)

Module Activation.
Import Str Async Host.

(** [provideTextDocumentContent] of the [git-show] documents, lines 297 to
    299. *)
Definition provideTextDocumentContent (uri_path : string) : task string :=
  intercept_errors
    (try_catch (await (git_run (VStr ("show " +:+ dq +:+ uri_path +:+ dq))))
       (fun _ => Return EmptyString)).

(** A repository in which the history listing fails and every other command
    prints nothing. *)
Definition log_fails : env :=
  Scenario.world_of
    (fun cmd =>
       if String.eqb cmd stash_refs_command then Ok EmptyString
       else if String.eqb cmd stash_command then Ok EmptyString
       else if String.eqb cmd (branch_command sep) then Ok EmptyString
       else Thrown (Error "fatal: bad revision"))
    (Ok empty_parsed) [2; 1; 0].

(** A request for the log whose data lacks [args]. *)
Definition malformed_request : BridgeMessage :=
  {| type := "request-from-web"; id := VNum 3; command := VStr "git-log";
     data := VObj [("fetch_branches", VBool true)]; error := VUndefined;
     chunk := VUndefined; total_chunks := VUndefined |}.

(** A request with a command that the host does not know. *)
Definition unknown_request : BridgeMessage :=
  {| type := "request-from-web"; id := VNum 4; command := VStr "git-push";
     data := VUndefined; error := VUndefined; chunk := VUndefined;
     total_chunks := VUndefined |}.

End Activation.

(** ** The blame item of the status bar (lines 384 to 421) *)

Module Blame.
Import Str.

(** What the handler reads off the event of a selection change: the scheme
    and the path of the uri of the document, its language, and the line of
    the cursor. *)
Record selection : Type := {
  scheme : string;
  languageId : string;
  path : string;
  line : Z;
}.

(** The variables of lines 384 to 388 and the text of the status bar item,
    together with the timers: a timer is named by the number of timers set
    before it, and [armed] lists those set and neither run nor cleared. *)
Record status : Type := {
  current_line : Z;
  current_line_repo_index : Z;
  current_line_long_hash : string;
  line_change_debouncer : option nat;
  blame_text : string;
  armed : list nat;
  timers : nat;
}.

Definition initial : status :=
  {| current_line := -1; current_line_repo_index := -1;
     current_line_long_hash := EmptyString; line_change_debouncer := None;
     blame_text := EmptyString; armed := []; timers := 0 |}.

(** [clearTimeout(t)]: a timer that has run or was cleared is left alone. *)
Definition clearTimeout (t : nat) (ts : list nat) : list nat :=
  filter (fun x => x <> t) ts.

(** [if (line_change_debouncer) clearTimeout(line_change_debouncer)]. *)
Definition clear_debouncer (s : status) : list nat :=
  match line_change_debouncer s with
  | Some t => clearTimeout t (armed s)
  | None => armed s
  end.

(** [hide_blame], lines 389 to 394. *)
Definition hide_blame (s : status) : status :=
  {| current_line := current_line s;
     current_line_repo_index := current_line_repo_index s;
     current_line_long_hash := EmptyString;
     line_change_debouncer := line_change_debouncer s;
     blame_text := EmptyString;
     armed := clear_debouncer s;
     timers := timers s |}.

(** [s.includes(pat)]. *)
Definition includes (pat s : string) : bool :=
  match find_first pat s with
  | Some _ => true
  | None => false
  end.

(** The condition of line 400. *)
Definition ignored (sel : selection) : bool :=
  negb (String.eqb (scheme sel) "file")
  || String.eqb (languageId sel) "log"
  || String.eqb (languageId sel) "Log"
  || includes "extension-output" (path sel)
  || includes Host.EXT_ID (path sel).

(** The handler of a selection change, lines 397 to 421, up to the point
    where the timer is set. *)
Definition on_selection (s : status) (sel : selection) : status :=
  if ignored sel then s
  else if (line sel =? current_line s)%Z then s
  else
    {| current_line := line sel;
       current_line_repo_index := current_line_repo_index s;
       current_line_long_hash := current_line_long_hash s;
       line_change_debouncer := Some (timers s);
       blame_text := blame_text s;
       armed := clear_debouncer s ++ [timers s];
       timers := S (timers s) |}.

(** The timer [t] runs, if it is armed: the callback of line 407 starts
    and waits for the index of the repository. *)
Definition fire (s : status) (t : nat) : status :=
  {| current_line := current_line s;
     current_line_repo_index := current_line_repo_index s;
     current_line_long_hash := current_line_long_hash s;
     line_change_debouncer := line_change_debouncer s;
     blame_text := blame_text s;
     armed := clearTimeout t (armed s);
     timers := timers s |}.

(** Lines 408 to 410: the index of the repository arrives. *)
Definition on_repo_index (s : status) (index : Z) : status :=
  let s1 :=
    {| current_line := current_line s;
       current_line_repo_index := index;
       current_line_long_hash := current_line_long_hash s;
       line_change_debouncer := line_change_debouncer s;
       blame_text := blame_text s;
       armed := armed s;
       timers := timers s |} in
  if (index <? 0)%Z then hide_blame s1 else s1.

(** [s.slice(0, n)]. *)
Fixpoint take (n : nat) (s : string) : string :=
  match n, s with
  | S n', String c s' => String c (take n' s')
  | _, _ => EmptyString
  end.

(** [s.split('\n')]. *)
Fixpoint split_lf (s : string) : list string :=
  match s with
  | EmptyString => [EmptyString]
  | String c t =>
      if Ascii.eqb c lf then EmptyString :: split_lf t
      else match split_lf t with
           | first :: rest => String c first :: rest
           | [] => [String c EmptyString]
           end
  end.

Definition with_hash (s : status) (hash : string) : status :=
  {| current_line := current_line s;
     current_line_repo_index := current_line_repo_index s;
     current_line_long_hash := hash;
     line_change_debouncer := line_change_debouncer s;
     blame_text := blame_text s;
     armed := armed s;
     timers := timers s |}.

Definition with_text (s : status) (text : string) : status :=
  {| current_line := current_line s;
     current_line_repo_index := current_line_repo_index s;
     current_line_long_hash := current_line_long_hash s;
     line_change_debouncer := line_change_debouncer s;
     blame_text := text;
     armed := armed s;
     timers := timers s |}.

(** Lines 413 to 419: the answer of the blame command arrives, [blamed]
    being its lines, or nothing when there is no output to show.
    [relative] stands for
    [relative_time.from(new Date(Number(t) * 1000))].  The hash is assigned
    before the second and the fourth line are read. *)
Definition show_blame (relative : string -> Async.outcome string) (s : status)
    (blamed : option (list string)) : status * Async.outcome unit :=
  match blamed with
  | None => (hide_blame s, Async.Ok tt)
  | Some [] =>
      (s, Async.Thrown (TypeError "Cannot read properties of undefined (reading 'slice')"))
  | Some (l0 :: rest) =>
      let s1 := with_hash s (take 40 l0) in
      match rest with
      | l1 :: _ :: l3 :: _ =>
          match relative (drop 12 l3) with
          | Async.Ok time =>
              (with_text s1 ("$(git-commit) " +:+ drop 7 l1 +:+ ", " +:+ time), Async.Ok tt)
          | Async.Thrown x => (s1, Async.Thrown x)
          end
      | _ =>
          (s1, Async.Thrown
                 (TypeError "Cannot read properties of undefined (reading 'slice')"))
      end
  end.

(** What happens to the status bar item, one thing at a time: a document
    is closed or the active editor changes; the selection changes; a timer
    runs; the answers that a running callback waits for arrive. *)
Inductive happening : Type :=
| Hidden
| Selected (sel : selection)
| Fired (t : nat)
| RepoIndex (index : Z)
| Blamed (blamed : option (list string)).

Definition step (relative : string -> Async.outcome string) (s : status) (h : happening)
    : status :=
  match h with
  | Hidden => hide_blame s
  | Selected sel => on_selection s sel
  | Fired t => fire s t
  | RepoIndex index => on_repo_index s index
  | Blamed blamed => fst (show_blame relative s blamed)
  end.

Definition steps (relative : string -> Async.outcome string) (s : status)
    (hs : list happening) : status :=
  fold_left (step relative) hs s.

(** At most one timer is armed, and it is the one that
    [line_change_debouncer] holds. *)
Definition debounced (s : status) : Prop :=
  armed s = [] \/ exists t, armed s = [t] /\ line_change_debouncer s = Some t.

(** The first four lines of the output of [git blame --porcelain] for one
    line, followed by [more]. *)
Definition porcelain (hash rest name mail time more : string) : string :=
  hash +:+ " " +:+ rest +:+ String lf
    ("author " +:+ name +:+ String lf
       ("author-mail " +:+ mail +:+ String lf
          ("author-time " +:+ time +:+ String lf more))).

(** A sample hash, and a sample rendering of the time. *)
Definition sample_hash : string := "0123456789abcdef0123456789abcdef01234567".

Definition sample_relative (t : string) : Async.outcome string := Async.Ok ("at " +:+ t).

End Blame.

(** ** The command of the blame item (lines 422 to 432) *)

Module BlameCommand.
Import Async Host Channel StateStore.
Open Scope task_scope.

Definition START_CMD : string := EXT_ID +:+ ".start".

Section Command.

Variable element_text : value -> value -> string.
Variable Number : value -> value.

(** [s.trim()]. *)
Variable trim : string -> string.

(** The callback of [BLAME_CMD], for what [current_line_long_hash] and
    [current_line_repo_index] hold when it is called.  Between the answer of
    [rev-parse] and the calls that follow it, line 428 empties
    [current_line_long_hash]; this assignment leaves no trace. *)
Definition blame_line (current_line_long_hash : string) (current_line_repo_index : Z)
    : task value :=
  intercept_errors
    (Log "logger.info" (VStr "blame cmd")
       (if String.eqb current_line_long_hash EmptyString then Return VUndefined
        else
          let! selected :=
            state_set element_text Number (VStr "selected-repo-index")
              (VNum current_line_repo_index) VUndefined in
          let! out := await (git_run (VStr ("rev-parse --short " +:+ current_line_long_hash))) in
          let! stored :=
            state_set element_text Number (VStr "repo:selected-commits-hashes")
              (VArr [VStr (trim out)]) VUndefined in
          let! started := await (extern "vscode.commands.executeCommand" [VStr START_CMD]) in
          push_message_id "scroll-to-selected-commit")).

End Command.

(** The message that [push_message_id(name)] posts. *)
Definition push_of (name : string) : BridgeMessage :=
  {| type := "push-to-web"; id := VStr name; command := VUndefined;
     data := VUndefined; error := VUndefined; chunk := VUndefined;
     total_chunks := VUndefined |}.

Definition sample_trim (s : string) : string := s.

End BlameCommand.

(** * Theorems *)

(** ** Running composed tasks *)

Module AsyncFacts.
Import Async.

Lemma run_bind {A B : Type} (e : env) (t : task A) (f : A -> task B) :
  forall hist,
    run e hist (bind t f) =
    let '(tr, r) := run e hist t in
    match r with
    | Ok a => let '(tr', r') := run e (hist ++ tr) (f a) in (tr ++ tr', r')
    | Thrown x => (tr, Thrown x)
    end.
Proof.
  induction t as [a | x | C ev k IH | items k IH | section key k IH | channel x k IHk];
    intros hist; simpl.
  - rewrite app_nil_r. by destruct (run e hist (f a)).
  - done.
  - rewrite IH. destruct (run e (hist ++ [_]) (k _)) as [tr [a | x]]; simpl; [|done].
    rewrite <- app_assoc. simpl. by destruct (run e _ (f a)).
  - destruct (run_all e hist items) as [tr1 r]. rewrite IH.
    destruct (run e _ (k r)) as [tr2 [a | x]]; simpl; [|done].
    rewrite <- !app_assoc. destruct (run e _ (f a)) as [tr3 r3].
    by rewrite <- !app_assoc.
  - rewrite IH. destruct (run e (hist ++ [_]) (k _)) as [tr [a | x]]; simpl; [|done].
    rewrite <- app_assoc. simpl. by destruct (run e _ (f a)).
  - rewrite IHk. destruct (run e (hist ++ [_]) k) as [tr [a | y]]; simpl; [|done].
    rewrite <- app_assoc. simpl. by destruct (run e _ (f a)).
Qed.

Lemma run_try_catch {A : Type} (e : env) (t : task A) (handler : value -> task A) :
  forall hist,
    run e hist (try_catch t handler) =
    let '(tr, r) := run e hist t in
    match r with
    | Ok a => (tr, Ok a)
    | Thrown x => let '(tr', r') := run e (hist ++ tr) (handler x) in (tr ++ tr', r')
    end.
Proof.
  induction t as [a | x | C ev k IH | items k IH | section key k IH | channel x k IHk];
    intros hist; simpl.
  - done.
  - rewrite app_nil_r. by destruct (run e hist (handler x)).
  - rewrite IH. destruct (run e (hist ++ [_]) (k _)) as [tr [a | x]]; simpl; [done|].
    rewrite <- app_assoc. simpl. by destruct (run e _ (handler x)).
  - destruct (run_all e hist items) as [tr1 r]. rewrite IH.
    destruct (run e _ (k r)) as [tr2 [a | x]]; simpl; [done|].
    rewrite <- !app_assoc. destruct (run e _ (handler x)) as [tr3 r3].
    by rewrite <- !app_assoc.
  - rewrite IH. destruct (run e (hist ++ [_]) (k _)) as [tr [a | x]]; simpl; [done|].
    rewrite <- app_assoc. simpl. by destruct (run e _ (handler x)).
  - rewrite IHk. destruct (run e (hist ++ [_]) k) as [tr [a | y]]; simpl; [done|].
    rewrite <- app_assoc. simpl. by destruct (run e _ (handler y)).
Qed.

Lemma run_await {B : Type} (e : env) (ev : event B) hist :
  run e hist (await ev) =
  ([observe ev (answer e B hist ev)], answer e B hist ev).
Proof.
  unfold await. simpl. by destruct (answer e B hist ev).
Qed.

Lemma run_pair {A : Type} (e : env) (hist : list obs) (t : task A) :
  run e hist t = (fst (run e hist t), snd (run e hist t)).
Proof. by destruct (run e hist t). Qed.

End AsyncFacts.

(** ** [Promise.all] *)

Module PromiseAll.
Import Async.

Lemma start_all_obs (items : list par_item) :
  forall slot o, o ∈ start_all slot items -> exists i cmd, o = ObsStart i cmd.
Proof.
  induction items as [|[cmd catch | s] items IH]; intros slot o; simpl.
  - by intros ?%elem_of_nil.
  - intros [-> | Hin]%elem_of_cons; eauto.
  - eauto.
Qed.

Lemma start_all_lookup (items : list par_item) :
  forall slot i cmd,
    ObsStart i cmd ∈ start_all slot items ->
    exists catch, slot <= i /\ items !! (i - slot) = Some (PGit cmd catch).
Proof.
  induction items as [|[c catch | s] items IH]; intros slot i cmd; simpl.
  - by intros ?%elem_of_nil.
  - intros [Heq | Hin]%elem_of_cons.
    + injection Heq as -> ->. exists catch. split; [lia|].
      by replace (slot - slot) with 0 by lia.
    + destruct (IH _ _ _ Hin) as (catch' & Hle & Hl). exists catch'. split; [lia|].
      by replace (i - slot) with (S (i - S slot)) by lia.
  - intros Hin. destruct (IH _ _ _ Hin) as (catch' & Hle & Hl). exists catch'.
    split; [lia|]. by replace (i - slot) with (S (i - S slot)) by lia.
Qed.

(** What a run of [settle_all] over distinct slots leaves behind. *)
Lemma settle_all_sound (e : env) (items : list par_item) :
  forall order hist results tr res,
    NoDup order ->
    List.length results = List.length items ->
    settle_all e hist items order results = (tr, res) ->
    (forall o, o ∈ tr -> exists i cmd r, o = ObsSettle i cmd r) /\
    match res with
    | Ok vs =>
        List.length vs = List.length items /\
        (forall i, i ∉ order -> vs !! i = results !! i) /\
        (forall i s, items !! i = Some (PValue s) -> vs !! i = results !! i) /\
        (forall i cmd catch, i ∈ order -> items !! i = Some (PGit cmd catch) ->
           exists r v, ObsSettle i cmd r ∈ tr /\ vs !! i = Some v /\ settles_to catch r v) /\
        (forall i cmd r, ObsSettle i cmd r ∈ tr ->
           exists catch v, items !! i = Some (PGit cmd catch) /\ vs !! i = Some v
                           /\ settles_to catch r v)
    | Thrown x =>
        exists i cmd, items !! i = Some (PGit cmd None) /\ ObsSettle i cmd (Thrown x) ∈ tr
    end.
Proof.
  induction order as [|i order IH]; intros hist results tr res Hnd Hlen Hrun; simpl in Hrun.
  - injection Hrun as <- <-. split; [by intros o ?%elem_of_nil|].
    repeat split; try done.
    + by intros i cmd catch ?%elem_of_nil.
    + by intros i cmd r ?%elem_of_nil.
  - apply NoDup_cons in Hnd as [Hi Hnd].
    destruct (items !! i) as [[cmd catch | s]|] eqn:Hit.
    + assert (Hlt : i < List.length results).
      { rewrite Hlen. by eapply lookup_lt_Some. }
      set (r := answer e string hist (git_run (VStr cmd))) in *.
      assert (Hcont : forall v, settles_to catch r v ->
        forall tr' res',
          settle_all e (hist ++ [ObsSettle i cmd r]) items order (<[i:=v]> results) = (tr', res') ->
          tr = ObsSettle i cmd r :: tr' -> res = res' ->
          (forall o, o ∈ tr -> exists i cmd r, o = ObsSettle i cmd r) /\
          match res with
          | Ok vs =>
              List.length vs = List.length items /\
              (forall j, j ∉ i :: order -> vs !! j = results !! j) /\
              (forall j s, items !! j = Some (PValue s) -> vs !! j = results !! j) /\
              (forall j cmd catch, j ∈ i :: order -> items !! j = Some (PGit cmd catch) ->
                 exists r v, ObsSettle j cmd r ∈ tr /\ vs !! j = Some v /\ settles_to catch r v) /\
              (forall j cmd r, ObsSettle j cmd r ∈ tr ->
                 exists catch v, items !! j = Some (PGit cmd catch) /\ vs !! j = Some v
                                 /\ settles_to catch r v)
          | Thrown x =>
              exists j cmd, items !! j = Some (PGit cmd None) /\ ObsSettle j cmd (Thrown x) ∈ tr
          end).
      { intros v Hv tr' res' Hrec -> ->.
        apply IH in Hrec as [Hobs Hres]; [|done|by rewrite length_insert].
        split.
        { intros o [-> | Hin]%elem_of_cons; eauto. }
        destruct res' as [vs | x].
        - destruct Hres as (Hl & Hout & Hval & Hfwd & Hbwd).
          assert (Hvi : vs !! i = Some v).
          { rewrite (Hout i Hi). by apply list_lookup_insert_eq. }
          split; [done|]. split; [|split; [|split]].
          + intros j Hj. apply not_elem_of_cons in Hj as [Hne Hj].
            rewrite (Hout j Hj). by apply list_lookup_insert_ne.
          + intros j s Hj. rewrite (Hval j s Hj). apply list_lookup_insert_ne.
            intros ->. congruence.
          + intros j c ct [-> | Hj]%elem_of_cons Hitj.
            * assert (c = cmd /\ ct = catch) as [-> ->] by (split; congruence).
              exists r, v. split; [apply list_elem_of_here | done].
            * destruct (Hfwd j c ct Hj Hitj) as (r' & v' & Hin & ? & ?).
              exists r', v'. split; [by apply list_elem_of_further | done].
          + intros j c r' [Heq | Hin]%elem_of_cons.
            * injection Heq as -> -> ->. by exists catch, v.
            * by apply Hbwd.
        - destruct Hres as (j & c & Hitj & Hin). exists j, c.
          split; [done | by apply list_elem_of_further]. }
      fold r in Hrun. destruct r as [v | x] eqn:Hr.
      * destruct (settle_all e _ items order (<[i:=v]> results)) as [tr' res'] eqn:Hrec.
        injection Hrun as <- <-. eapply (Hcont v); [by left | done..].
      * destruct catch as [v|].
        -- destruct (settle_all e _ items order (<[i:=v]> results)) as [tr' res'] eqn:Hrec.
           injection Hrun as <- <-. eapply (Hcont v); [right; eauto | done..].
        -- injection Hrun as <- <-. split.
           { intros o ->%list_elem_of_singleton. eauto. }
           exists i, cmd. split; [done | apply list_elem_of_here].
    + apply IH in Hrun as [Hobs Hres]; [|done..]. split; [done|].
      destruct res as [vs | x]; [|done].
      destruct Hres as (Hl & Hout & Hval & Hfwd & Hbwd).
      split; [done|]. split; [|split; [|split]]; try done.
      * intros j Hj. apply not_elem_of_cons in Hj as [_ Hj]. by apply Hout.
      * intros j c ct [-> | Hj]%elem_of_cons Hitj; [congruence | eauto].
    + apply IH in Hrun as [Hobs Hres]; [|done..]. split; [done|].
      destruct res as [vs | x]; [|done].
      destruct Hres as (Hl & Hout & Hval & Hfwd & Hbwd).
      split; [done|]. split; [|split; [|split]]; try done.
      * intros j Hj. apply not_elem_of_cons in Hj as [_ Hj]. by apply Hout.
      * intros j c ct [-> | Hj]%elem_of_cons Hitj; [congruence | eauto].
Qed.

Lemma settle_order_NoDup (sched : list nat) (n : nat) : NoDup (settle_order sched n).
Proof. unfold settle_order. rewrite reverse_Permutation. apply NoDup_remove_dups. Qed.

Lemma settle_order_complete (sched : list nat) (n i : nat) :
  i < n -> i ∈ settle_order sched n.
Proof.
  intros Hi. unfold settle_order.
  rewrite elem_of_reverse, elem_of_remove_dups, elem_of_reverse, elem_of_app.
  right. apply elem_of_seq. lia.
Qed.

Lemma initial_results_length (items : list par_item) :
  List.length (initial_results items) = List.length items.
Proof. unfold initial_results. by rewrite length_map. Qed.

Lemma initial_results_value (items : list par_item) (i : nat) (s : string) :
  items !! i = Some (PValue s) -> initial_results items !! i = Some s.
Proof.
  intros Hi. unfold initial_results.
  change (map ?f items) with (f <$> items). by rewrite list_lookup_fmap, Hi.
Qed.

(** What [await Promise.all(items)] leaves behind: the promises are started,
    then they settle; when it is fulfilled, every element has contributed
    its text, and when it is rejected, one promise without [.catch] was. *)
Lemma run_all_sound (e : env) (hist : list obs) (items : list par_item) tr res :
  run_all e hist items = (tr, res) ->
  (forall o, o ∈ tr ->
     (exists i cmd, o = ObsStart i cmd) \/ (exists i cmd r, o = ObsSettle i cmd r)) /\
  (forall i cmd, ObsStart i cmd ∈ tr -> exists catch, items !! i = Some (PGit cmd catch)) /\
  match res with
  | Ok vs =>
      List.length vs = List.length items /\
      (forall i s, items !! i = Some (PValue s) -> vs !! i = Some s) /\
      (forall i cmd catch, items !! i = Some (PGit cmd catch) ->
         exists r v, ObsSettle i cmd r ∈ tr /\ vs !! i = Some v /\ settles_to catch r v) /\
      (forall i cmd r, ObsSettle i cmd r ∈ tr ->
         exists catch v, items !! i = Some (PGit cmd catch) /\ vs !! i = Some v
                         /\ settles_to catch r v)
  | Thrown x =>
      exists i cmd, items !! i = Some (PGit cmd None) /\ ObsSettle i cmd (Thrown x) ∈ tr
  end.
Proof.
  unfold run_all. intros Hrun.
  destruct (settle_all e _ items _ _) as [tr' res'] eqn:Hs.
  injection Hrun as <- <-.
  apply settle_all_sound in Hs as [Hobs Hres];
    [|apply settle_order_NoDup|apply initial_results_length].
  assert (Hno : forall i cmd r, ObsSettle i cmd r ∉ start_all 0 items).
  { intros i cmd r Hin. apply start_all_obs in Hin as (? & ? & ?). discriminate. }
  split; [|split].
  - intros o [Hin | Hin]%elem_of_app.
    + left. by eapply start_all_obs.
    + right. by apply Hobs.
  - intros i cmd [Hin | Hin]%elem_of_app.
    + apply start_all_lookup in Hin as (catch & _ & Hl).
      exists catch. by rewrite Nat.sub_0_r in Hl.
    + apply Hobs in Hin as (? & ? & ? & ?). discriminate.
  - destruct res' as [vs | x].
    + destruct Hres as (Hl & Hout & Hval & Hfwd & Hbwd).
      split; [done|]. split; [|split].
      * intros i s Hi. rewrite (Hval i s Hi). by apply initial_results_value.
      * intros i cmd catch Hi.
        destruct (Hfwd i cmd catch) as (r & v & Hin & ? & ?); [|done|].
        { apply settle_order_complete. by eapply lookup_lt_Some. }
        exists r, v. split; [|done]. apply elem_of_app. by right.
      * intros i cmd r [Hin | Hin]%elem_of_app; [by apply Hno in Hin | by apply Hbwd].
    + destruct Hres as (i & cmd & Hi & Hin). exists i, cmd.
      split; [done|]. apply elem_of_app. by right.
Qed.

End PromiseAll.

(** ** The [git-log] request handler *)

Module GitLogFacts.
Import Str Async Host AsyncFacts PromiseAll.

Lemma git_log_items_length args stash_refs fb :
  List.length (git_log_items args stash_refs fb) = 3.
Proof. done. Qed.

Lemma run_stash_refs (e : env) (hist : list obs) (fsr : value) pre r :
  run e hist (git_log_stash_refs fsr) = (pre, r) ->
  (truthy fsr = false /\ pre = [] /\ r = Ok EmptyString) \/
  (truthy fsr = true /\ pre = [ObsGit (VStr stash_refs_command) r]
   /\ r = answer e string hist (git_run (VStr stash_refs_command))).
Proof.
  unfold git_log_stash_refs. destruct (truthy fsr).
  - rewrite run_await. simpl. intros [= <- <-]. by right.
  - simpl. intros [= <- <-]. by left.
Qed.

(** Every run of the handler is of one of the shapes of [git_log_run], or
    the request data was not of the expected form and nothing was run. *)
Lemma run_git_log_shape (e : env) (hist : list obs) (d : value) tr res :
  run e hist (git_log d) = (tr, res) ->
  (tr = [] /\ exists what, res = Thrown (TypeError what)) \/
  (exists args fsr fb,
     get_prop d "args" = Some (VStr args) /\
     get_prop d "fetch_stash_refs" = Some fsr /\
     get_prop d "fetch_branches" = Some fb /\
     git_log_run e hist args fsr fb tr res).
Proof.
  unfold git_log.
  destruct (get_prop d "args") as [[| | | |args| |]|] eqn:Ha;
    try (simpl; intros [= <- <-]; left; eauto; fail).
  destruct (get_prop d "fetch_stash_refs") as [fsr|] eqn:Hs;
    [|simpl; intros [= <- <-]; left; eauto].
  destruct (get_prop d "fetch_branches") as [fb|] eqn:Hb;
    [|simpl; intros [= <- <-]; left; eauto].
  intros Hrun. right. exists args, fsr, fb. repeat (split; [done|]).
  rewrite run_bind in Hrun.
  destruct (run e hist (git_log_stash_refs fsr)) as [pre [stash_refs | x]] eqn:Hpre.
  - cbn [run] in Hrun.
    destruct (run_all e (hist ++ pre) (git_log_items args stash_refs fb))
      as [tr1 [vs | x]] eqn:Hall.
    + pose proof (run_all_sound _ _ _ _ _ Hall) as (_ & _ & Hlen & _).
      rewrite git_log_items_length in Hlen.
      destruct vs as [|l [|b [|s [|? ?]]]]; try discriminate Hlen.
      unfold git_log_joined in Hrun.
      destruct (String.eqb l EmptyString) eqn:Hl; cbn [negb] in Hrun.
      * apply String.eqb_eq in Hl as ->. simpl in Hrun. injection Hrun as <- <-.
        by eapply run_empty.
      * apply String.eqb_neq in Hl. cbn [run] in Hrun. rewrite run_await in Hrun.
        simpl in Hrun. injection Hrun as <- <-.
        rewrite <- app_assoc. simpl. by eapply run_parsed.
    + simpl in Hrun. injection Hrun as <- <-. rewrite !app_nil_r.
      by eapply run_rejected.
  - injection Hrun as <- <-.
    apply run_stash_refs in Hpre as [(_ & _ & [=]) | (Ht & -> & Hx)].
    by apply run_refs_failed.
Qed.

Lemma stash_refs_obs (e : env) (hist : list obs) (fsr : value) pre r o :
  run e hist (git_log_stash_refs fsr) = (pre, r) -> o ∈ pre -> exists a q, o = ObsGit a q.
Proof.
  intros [(_ & -> & _) | (_ & -> & _)]%run_stash_refs Hin.
  - by apply elem_of_nil in Hin.
  - apply list_elem_of_singleton in Hin. eauto.
Qed.

Lemma parse_calls_quiet (tr : list obs) : Forall quiet tr -> parse_calls tr = [].
Proof.
  induction 1 as [|o tr Ho _ IH]; [done|].
  destruct o; try (by destruct Ho); exact IH.
Qed.

Lemma parse_calls_app (tr1 tr2 : list obs) :
  parse_calls (tr1 ++ tr2) = parse_calls tr1 ++ parse_calls tr2.
Proof. apply omap_app. Qed.

Lemma run_all_quiet (e : env) hist items tr res :
  run_all e hist items = (tr, res) -> Forall quiet tr.
Proof.
  intros (Hobs & _)%run_all_sound. apply Forall_forall. intros o Ho.
  destruct (Hobs o Ho) as [(? & ? & ->) | (? & ? & ? & ->)]; exact I.
Qed.

Lemma stash_refs_quiet (e : env) hist fsr pre r :
  run e hist (git_log_stash_refs fsr) = (pre, r) -> Forall quiet pre.
Proof.
  intros Hrun. apply Forall_forall. intros o Ho.
  destruct (stash_refs_obs _ _ _ _ _ _ Hrun Ho) as (? & ? & ->). exact I.
Qed.

Lemma quiet_not_join (tr : list obs) vs : Forall quiet tr -> ObsJoin vs ∉ tr.
Proof. intros Hq Hin. by apply (proj1 (Forall_forall _ _) Hq) in Hin. Qed.

Lemma quiet_not_parse (tr : list obs) i l b s sp rad r :
  Forall quiet tr -> tr !! i <> Some (ObsParse l b s sp rad r).
Proof.
  intros Hq Hl. apply list_elem_of_lookup_2 in Hl.
  by apply (proj1 (Forall_forall _ _) Hq) in Hl.
Qed.

(** The texts of the three slots of a fulfilled [Promise.all] of the
    handler, traced back to the settlements of the commands. *)
Lemma joined_inputs (e : env) hist args stash_refs fb tr1 l b s :
  run_all e hist (git_log_items args stash_refs fb) = (tr1, Ok [l; b; s]) ->
  ObsSettle 0 (log_command args stash_refs) (Ok l) ∈ tr1 /\
  (ObsSettle 1 (branch_command sep) (Ok b) ∈ tr1 \/ truthy fb = false /\ b = EmptyString) /\
  (exists r, ObsSettle 2 stash_command r ∈ tr1 /\ settles_to (Some EmptyString) r s) /\
  (forall x, ObsSettle 2 stash_command (Thrown x) ∈ tr1 -> s = EmptyString).
Proof.
  intros (_ & _ & _ & Hval & Hfwd & Hbwd)%run_all_sound.
  split; [|split; [|split]].
  - destruct (Hfwd 0 _ None eq_refl) as (r & v & Hin & [= <-] & [-> | [_ [=]]]). done.
  - unfold git_log_items in *. destruct (truthy fb).
    + destruct (Hfwd 1 _ None eq_refl) as (r & v & Hin & [= <-] & [-> | [_ [=]]]).
      by left.
    + right. split; [done|]. by specialize (Hval 1 _ eq_refl) as [= ->].
  - destruct (Hfwd 2 _ (Some EmptyString) eq_refl) as (r & v & Hin & [= <-] & Hs).
    by exists r.
  - intros x Hin. destruct (Hbwd _ _ _ Hin) as (catch & v & Hit & [= <-] & Hs).
    injection Hit as <-. by destruct Hs as [[=] | [_ [= ->]]].
Qed.

Lemma rejected_slot (e : env) hist args stash_refs fb tr1 x :
  run_all e hist (git_log_items args stash_refs fb) = (tr1, Thrown x) ->
  exists slot cmd, slot <> 2 /\ ObsSettle slot cmd (Thrown x) ∈ tr1.
Proof.
  intros (_ & _ & i & cmd & Hit & Hin)%run_all_sound. exists i, cmd. split; [|done].
  intros ->. discriminate Hit.
Qed.

End GitLogFacts.

Module HelperFacts.
Import Str Async Host AsyncFacts PromiseAll GitLogFacts.

Lemma posts_app (tr1 tr2 : list obs) : posts (tr1 ++ tr2) = posts tr1 ++ posts tr2.
Proof. apply omap_app. Qed.

Lemma posts_cons (o : obs) (tr : list obs) : posts (o :: tr) = posts [o] ++ posts tr.
Proof. apply (posts_app [o] tr). Qed.

Lemma posts_quiet (tr : list obs) : Forall quiet tr -> posts tr = [].
Proof.
  induction 1 as [|o tr Ho _ IH]; [done|].
  destruct o; try (by destruct Ho); exact IH.
Qed.

Lemma run_post (e : env) (hist : list obs) (m : BridgeMessage) :
  run e hist (let! posted := await (post_message m) in Return VUndefined) =
  let a := answer e value hist (post_message m) in
  ([ObsPost m a], match a with Ok _ => Ok VUndefined | Thrown x => Thrown x end).
Proof.
  rewrite run_bind, run_await. simpl.
  by destruct (answer e value hist (post_message m)).
Qed.

(** Every run of [h]: the function runs; on a return the response is
    posted; on a throw the error is logged and, unless reading its
    [message] fails, the response is posted. *)
Lemma run_h (e : env) (hist : list obs) (message : BridgeMessage) (func : task value) :
  run e hist (h message func) =
  let '(tr, r) := run e hist func in
  match r with
  | Ok d =>
      let a := answer e value (hist ++ tr) (post_message (response_ok message d)) in
      (tr ++ [ObsPost (response_ok message d) a],
       match a with Ok _ => Ok VUndefined | Thrown x => Thrown x end)
  | Thrown err =>
      match get_prop err "message" with
      | None =>
          (tr ++ [ObsLog "console.warn" err],
           Thrown (TypeError "Cannot read properties of undefined (reading 'message')"))
      | Some m =>
          let a := answer e value (hist ++ tr ++ [ObsLog "console.warn" err])
                     (post_message (response_error message m err)) in
          (tr ++ [ObsLog "console.warn" err; ObsPost (response_error message m err) a],
           match a with Ok _ => Ok VUndefined | Thrown x => Thrown x end)
      end
  end.
Proof.
  unfold h. rewrite run_bind, run_try_catch, run_bind.
  destruct (run e hist func) as [tr [d | err]]; cbn [run].
  - rewrite !app_nil_r. by rewrite run_post.
  - destruct (get_prop err "message") as [m|]; cbn [run]; [|done].
    rewrite run_post. cbv beta iota zeta. by rewrite <- app_assoc.
Qed.

Lemma git_log_posts_nothing (e : env) (hist : list obs) (d : value) :
  posts (fst (run e hist (git_log d))) = [].
Proof.
  destruct (run e hist (git_log d)) as [tr res] eqn:Hrun. simpl.
  apply run_git_log_shape in Hrun as [[-> _] | (args & fsr & fb & _ & _ & _ & Hshape)];
    [done|].
  destruct Hshape as [x Ht Hx | pre sr tr1 x Hpre Hall | pre sr tr1 b s Hpre Hall
                     | pre sr tr1 l b s rad r Hpre Hall Hl]; [done|..];
    apply stash_refs_quiet in Hpre; apply run_all_quiet in Hall;
    rewrite !posts_app, (posts_quiet pre), (posts_quiet tr1) by done; done.
Qed.

(** What a run posts, for a task whose posts all satisfy [P]. *)
Lemma posts_only_run {A : Type} (P : BridgeMessage -> Prop) (e : env) (t : task A) :
  forall hist, posts_only P t -> Forall P (posts (fst (run e hist t))).
Proof.
  induction t as [a | x | C ev k IH | items k IH | section key k IH | channel x k IHk];
    intros hist Ht; cbn [run].
  - by apply Forall_nil.
  - by apply Forall_nil.
  - destruct Ht as [Hev Hk].
    specialize (IH (answer e C hist ev) (hist ++ [observe ev (answer e C hist ev)])
                  (Hk _)).
    destruct (run e _ (k _)) as [tr res]. cbn [fst] in *. rewrite posts_cons.
    apply Forall_app. split; [|done].
    destruct ev; cbn [observe posts omap list_omap]; try by apply Forall_nil.
    by apply Forall_singleton.
  - destruct (run_all e hist items) as [tr1 r] eqn:Hall.
    specialize (IH r (hist ++ tr1 ++ match r with Ok vs => [ObsJoin vs] | Thrown _ => [] end)
                  (Ht r)).
    destruct (run e _ (k r)) as [tr2 res]. cbn [fst] in *.
    rewrite !posts_app, (posts_quiet tr1) by (by eapply run_all_quiet).
    by destruct r.
  - specialize (IH (configuration e hist section key)
                  (hist ++ [ObsConfig section key (configuration e hist section key)])
                  (Ht _)).
    destruct (run e _ (k _)) as [tr res]. cbn [fst] in *. by rewrite posts_cons.
  - specialize (IHk (hist ++ [ObsLog channel x]) Ht).
    destruct (run e _ k) as [tr res]. cbn [fst] in *. by rewrite posts_cons.
Qed.

Lemma posts_only_bind {A B : Type} (P : BridgeMessage -> Prop) (t : task A)
    (f : A -> task B) :
  posts_only P t -> (forall a, posts_only P (f a)) -> posts_only P (bind t f).
Proof.
  intros Ht Hf.
  induction t as [a | x | C ev k IH | items k IH | section key k IH | channel x k IHk];
    cbn [bind posts_only] in *; try done.
  - destruct Ht as [Hev Hk]. split; [done|]. intros r. by apply IH.
  - intros r. by apply IH.
  - intros v. by apply IH.
  - by apply IHk.
Qed.

Lemma posts_only_extern {P : BridgeMessage -> Prop} (api : string) (args : list value) :
  posts_only P (await (extern api args)).
Proof. split; [done|]. by intros [a | x]. Qed.

Lemma posts_only_post {P : BridgeMessage -> Prop} (m : BridgeMessage) :
  P m -> posts_only P (await (post_message m)).
Proof. intros Hm. split; [done|]. by intros [a | x]. Qed.

Lemma repo_key_silent {P : BridgeMessage -> Prop} (element_text : value -> value -> string)
    (local_key : string) :
  posts_only P (StateStore.repo_key element_text local_key).
Proof.
  unfold StateStore.repo_key, StateStore.get_repo_names, StateStore.workspace_get.
  apply posts_only_bind; [apply posts_only_extern|]. intros names.
  apply posts_only_bind; [apply posts_only_extern|]. intros index.
  by destruct (nullish names).
Qed.

Lemma repo_get_silent {P : BridgeMessage -> Prop} (element_text : value -> value -> string)
    (local_key : string) :
  posts_only P (StateStore.repo_get element_text local_key).
Proof.
  unfold StateStore.repo_get. apply posts_only_bind; [apply repo_key_silent|].
  intros k. apply posts_only_extern.
Qed.

Lemma repo_set_silent {P : BridgeMessage -> Prop} (element_text : value -> value -> string)
    (local_key : string) (v : value) :
  posts_only P (StateStore.repo_set element_text local_key v).
Proof.
  unfold StateStore.repo_set. apply posts_only_bind; [apply repo_key_silent|].
  intros k. apply posts_only_extern.
Qed.

Lemma set_then_broadcast_pushes (memento_set : task value) (key v broadcast : value) :
  posts_only is_state_update memento_set ->
  posts_only is_state_update (StateStore.set_then_broadcast memento_set key v broadcast).
Proof.
  intros Hm. unfold StateStore.set_then_broadcast. apply posts_only_bind; [done|].
  intros stored. destruct (negb _); [|done].
  apply posts_only_bind; [|done]. apply posts_only_post. by exists key, v.
Qed.

(** Reading the state posts nothing. *)
Lemma state_get_silent {P : BridgeMessage -> Prop} (element_text : value -> value -> string)
    (key : value) :
  posts_only P (StateStore.state_get element_text key).
Proof.
  unfold StateStore.state_get.
  destruct (String.eqb _ "selected-repo-index"); [apply posts_only_extern|].
  destruct (String.eqb _ "repo-names"); [apply posts_only_extern|].
  destruct (StateStore.repo_local_key _); [apply repo_get_silent|].
  destruct (bool_decide _); [done | apply posts_only_extern].
Qed.

(** Setting the state posts nothing but pushes that announce a state. *)
Lemma state_set_pushes (element_text : value -> value -> string) (Number : value -> value)
    (key v broadcast : value) :
  posts_only is_state_update (StateStore.state_set element_text Number key v broadcast).
Proof.
  unfold StateStore.state_set. apply set_then_broadcast_pushes.
  unfold StateStore.memento_set.
  destruct (String.eqb _ "selected-repo-index").
  { apply posts_only_bind; [apply posts_only_extern|]. intros stored.
    apply posts_only_bind; [apply posts_only_extern|]. intros selected.
    assert (Hre : forall name local_key,
      posts_only is_state_update (StateStore.reannounce element_text name local_key)).
    { intros name local_key. unfold StateStore.reannounce.
      apply posts_only_bind; [apply repo_get_silent|]. intros w.
      apply set_then_broadcast_pushes, repo_set_silent. }
    apply posts_only_bind; [apply Hre|]. intros first.
    apply posts_only_bind; [apply Hre|]. done. }
  destruct (String.eqb _ "repo-names"); [done|].
  destruct (StateStore.repo_local_key _); [apply repo_set_silent|].
  destruct (bool_decide _); [done | apply posts_only_extern].
Qed.

(** The function of a command posts nothing itself, except that of
    [set-state], which posts pushes that announce a state and nothing
    else. *)
Lemma func_posts_pushes (element_text : value -> value -> string) (Number : value -> value)
    (e : env) (hist : list obs) (cmd : string) (d : value) (func : task value) :
  func_of element_text Number cmd d = Some func ->
  Forall is_state_update (posts (fst (run e hist func))) /\
  (cmd <> "set-state" -> posts (fst (run e hist func)) = []).
Proof.
  unfold func_of. destruct (String.eqb cmd "git").
  { intros [= <-]. simpl. by destruct (answer e string hist (git_run d)). }
  destruct (String.eqb cmd "git-log").
  { intros [= <-]. by rewrite git_log_posts_nothing. }
  destruct (String.eqb cmd "get-state").
  { intros [= <-].
    pose proof (posts_only_run (fun _ => False) e _ hist (state_get_silent element_text d))
      as Hn.
    destruct (posts (fst (run e hist _))) as [|m ms]; [done|].
    by apply Forall_cons in Hn as [[] _]. }
  destruct (String.eqb cmd "set-state") eqn:Hset.
  { intros [= <-]. apply String.eqb_eq in Hset as ->. split; [|done].
    apply posts_only_run. unfold set_state.
    destruct (get_prop d "key"); [|done]. destruct (get_prop d "value"); [|done].
    apply state_set_pushes. }
  destruct (bool_decide _); [|done].
  intros [= <-]. simpl. by destruct (answer e value hist (extern cmd [d])).
Qed.

Lemma run_on_message (element_text : value -> value -> string) (Number : value -> value)
    (e : env) (hist : list obs) (message : BridgeMessage)
    (cmd : string) (func : task value) :
  type message = "request-from-web" ->
  command message = VStr cmd ->
  func_of element_text Number cmd (data message) = Some func ->
  let debug := ObsLog "logger.debug" (VStr "receive from webview") in
  run e hist (on_message element_text Number message) =
  let '(tr, r) := run e (hist ++ [debug]) (h message func) in
  match r with
  | Ok v => (debug :: tr, Ok v)
  | Thrown x =>
      (debug :: tr ++ [ObsLog "logger.error" x;
                       ObsLog "console.error" (VStr "The above error happened inside:")],
       Thrown x)
  end.
Proof.
  intros Ht Hc Hf. unfold on_message, intercept_errors.
  rewrite run_try_catch. cbn [run]. rewrite Ht, Hc, Hf. cbn [String.eqb Ascii.eqb Bool.eqb].
  change (String.eqb "request-from-web" "request-from-web") with true. cbv iota.
  destruct (run e (hist ++ [_]) (h message func)) as [tr [v | x]]; [done|].
  by rewrite app_comm_cons.
Qed.

(** What the callback posts for a request that [h] handles: what the
    function of the command posted, then the response. *)
Lemma on_message_posts (element_text : value -> value -> string) (Number : value -> value)
    (e : env) (hist : list obs) (message : BridgeMessage)
    (cmd : string) (func : task value) :
  type message = "request-from-web" ->
  command message = VStr cmd ->
  func_of element_text Number cmd (data message) = Some func ->
  let debug := ObsLog "logger.debug" (VStr "receive from webview") in
  posts (fst (run e hist (on_message element_text Number message)))
  = posts (fst (run e (hist ++ [debug]) func))
      ++ match snd (run e (hist ++ [debug]) func) with
         | Ok d => [response_ok message d]
         | Thrown err =>
             match get_prop err "message" with
             | Some m => [response_error message m err]
             | None => []
             end
         end.
Proof.
  intros Ht Hc Hf debug. rewrite (run_on_message _ _ _ _ _ _ _ Ht Hc Hf). cbv zeta.
  rewrite run_h. subst debug.
  destruct (run e _ func) as [tr [d | err]]; cbn [fst snd].
  - cbv zeta. destruct (answer e value _ (post_message _)); cbn [fst];
      rewrite posts_cons, ?posts_app; cbn [posts omap list_omap app];
      by rewrite ?app_nil_r.
  - destruct (get_prop err "message") as [m|] eqn:Hm.
    + cbv zeta. destruct (answer e value _ (post_message _)); cbn [fst];
        rewrite posts_cons, ?posts_app; cbn [posts omap list_omap app];
        by rewrite ?app_nil_r.
    + cbn [fst]. rewrite posts_cons, !posts_app. cbn [posts omap list_omap app].
      by rewrite ?app_nil_r.
Qed.

End HelperFacts.

(** ** What the [git-log] handler does *)

Module GitLogProps.
Import Str Async Host AsyncFacts PromiseAll GitLogFacts HelperFacts Scenario.

(** C1. In the [git-log] handler, when the text joined for the
    history-listing command is empty, the handler returns
    [{ commits: [], refs: [] }] and [parse] has not been called. *)
Theorem empty_log_returns_without_parse (e : env) (hist : list obs) (d : value)
    (tr : list obs) (res : outcome value) (b s : string) :
  run e hist (git_log d) = (tr, res) ->
  ObsJoin [EmptyString; b; s] ∈ tr ->
  res = Ok empty_parsed /\ parse_calls tr = [].
Proof.
  intros [[-> _] | (args & fsr & fb & _ & _ & _ & Hshape)]%run_git_log_shape Hjoin.
  { by apply elem_of_nil in Hjoin. }
  destruct Hshape as [x Ht Hx | pre sr tr1 x Hpre Hall | pre sr tr1 b' s' Hpre Hall
                     | pre sr tr1 l b' s' rad r Hpre Hall Hl].
  - apply list_elem_of_singleton in Hjoin. discriminate.
  - apply stash_refs_quiet in Hpre. apply run_all_quiet in Hall.
    apply elem_of_app in Hjoin as [Hin | Hin]; by eapply quiet_not_join in Hin.
  - split; [done|]. apply stash_refs_quiet in Hpre. apply run_all_quiet in Hall.
    rewrite !parse_calls_app, (parse_calls_quiet pre), (parse_calls_quiet tr1) by done.
    done.
  - apply stash_refs_quiet in Hpre. apply run_all_quiet in Hall.
    apply elem_of_app in Hjoin as [Hin | Hin]; [by eapply quiet_not_join in Hin|].
    apply elem_of_app in Hin as [Hin | Hin]; [by eapply quiet_not_join in Hin|].
    apply elem_of_cons in Hin as [Heq | Hin]; [by injection Heq as <- <- <-|].
    apply elem_of_cons in Hin as [Heq | Hin]; [discriminate|].
    apply list_elem_of_singleton in Hin. discriminate.
Qed.

Lemma empty_log_returns_without_parse_witness :
  ObsJoin [EmptyString; EmptyString; EmptyString]
    ∈ fst (run empty_repository [] (git_log request_data)) /\
  snd (run empty_repository [] (git_log request_data)) = Ok empty_parsed /\
  parse_calls (fst (run empty_repository [] (git_log request_data))) = [].
Proof.
  assert (Hjoin : ObsJoin [EmptyString; EmptyString; EmptyString]
                    ∈ fst (run empty_repository [] (git_log request_data))).
  { vm_compute. repeat constructor. }
  split; [exact Hjoin|].
  exact (empty_log_returns_without_parse empty_repository [] request_data _ _ _ _
           (run_pair _ _ _) Hjoin).
Defined.

(** C6. When the joined log text is not empty, the handler calls [parse]
    once, with the log text, the branch text, the stash text, the separator
    and the configured curve radius, in this order, and its settlement is
    that of [parse], unchanged; what [parse] returned is the data of the
    response that [h] posts. *)
Theorem nonempty_log_is_parsed (e : env) (hist : list obs) (d : value)
    (tr : list obs) (res : outcome value) (l b s : string) :
  run e hist (git_log d) = (tr, res) ->
  ObsJoin [l; b; s] ∈ tr ->
  l <> EmptyString ->
  exists curve_radius,
    ObsConfig EXT_ID "curve-radius" curve_radius ∈ tr /\
    parse_calls tr = [(l, b, s, "^%^%^%^%^", curve_radius, res)] /\
    forall (message : BridgeMessage) (parsed : value),
      res = Ok parsed ->
      posts (fst (run e hist (h message (git_log d)))) = [response_ok message parsed].
Proof.
  intros Hrun Hjoin Hne.
  assert (Hpost : forall (message : BridgeMessage) (parsed : value),
    res = Ok parsed ->
    posts (fst (run e hist (h message (git_log d)))) = [response_ok message parsed]).
  { intros message parsed ->. pose proof (git_log_posts_nothing e hist d) as Hq.
    rewrite run_h. rewrite Hrun in *. simpl in Hq. cbv zeta.
    destruct (answer e value _ (post_message _)); cbn [fst];
      rewrite posts_app, Hq; done. }
  revert Hrun Hjoin Hne.
  intros [[-> _] | (args & fsr & fb & _ & _ & _ & Hshape)]%run_git_log_shape Hjoin Hne.
  { by apply elem_of_nil in Hjoin. }
  destruct Hshape as [x Ht Hx | pre sr tr1 x Hpre Hall | pre sr tr1 b' s' Hpre Hall
                     | pre sr tr1 l' b' s' rad r Hpre Hall Hl].
  - apply list_elem_of_singleton in Hjoin. discriminate.
  - apply stash_refs_quiet in Hpre. apply run_all_quiet in Hall.
    apply elem_of_app in Hjoin as [Hin | Hin]; by eapply quiet_not_join in Hin.
  - apply stash_refs_quiet in Hpre. apply run_all_quiet in Hall.
    apply elem_of_app in Hjoin as [Hin | Hin]; [by eapply quiet_not_join in Hin|].
    apply elem_of_app in Hin as [Hin | Hin]; [by eapply quiet_not_join in Hin|].
    apply list_elem_of_singleton in Hin. by injection Hin as -> _ _.
  - apply stash_refs_quiet in Hpre. apply run_all_quiet in Hall.
    apply elem_of_app in Hjoin as [Hin | Hin]; [by eapply quiet_not_join in Hin|].
    apply elem_of_app in Hin as [Hin | Hin]; [by eapply quiet_not_join in Hin|].
    assert (l = l' /\ b = b' /\ s = s') as (-> & -> & ->).
    { apply elem_of_cons in Hin as [Heq | Hin]; [by injection Heq as -> -> ->|].
      apply elem_of_cons in Hin as [Heq | Hin]; [discriminate|].
      apply list_elem_of_singleton in Hin. discriminate. }
    exists rad. split; [|split; [|done]].
    + rewrite !elem_of_app. right. right. apply list_elem_of_further, list_elem_of_here.
    + rewrite !parse_calls_app, (parse_calls_quiet pre), (parse_calls_quiet tr1) by done.
      done.
Qed.

Lemma nonempty_log_is_parsed_witness :
  ObsJoin [one_commit_log; "^%^%^%^%^refs/heads/main"; EmptyString]
    ∈ fst (run one_commit [] (git_log request_data)) /\
  one_commit_log <> EmptyString /\
  exists curve_radius,
    ObsConfig EXT_ID "curve-radius" curve_radius
      ∈ fst (run one_commit [] (git_log request_data)) /\
    parse_calls (fst (run one_commit [] (git_log request_data)))
    = [(one_commit_log, "^%^%^%^%^refs/heads/main", EmptyString, "^%^%^%^%^", curve_radius,
        snd (run one_commit [] (git_log request_data)))] /\
    forall (message : BridgeMessage) (parsed : value),
      snd (run one_commit [] (git_log request_data)) = Ok parsed ->
      posts (fst (run one_commit [] (h message (git_log request_data))))
      = [response_ok message parsed].
Proof.
  assert (Hjoin : ObsJoin [one_commit_log; "^%^%^%^%^refs/heads/main"; EmptyString]
                    ∈ fst (run one_commit [] (git_log request_data))).
  { vm_compute. repeat constructor. }
  assert (Hne : one_commit_log <> EmptyString) by discriminate.
  split; [exact Hjoin|]. split; [exact Hne|].
  exact (nonempty_log_is_parsed one_commit [] request_data _ _ _ _ _
           (run_pair _ _ _) Hjoin Hne).
Defined.

Lemma position_in_middle (pre tr1 rest : list obs) (o : obs) :
  o ∈ tr1 ->
  exists k, k < List.length pre + List.length tr1 /\ (pre ++ tr1 ++ rest) !! k = Some o.
Proof.
  intros (k & Hk)%list_elem_of_lookup_1. exists (List.length pre + k).
  pose proof (lookup_lt_Some _ _ _ Hk). split; [lia|].
  rewrite lookup_app_r by lia. rewrite lookup_app_l by lia.
  by replace (List.length pre + k - List.length pre) with k by lia.
Qed.

(** C4. In every run of the [git-log] handler, a call of [parse] comes
    after the join of the [Promise.all], and before that join the three
    texts it is given have been obtained: the log text and the branch text
    are what their commands settled with (the branch text is the empty
    string when no branches were asked for), and the stash text is what the
    stash command settled with, or the empty string when it failed. *)
Theorem parse_only_after_join (e : env) (hist : list obs) (d : value)
    (tr : list obs) (res : outcome value) (i : nat)
    (l b s sp : string) (rad : value) (r : outcome value) :
  run e hist (git_log d) = (tr, res) ->
  tr !! i = Some (ObsParse l b s sp rad r) ->
  exists j,
    j < i /\ tr !! j = Some (ObsJoin [l; b; s]) /\
    (exists k cmd, k < j /\ tr !! k = Some (ObsSettle 0 cmd (Ok l))) /\
    ((exists k cmd, k < j /\ tr !! k = Some (ObsSettle 1 cmd (Ok b)))
     \/ (exists fb, get_prop d "fetch_branches" = Some fb /\ truthy fb = false
                    /\ b = EmptyString)) /\
    (exists k cmd q, k < j /\ tr !! k = Some (ObsSettle 2 cmd q)
                     /\ settles_to (Some EmptyString) q s).
Proof.
  intros [[-> _] | (args & fsr & fb & _ & _ & Hfb & Hshape)]%run_git_log_shape Hi.
  { discriminate Hi. }
  destruct Hshape as [x Ht Hx | pre sr tr1 x Hpre Hall | pre sr tr1 b' s' Hpre Hall
                     | pre sr tr1 l' b' s' rad' r' Hpre Hall Hl].
  - by destruct i as [|[|]].
  - apply stash_refs_quiet in Hpre. apply run_all_quiet in Hall.
    exfalso. eapply (quiet_not_parse (pre ++ tr1)); [|exact Hi].
    by apply Forall_app.
  - apply stash_refs_quiet in Hpre. apply run_all_quiet in Hall.
    rewrite app_assoc in Hi. apply lookup_app_Some in Hi as [Hi | [_ Hi]].
    + exfalso. eapply (quiet_not_parse (pre ++ tr1)); [by apply Forall_app | exact Hi].
    + by destruct (i - _) as [|[|]].
  - pose proof (stash_refs_quiet _ _ _ _ _ Hpre) as Hq1.
    pose proof (run_all_quiet _ _ _ _ _ Hall) as Hq2.
    set (n := List.length pre + List.length tr1).
    assert (Hpos : i = n + 2 /\ l = l' /\ b = b' /\ s = s').
    { rewrite app_assoc in Hi. apply lookup_app_Some in Hi as [Hi | [Hle Hi]].
      - exfalso. eapply (quiet_not_parse (pre ++ tr1)); [by apply Forall_app | exact Hi].
      - rewrite length_app in Hle, Hi. fold n in Hle, Hi.
        destruct (i - n) as [|[|[|k]]] eqn:Hk; try discriminate Hi.
        injection Hi as <- <- <- _ _ _. split; [lia | done]. }
    destruct Hpos as (-> & <- & <- & <-).
    destruct (joined_inputs _ _ _ _ _ _ _ _ _ Hall) as (Hlog & Hbr & (q & Hst & Hq) & _).
    exists n. split; [lia|]. split.
    { rewrite app_assoc, lookup_app_r by (rewrite length_app; fold n; lia).
      rewrite length_app. fold n. by rewrite Nat.sub_diag. }
    split; [|split].
    + destruct (position_in_middle pre tr1 [ObsJoin [l; b; s];
                  ObsConfig EXT_ID "curve-radius" rad'; ObsParse l b s sep rad' r'] _ Hlog)
        as (k & Hk & Hlk). eauto.
    + destruct Hbr as [Hbr | [Hf ->]].
      * left. destruct (position_in_middle pre tr1 [ObsJoin [l; b; s];
                  ObsConfig EXT_ID "curve-radius" rad'; ObsParse l b s sep rad' r'] _ Hbr)
          as (k & Hk & Hlk). eauto.
      * right. eauto.
    + destruct (position_in_middle pre tr1 [ObsJoin [l; b; s];
                  ObsConfig EXT_ID "curve-radius" rad'; ObsParse l b s sep rad' r'] _ Hst)
        as (k & Hk & Hlk). exists k. eauto.
Qed.

Lemma parse_only_after_join_witness :
  fst (run one_commit [] (git_log request_data)) !! 9
  = Some (ObsParse one_commit_log "^%^%^%^%^refs/heads/main" EmptyString sep (VNum 10)
            (Ok one_commit_parsed)) /\
  exists j,
    j < 9 /\
    fst (run one_commit [] (git_log request_data)) !! j
    = Some (ObsJoin [one_commit_log; "^%^%^%^%^refs/heads/main"; EmptyString]) /\
    (exists k cmd, k < j /\ fst (run one_commit [] (git_log request_data)) !! k
                            = Some (ObsSettle 0 cmd (Ok one_commit_log))) /\
    ((exists k cmd, k < j /\ fst (run one_commit [] (git_log request_data)) !! k
                             = Some (ObsSettle 1 cmd (Ok "^%^%^%^%^refs/heads/main")))
     \/ (exists fb, get_prop request_data "fetch_branches" = Some fb /\ truthy fb = false
                    /\ "^%^%^%^%^refs/heads/main" = EmptyString)) /\
    (exists k cmd q, k < j /\ fst (run one_commit [] (git_log request_data)) !! k
                              = Some (ObsSettle 2 cmd q)
                     /\ settles_to (Some EmptyString) q EmptyString).
Proof.
  assert (Hi : fst (run one_commit [] (git_log request_data)) !! 9
               = Some (ObsParse one_commit_log "^%^%^%^%^refs/heads/main" EmptyString sep
                         (VNum 10) (Ok one_commit_parsed))).
  { by vm_compute. }
  split; [exact Hi|].
  exact (parse_only_after_join one_commit [] request_data _ _ _ _ _ _ _ _ _
           (run_pair _ _ _) Hi).
Defined.

(** C3. When the stash-listing command of the [git-log] handler fails, the
    handler goes on with the empty string as stash text: unless another of
    the awaited commands was rejected, the join carries the empty string in
    the stash slot, and the handler returns the empty result (empty log) or
    the settlement of [parse] called with the empty stash text.  From the
    empty stash text the Stash Correlator builds the empty mapping. *)
Theorem stash_failure_is_absorbed (e : env) (hist : list obs) (d : value)
    (tr : list obs) (res : outcome value) (x : value) :
  run e hist (git_log d) = (tr, res) ->
  ObsSettle 2 stash_command (Thrown x) ∈ tr ->
  ((exists slot cmd y, slot <> 2 /\ ObsSettle slot cmd (Thrown y) ∈ tr /\ res = Thrown y)
   \/ (exists l b,
         ObsJoin [l; b; EmptyString] ∈ tr /\
         (l = EmptyString /\ res = Ok empty_parsed /\ parse_calls tr = []
          \/ l <> EmptyString /\
             exists rad, parse_calls tr = [(l, b, EmptyString, sep, rad, res)])))
  /\ Parser.stash_correlator EmptyString = ∅.
Proof.
  intros Hrun Hin. split; [|done].
  apply run_git_log_shape in Hrun as [[-> _] | (args & fsr & fb & _ & _ & _ & Hshape)].
  { by apply elem_of_nil in Hin. }
  destruct Hshape as [y Ht Hy | pre sr tr1 y Hpre Hall | pre sr tr1 b s Hpre Hall
                     | pre sr tr1 l b s rad r Hpre Hall Hl].
  - apply list_elem_of_singleton in Hin. discriminate.
  - left. destruct (rejected_slot _ _ _ _ _ _ _ Hall) as (slot & cmd & Hne & Hs).
    exists slot, cmd, y. split; [done|]. split; [|done]. apply elem_of_app. by right.
  - right. pose proof (stash_refs_quiet _ _ _ _ _ Hpre) as Hq1.
    pose proof (run_all_quiet _ _ _ _ _ Hall) as Hq2.
    assert (Hin1 : ObsSettle 2 stash_command (Thrown x) ∈ tr1).
    { apply elem_of_app in Hin as [Hin | Hin].
      - destruct (stash_refs_obs _ _ _ _ _ _ Hpre Hin) as (? & ? & [=]).
      - apply elem_of_app in Hin as [Hin | Hin]; [done|].
        apply list_elem_of_singleton in Hin. discriminate. }
    destruct (joined_inputs _ _ _ _ _ _ _ _ _ Hall) as (_ & _ & _ & Hst).
    rewrite (Hst x Hin1) in *. exists EmptyString, b. split.
    + rewrite !elem_of_app. right. right. apply list_elem_of_here.
    + left. split; [done|]. split; [done|].
      rewrite !parse_calls_app, (parse_calls_quiet pre), (parse_calls_quiet tr1) by done.
      done.
  - right. pose proof (stash_refs_quiet _ _ _ _ _ Hpre) as Hq1.
    pose proof (run_all_quiet _ _ _ _ _ Hall) as Hq2.
    assert (Hin1 : ObsSettle 2 stash_command (Thrown x) ∈ tr1).
    { apply elem_of_app in Hin as [Hin | Hin].
      - destruct (stash_refs_obs _ _ _ _ _ _ Hpre Hin) as (? & ? & [=]).
      - apply elem_of_app in Hin as [Hin | Hin]; [done|].
        apply elem_of_cons in Hin as [Heq | Hin]; [discriminate|].
        apply elem_of_cons in Hin as [Heq | Hin]; [discriminate|].
        apply list_elem_of_singleton in Hin. discriminate. }
    destruct (joined_inputs _ _ _ _ _ _ _ _ _ Hall) as (_ & _ & _ & Hst).
    rewrite (Hst x Hin1) in *. exists l, b. split.
    + rewrite !elem_of_app. right. right. apply list_elem_of_here.
    + right. split; [done|]. exists rad.
      rewrite !parse_calls_app, (parse_calls_quiet pre), (parse_calls_quiet tr1) by done.
      done.
Qed.

Lemma stash_failure_is_absorbed_witness :
  ObsSettle 2 stash_command (Thrown (Error "fatal: no stash"))
    ∈ fst (run one_commit [] (git_log request_data)) /\
  ((exists slot cmd y,
      slot <> 2 /\ ObsSettle slot cmd (Thrown y) ∈ fst (run one_commit [] (git_log request_data))
      /\ snd (run one_commit [] (git_log request_data)) = Thrown y)
   \/ (exists l b,
         ObsJoin [l; b; EmptyString] ∈ fst (run one_commit [] (git_log request_data)) /\
         (l = EmptyString /\ snd (run one_commit [] (git_log request_data)) = Ok empty_parsed
          /\ parse_calls (fst (run one_commit [] (git_log request_data))) = []
          \/ l <> EmptyString /\
             exists rad,
               parse_calls (fst (run one_commit [] (git_log request_data)))
               = [(l, b, EmptyString, sep, rad,
                   snd (run one_commit [] (git_log request_data)))])))
  /\ Parser.stash_correlator EmptyString = ∅.
Proof.
  assert (Hin : ObsSettle 2 stash_command (Thrown (Error "fatal: no stash"))
                  ∈ fst (run one_commit [] (git_log request_data))).
  { vm_compute. repeat constructor. }
  split; [exact Hin|].
  exact (stash_failure_is_absorbed one_commit [] request_data _ _ _ (run_pair _ _ _) Hin).
Defined.

End GitLogProps.

(** ** Strings: occurrences and replacement *)

Module StrFacts.
Import Str.

#[local] Arguments String.append !_ _ / : simpl nomatch.

Lemma append_nil_r (s : string) : s +:+ EmptyString = s.
Proof. induction s as [|c s IH]; simpl; [done | by rewrite IH]. Qed.

Lemma append_assoc (s t u : string) : (s +:+ t) +:+ u = s +:+ (t +:+ u).
Proof. induction s as [|c s IH]; simpl; [done | by rewrite IH]. Qed.

Lemma append_length (s t : string) :
  String.length (s +:+ t) = String.length s + String.length t.
Proof. induction s as [|c s IH]; simpl; [done | by rewrite IH]. Qed.

Lemma drop_app (s t : string) : drop (String.length s) (s +:+ t) = t.
Proof. induction s as [|c s IH]; simpl; [done | exact IH]. Qed.

Lemma prefix_split (pat s : string) :
  String.prefix pat s = true -> s = pat +:+ drop (String.length pat) s.
Proof.
  revert s. induction pat as [|p pat IH]; intros s; [by destruct s|].
  destruct s as [|c s]; simpl; [done|]. destruct (ascii_dec p c) as [->|]; [|done].
  intros H. by rewrite <- (IH s H).
Qed.

Lemma prefix_app (pat t : string) : String.prefix pat (pat +:+ t) = true.
Proof.
  induction pat as [|p pat IH]; simpl; [by destruct t|].
  by destruct (ascii_dec p p).
Qed.


Lemma find_first_eq (pat s : string) :
  find_first pat s =
  if String.prefix pat s then Some (EmptyString, drop (String.length pat) s)
  else match s with
       | EmptyString => None
       | String c s' =>
           match find_first pat s' with
           | Some (a, b) => Some (String c a, b)
           | None => None
           end
       end.
Proof. by destruct s. Qed.

Lemma find_first_Some (pat : string) :
  forall s a b, find_first pat s = Some (a, b) -> s = a +:+ pat +:+ b.
Proof.
  induction s as [|c s IH]; intros a b; rewrite find_first_eq.
  - destruct (String.prefix pat EmptyString) eqn:Hp; [|done].
    intros [= <- <-]. by apply prefix_split in Hp.
  - destruct (String.prefix pat (String c s)) eqn:Hp.
    + intros [= <- <-]. by apply prefix_split in Hp.
    + destruct (find_first pat s) as [[a' b']|]; [|done].
      intros [= <- <-]. simpl. by rewrite <- (IH a' b' eq_refl).
Qed.

Lemma find_first_occurs (pat s : string) :
  occurs_in pat s -> exists a b, find_first pat s = Some (a, b).
Proof.
  intros (a0 & b0 & ->). induction a0 as [|c a0 IH].
  - rewrite find_first_eq. simpl. rewrite prefix_app. eauto.
  - rewrite find_first_eq.
    destruct (String.prefix pat (String c a0 +:+ pat +:+ b0)); [eauto|].
    simpl. destruct IH as (a & b & ->). eauto.
Qed.

Lemma get_substitution_plain (matched before after repl : string) :
  has_char "$" repl = false -> get_substitution matched before after repl = repl.
Proof.
  induction repl as [|c t IH]; [done|]. cbn [has_char get_substitution].
  intros [Hc Ht]%orb_false_elim. rewrite Ascii.eqb_sym, Hc. by rewrite IH.
Qed.

Lemma occurs_in_length (s t : string) :
  occurs_in s t -> String.length s <= String.length t.
Proof. intros (a & b & ->). rewrite !append_length. lia. Qed.

(** Replacing a pattern that occurs puts the replacement text in. *)
Lemma replace_occurs (pat repl s : string) :
  has_char "$" repl = false -> occurs_in pat s -> occurs_in repl (replace pat repl s).
Proof.
  intros Hplain (a & b & Hf)%find_first_occurs. unfold replace. rewrite Hf.
  rewrite get_substitution_plain by done. by exists a, b.
Qed.

Lemma find_first_skip (pat' : string) (c0 : ascii) (F y : string) :
  has_char c0 F = false ->
  find_first (String c0 pat') (F +:+ y)
  = match find_first (String c0 pat') y with
    | Some (a, b) => Some (F +:+ a, b)
    | None => None
    end.
Proof.
  induction F as [|f F IH]; intros Hc.
  - simpl. by destruct (find_first _ y) as [[a b]|].
  - cbn [has_char] in Hc. apply orb_false_elim in Hc as [Hf HF].
    rewrite find_first_eq. cbn [String.append String.prefix].
    destruct (ascii_dec c0 f) as [->|_]; [by rewrite Ascii.eqb_refl in Hf|].
    rewrite (IH HF). by destruct (find_first _ y) as [[a b]|].
Qed.

Lemma prefix_before (pat x z : string) (f0 : ascii) :
  has_char f0 pat = false ->
  String.prefix pat (x +:+ String f0 z) = true ->
  exists x2, x = pat +:+ x2.
Proof.
  revert x. induction pat as [|p pat IH]; intros x Hc Hp.
  - by exists x.
  - cbn [has_char] in Hc. apply orb_false_elim in Hc as [Hf Hpat].
    destruct x as [|c x]; cbn [String.append String.prefix] in Hp.
    + destruct (ascii_dec p f0) as [->|]; [by rewrite Ascii.eqb_refl in Hf | done].
    + destruct (ascii_dec p c) as [->|]; [|done].
      destruct (IH x Hpat Hp) as (x2 & ->). by exists x2.
Qed.

(** An occurrence of [F] survives the replacement of a pattern that cannot
    overlap it: the pattern starts with a character that [F] lacks, and [F]
    starts with a character that the pattern lacks. *)
Lemma replace_keeps (pat' repl F' s : string) (c0 f0 : ascii) :
  has_char c0 (String f0 F') = false ->
  has_char f0 (String c0 pat') = false ->
  occurs_in (String f0 F') s ->
  occurs_in (String f0 F') (replace (String c0 pat') repl s).
Proof.
  intros HcF Hfp (x & y & ->). unfold replace.
  set (pat := String c0 pat') in *. set (F := String f0 F') in *.
  assert (Hcases : forall x a b,
    find_first pat (x +:+ F +:+ y) = Some (a, b) ->
    (exists x2, x = a +:+ pat +:+ x2 /\ b = x2 +:+ F +:+ y) \/ (exists a2, a = x +:+ F +:+ a2)).
  { clear x. induction x as [|c x IH]; intros a b Hf.
    - right. change (EmptyString +:+ F +:+ y) with (F +:+ y) in Hf.
      unfold pat in Hf. rewrite find_first_skip in Hf by done.
      destruct (find_first _ y) as [[a2 b2]|]; [|done]. injection Hf as <- <-.
      by exists a2.
    - rewrite find_first_eq in Hf.
      destruct (String.prefix pat (String c x +:+ F +:+ y)) eqn:Hp.
      + injection Hf as <- <-. left.
        destruct (prefix_before _ _ _ _ Hfp Hp) as (x2 & Hx).
        exists x2. split; [done|].
        unfold pat in Hx. cbn [String.append] in Hx. injection Hx as -> ->.
        by rewrite append_assoc, drop_app.
      + change (match find_first pat (x +:+ F +:+ y) with
                | Some (a, b) => Some (String c a, b)
                | None => None
                end = Some (a, b)) in Hf.
        destruct (find_first pat (x +:+ F +:+ y)) as [[a' b']|] eqn:Hrec; [|done].
        injection Hf as <- <-.
        destruct (IH a' b' eq_refl) as [(x2 & -> & ->) | (a2 & ->)].
        * left. by exists x2.
        * right. by exists a2. }
  destruct (find_first pat (x +:+ F +:+ y)) as [[a b]|] eqn:Hf.
  - destruct (Hcases x a b Hf) as [(x2 & -> & ->) | (a2 & ->)].
    + exists (a +:+ get_substitution pat a (x2 +:+ F +:+ y) repl +:+ x2), y.
      by rewrite !append_assoc.
    + exists x, (a2 +:+ get_substitution pat (x +:+ F +:+ a2) b repl +:+ b).
      by rewrite !append_assoc.
  - by exists x, y.
Qed.

End StrFacts.

(** ** The formats the handler hands to the version-control tool *)

Module FormatProps.
Import Str Async Host AsyncFacts PromiseAll GitLogFacts StrFacts GitFormat Scenario.

(** The commands a run of the handler starts concurrently. *)
Lemma started_commands (e : env) (hist : list obs) (d : value) tr res slot cmd :
  run e hist (git_log d) = (tr, res) ->
  ObsStart slot cmd ∈ tr ->
  exists args,
    get_prop d "args" = Some (VStr args) /\
    ((slot = 0 /\ exists stash_refs, cmd = log_command args stash_refs)
     \/ (slot = 1 /\ cmd = branch_command sep)
     \/ (slot = 2 /\ cmd = stash_command)).
Proof.
  intros [[-> _] | (args & fsr & fb & Ha & _ & _ & Hshape)]%run_git_log_shape Hin.
  { by apply elem_of_nil in Hin. }
  exists args. split; [done|].
  assert (Hitems : forall pre sr tr1 r rest,
    run e hist (git_log_stash_refs fsr) = (pre, Ok sr) ->
    run_all e (hist ++ pre) (git_log_items args sr fb) = (tr1, r) ->
    (forall o, o ∈ rest -> forall i c, o <> ObsStart i c) ->
    ObsStart slot cmd ∈ pre ++ tr1 ++ rest ->
    (slot = 0 /\ exists stash_refs, cmd = log_command args stash_refs)
    \/ (slot = 1 /\ cmd = branch_command sep)
    \/ (slot = 2 /\ cmd = stash_command)).
  { intros pre sr tr1 r rest Hpre Hall Hrest Hs.
    apply elem_of_app in Hs as [Hs | Hs].
    { destruct (stash_refs_obs _ _ _ _ _ _ Hpre Hs) as (? & ? & [=]). }
    apply elem_of_app in Hs as [Hs | Hs]; [|by destruct (Hrest _ Hs slot cmd)].
    apply run_all_sound in Hall as (_ & Hstart & _).
    destruct (Hstart _ _ Hs) as (catch & Hit). unfold git_log_items in Hit.
    destruct slot as [|[|[|slot]]]; simpl in Hit.
    - injection Hit as <- _. left. eauto.
    - destruct (truthy fb); [|discriminate Hit]. injection Hit as <- _. right. by left.
    - injection Hit as <- _. right. by right.
    - discriminate Hit. }
  destruct Hshape as [x Ht Hx | pre sr tr1 x Hpre Hall | pre sr tr1 b s Hpre Hall
                     | pre sr tr1 l b s rad r Hpre Hall Hl].
  - apply list_elem_of_singleton in Hin. discriminate.
  - apply (Hitems pre sr tr1 (Thrown x) []); try done.
    + by intros o ?%elem_of_nil.
    + by rewrite app_nil_r.
  - apply (Hitems pre sr tr1 (Ok [EmptyString; b; s]) [ObsJoin [EmptyString; b; s]]);
      try done.
    intros o ->%list_elem_of_singleton. done.
  - eapply (Hitems pre sr tr1 (Ok [l; b; s])); try done.
    intros o Ho i c ->. repeat (apply elem_of_cons in Ho as [Ho | Ho]; [discriminate|]).
    by apply elem_of_nil in Ho.
Qed.

Lemma pretty_argument_head : exists F', pretty_argument sep = String " " F'.
Proof. eexists. reflexivity. Qed.

(** The pretty format reaches the history-listing command line when the
    request carries its placeholder. *)
Lemma log_command_has_format (args stash_refs : string) :
  occurs_in " --pretty={EXT_FORMAT}" args ->
  occurs_in (pretty_argument sep) (log_command args stash_refs).
Proof.
  intros Hocc. unfold log_command.
  assert (Hfirst : occurs_in (pretty_argument sep)
                     (replace " --pretty={EXT_FORMAT}" (pretty_argument sep) args)).
  { by apply replace_occurs. }
  assert (Hc : has_char "{" (pretty_argument sep) = false) by reflexivity.
  destruct pretty_argument_head as [F' HF]. rewrite HF in *.
  by apply replace_keeps.
Qed.

(** C5, as it stands, fails: a request whose [args] lack the placeholder
    [ --pretty={EXT_FORMAT}] has its history-listing command run without the
    pretty format. *)
Lemma pretty_format_needs_placeholder :
  ~ (forall (e : env) (hist : list obs) (d : value) tr res cmd,
       run e hist (git_log d) = (tr, res) ->
       ObsStart 0 cmd ∈ tr ->
       occurs_in (pretty_argument sep) cmd).
Proof.
  intros H.
  specialize (H one_commit [] (VObj [("args", VStr "log --graph")]) _ _ "log --graph"
                (run_pair _ _ _)).
  assert (Hin : ObsStart 0 "log --graph"
                  ∈ fst (run one_commit [] (git_log (VObj [("args", VStr "log --graph")])))).
  { vm_compute. repeat constructor. }
  apply H, occurs_in_length in Hin. vm_compute in Hin. lia.
Qed.

(** C5, amended.  When the [args] of the request contain the placeholder
    [ --pretty={EXT_FORMAT}], the history-listing command is run with the
    pretty format put in its place, and this format emits, for a commit, the
    separator followed by the full hash, the short hash, the author name,
    the author email, the author date, the decoration string and the
    subject, in this order, with the same separator between neighbours. *)
Theorem pretty_format_emits_seven_fields (e : env) (hist : list obs) (d : value)
    (tr : list obs) (res : outcome value) (args cmd : string) :
  run e hist (git_log d) = (tr, res) ->
  get_prop d "args" = Some (VStr args) ->
  occurs_in " --pretty={EXT_FORMAT}" args ->
  ObsStart 0 cmd ∈ tr ->
  occurs_in (pretty_argument sep) cmd /\
  pretty_argument sep = " --pretty=format:" +:+ dq +:+ EXT_FORMAT sep +:+ dq /\
  forall c : commit_fields,
    expand_pretty c (EXT_FORMAT sep)
    = sep +:+ full_hash c +:+ sep +:+ short_hash c +:+ sep +:+ author_name c
          +:+ sep +:+ author_email c +:+ sep +:+ author_date c
          +:+ sep +:+ decoration c +:+ sep +:+ subject c.
Proof.
  intros Hrun Hargs Hocc Hin. split; [|split; [done|]].
  - destruct (started_commands _ _ _ _ _ _ _ Hrun Hin)
      as (args' & Ha & [(_ & sr & ->) | [([=] & _) | ([=] & _)]]).
    rewrite Ha in Hargs. injection Hargs as ->.
    by apply log_command_has_format.
  - intros c.
    transitivity
      (sep +:+ full_hash c +:+ sep +:+ short_hash c +:+ sep +:+ author_name c
           +:+ sep +:+ author_email c +:+ sep +:+ author_date c
           +:+ sep +:+ decoration c +:+ sep +:+ (subject c +:+ EmptyString));
      [reflexivity | by rewrite append_nil_r].
Qed.

Lemma pretty_format_emits_seven_fields_witness :
  get_prop request_data "args"
  = Some (VStr "log --graph --pretty={EXT_FORMAT} -n 100 --all {STASH_REFS}") /\
  occurs_in " --pretty={EXT_FORMAT}"
    "log --graph --pretty={EXT_FORMAT} -n 100 --all {STASH_REFS}" /\
  ObsStart 0 (log_command "log --graph --pretty={EXT_FORMAT} -n 100 --all {STASH_REFS}"
                EmptyString)
    ∈ fst (run one_commit [] (git_log request_data)) /\
  occurs_in (pretty_argument sep)
    (log_command "log --graph --pretty={EXT_FORMAT} -n 100 --all {STASH_REFS}" EmptyString) /\
  pretty_argument sep = " --pretty=format:" +:+ dq +:+ EXT_FORMAT sep +:+ dq /\
  forall c : commit_fields,
    expand_pretty c (EXT_FORMAT sep)
    = sep +:+ full_hash c +:+ sep +:+ short_hash c +:+ sep +:+ author_name c
          +:+ sep +:+ author_email c +:+ sep +:+ author_date c
          +:+ sep +:+ decoration c +:+ sep +:+ subject c.
Proof.
  assert (Hargs : get_prop request_data "args"
                  = Some (VStr "log --graph --pretty={EXT_FORMAT} -n 100 --all {STASH_REFS}"))
    by reflexivity.
  assert (Hocc : occurs_in " --pretty={EXT_FORMAT}"
                   "log --graph --pretty={EXT_FORMAT} -n 100 --all {STASH_REFS}").
  { exists "log --graph", " -n 100 --all {STASH_REFS}". reflexivity. }
  assert (Hin : ObsStart 0
                  (log_command "log --graph --pretty={EXT_FORMAT} -n 100 --all {STASH_REFS}"
                     EmptyString)
                  ∈ fst (run one_commit [] (git_log request_data))).
  { vm_compute. repeat constructor. }
  split; [exact Hargs|]. split; [exact Hocc|]. split; [exact Hin|].
  exact (pretty_format_emits_seven_fields one_commit [] request_data _ _ _ _
           (run_pair _ _ _) Hargs Hocc Hin).
Defined.

(** C2, as it stands, fails: no delimiter other than the separator token
    of the log lines joins the remote name and the ref name of a line of
    the branch listing. *)
Lemma branch_delimiter_is_log_separator :
  ~ (exists sep2 : string,
       sep2 <> sep /\
       forall remote refname : string,
         expand_ref (branch_field remote refname) None (branch_format sep)
         = remote +:+ sep2 +:+ refname).
Proof.
  intros (sep2 & Hne & Hline). specialize (Hline EmptyString EmptyString).
  apply Hne. rewrite append_nil_r in Hline. symmetry. exact Hline.
Qed.

(** C2, amended.  The branch listing is asked for with a format that
    renders a branch as its remote name and its ref name joined by the
    separator token of the log lines itself. *)
Theorem branch_lines_use_log_separator (e : env) (hist : list obs) (d : value)
    (tr : list obs) (res : outcome value) (cmd remote refname : string) :
  run e hist (git_log d) = (tr, res) ->
  ObsStart 1 cmd ∈ tr ->
  cmd = "branch --list --all --format=" +:+ dq +:+ branch_format sep +:+ dq /\
  expand_ref (branch_field remote refname) None (branch_format sep)
  = remote +:+ sep +:+ refname /\
  occurs_in sep (EXT_FORMAT sep).
Proof.
  intros Hrun Hin. split; [|split].
  - by destruct (started_commands _ _ _ _ _ _ _ Hrun Hin)
      as (args & _ & [([=] & _) | [(_ & ->) | ([=] & _)]]).
  - transitivity (remote +:+ sep +:+ (refname +:+ EmptyString));
      [reflexivity | by rewrite append_nil_r].
  - by exists EmptyString,
      ("%H" +:+ sep +:+ "%h" +:+ sep +:+ "%aN" +:+ sep +:+ "%aE" +:+ sep +:+ "%ad"
            +:+ sep +:+ "%D" +:+ sep +:+ "%s").
Qed.

Lemma branch_lines_use_log_separator_witness :
  ObsStart 1 (branch_command sep) ∈ fst (run one_commit [] (git_log request_data)) /\
  branch_command sep = "branch --list --all --format=" +:+ dq +:+ branch_format sep +:+ dq /\
  expand_ref (branch_field "origin" "refs/heads/main") None (branch_format sep)
  = "origin" +:+ sep +:+ "refs/heads/main" /\
  occurs_in sep (EXT_FORMAT sep).
Proof.
  assert (Hin : ObsStart 1 (branch_command sep)
                  ∈ fst (run one_commit [] (git_log request_data))).
  { vm_compute. repeat constructor. }
  split; [exact Hin|].
  exact (branch_lines_use_log_separator one_commit [] request_data _ _ _ _ _
           (run_pair _ _ _) Hin).
Defined.

End FormatProps.

(** ** The helper [h] *)

Module HelperProps.
Import Str Async Host AsyncFacts PromiseAll GitLogFacts HelperFacts Scenario.

Lemma responses_app (a b : list BridgeMessage) : responses (a ++ b) = responses a ++ responses b.
Proof. apply filter_app. Qed.

Lemma responses_pushes (ms : list BridgeMessage) :
  Forall is_state_update ms -> responses ms = [].
Proof.
  induction 1 as [|m ms (key & v & ->) _ IH]; [done|].
  unfold responses. rewrite filter_cons, decide_False by done. exact IH.
Qed.

(** X1 (C9, for a function that returns or throws a value other than
    [undefined] and [null]).  [h] calls [post_message] exactly once, after
    the function of the command has finished, with a [response-to-web] that
    has the id of the request; on a return it carries the result as data and
    no error, on a throw it carries the message of the thrown value, or the
    value itself, as error and no data.  Before it, the function of
    [set-state] may have posted pushes that announce a state; the function
    of no other command posts anything.  So the response is the one
    [response-to-web] that is posted. *)
Lemma helper_answers_once
    (element_text : value -> value -> string) (Number : value -> value)
    (e : env) (hist : list obs) (message : BridgeMessage)
    (cmd : string) (func : task value) :
  type message = "request-from-web" ->
  command message = VStr cmd ->
  func_of element_text Number cmd (data message) = Some func ->
  let debug := ObsLog "logger.debug" (VStr "receive from webview") in
  let pushed := posts (fst (run e (hist ++ [debug]) func)) in
  let posted := posts (fst (run e hist (on_message element_text Number message))) in
  Forall is_state_update pushed /\
  (cmd <> "set-state" -> pushed = []) /\
  match snd (run e (hist ++ [debug]) func) with
  | Ok d =>
      posted = pushed ++ [response_ok message d] /\
      responses posted = [response_ok message d]
  | Thrown err =>
      match get_prop err "message" with
      | Some m =>
          posted = pushed ++ [response_error message m err] /\
          responses posted = [response_error message m err] /\
          error (response_error message m err) <> VUndefined
      | None => posted = pushed /\ responses posted = []
      end
  end.
Proof.
  intros Ht Hc Hf debug pushed posted.
  destruct (func_posts_pushes element_text Number e (hist ++ [debug]) _ _ _ Hf)
    as [Hpush Hnone].
  fold pushed in Hpush, Hnone.
  pose proof (on_message_posts element_text Number e hist message cmd func Ht Hc Hf)
    as Hposts.
  cbv zeta in Hposts. fold debug pushed posted in Hposts.
  split; [done|]. split; [done|].
  destruct (snd (run e (hist ++ [debug]) func)) as [d | err].
  - split; [done|]. rewrite Hposts, responses_app, (responses_pushes _ Hpush). done.
  - destruct (get_prop err "message") as [m|] eqn:Hm.
    + split; [done|]. split.
      * rewrite Hposts, responses_app, (responses_pushes _ Hpush). done.
      * simpl. unfold or_else. destruct (truthy m) eqn:Htm; [by destruct m|].
        by destruct err.
    + rewrite app_nil_r in Hposts. split; [done|].
      rewrite Hposts. by apply responses_pushes.
Qed.

(** C9, where the code departs from it.  The request [git status] with
    id 7, when [git.run] rejects with [undefined]: reading [error.message]
    in the [catch] block of [h] throws, [h] itself is rejected, and no
    response is posted for the request. *)
Theorem nullish_throw_is_left_unanswered
    (element_text : value -> value -> string) (Number : value -> value) :
  let request :=
    {| type := "request-from-web"; id := VNum 7; command := VStr "git";
       data := VStr "status"; error := VUndefined; chunk := VUndefined;
       total_chunks := VUndefined |} in
  posts (fst (run rejecting_undefined [] (on_message element_text Number request))) = [] /\
  snd (run rejecting_undefined [] (on_message element_text Number request))
  = Thrown (TypeError "Cannot read properties of undefined (reading 'message')").
Proof. by vm_compute. Qed.

Lemma helper_answers_once_witness :
  type StateStore.set_index_request = "request-from-web" /\
  command StateStore.set_index_request = VStr "set-state" /\
  func_of StateStore.sample_element_text StateStore.sample_Number "set-state"
    (data StateStore.set_index_request)
  = Some (set_state StateStore.sample_element_text StateStore.sample_Number
            (data StateStore.set_index_request)) /\
  let debug := ObsLog "logger.debug" (VStr "receive from webview") in
  let pushed :=
    posts (fst (run StateStore.one_repository ([] ++ [debug])
                  (set_state StateStore.sample_element_text StateStore.sample_Number
                     (data StateStore.set_index_request)))) in
  let posted :=
    posts (fst (run StateStore.one_repository []
                  (on_message StateStore.sample_element_text StateStore.sample_Number
                     StateStore.set_index_request))) in
  Forall is_state_update pushed /\
  ("set-state" <> "set-state" -> pushed = []) /\
  match snd (run StateStore.one_repository ([] ++ [debug])
               (set_state StateStore.sample_element_text StateStore.sample_Number
                  (data StateStore.set_index_request))) with
  | Ok d =>
      posted = pushed ++ [response_ok StateStore.set_index_request d] /\
      responses posted = [response_ok StateStore.set_index_request d]
  | Thrown err =>
      match get_prop err "message" with
      | Some m =>
          posted = pushed ++ [response_error StateStore.set_index_request m err] /\
          responses posted = [response_error StateStore.set_index_request m err] /\
          error (response_error StateStore.set_index_request m err) <> VUndefined
      | None => posted = pushed /\ responses posted = []
      end
  end.
Proof.
  assert (Ht : type StateStore.set_index_request = "request-from-web") by reflexivity.
  assert (Hc : command StateStore.set_index_request = VStr "set-state") by reflexivity.
  assert (Hf : func_of StateStore.sample_element_text StateStore.sample_Number "set-state"
                 (data StateStore.set_index_request)
               = Some (set_state StateStore.sample_element_text StateStore.sample_Number
                         (data StateStore.set_index_request))) by reflexivity.
  split; [exact Ht|]. split; [exact Hc|]. split; [exact Hf|].
  exact (helper_answers_once StateStore.sample_element_text StateStore.sample_Number
           StateStore.one_repository [] StateStore.set_index_request "set-state" _
           Ht Hc Hf).
Defined.

End HelperProps.

(** ** The webview bridge *)

Module BridgeFacts.
Import Async Bridge.

Lemma to_key_num_inj (a b : Z) : to_key (VNum a) = to_key (VNum b) -> a = b.
Proof. simpl. apply pretty_Z_inj. Qed.

Lemma inv_start : inv start.
Proof.
  unfold inv, start. simpl. split; [done|].
  split; [intros n req H; by rewrite lookup_nil in H|].
  split; [intros key n H; by rewrite lookup_empty in H|].
  split; [intros n m H; by apply elem_of_nil in H|].
  constructor.
Qed.

(** The listener either leaves the stored handlers alone and calls none,
    or calls the handler stored under the key of the id of the message,
    once, and removes it. *)
Lemma listener_cases call_member (s : state) (m : BridgeMessage) s' os o :
  listener call_member s m = (s', os, o) ->
  message_id_counter s' = message_id_counter s /\
  ((response_handlers s' = response_handlers s /\ resolutions os = []) \/
   (exists n m',
      type m = "response-to-web" /\
      response_handlers s !! to_key (id m) = Some n /\
      response_handlers s' = delete (to_key (id m)) (response_handlers s) /\
      resolutions os = [(n, m')] /\ id m' = id m /\ error m' = error m /\
      (truthy (chunk m) = false -> m' = m))).
Proof.
  unfold listener, read.
  destruct (String.eqb (type m) "response-to-web") eqn:Hty.
  - apply String.eqb_eq in Hty.
    destruct (response_handlers s !! to_key (id m)) as [n|] eqn:Hh.
    + destruct (truthy (chunk m)) eqn:Hch.
      * destruct (strict_eq (chunk m) (total_chunks m)).
        -- unfold dispatch. simpl. intros [= <- <- <-]. split; [done|]. right.
           eexists n, _. repeat split; try done.
        -- intros [= <- <- <-]. split; [done|]. by left.
      * unfold dispatch. intros [= <- <- <-]. split; [done|]. right.
        exists n, m. repeat split; done.
    + destruct (bool_decide _); [destruct (truthy (chunk m))|];
        intros [= <- <- <-]; split; try done; by left.
  - destruct (String.eqb (type m) "push-to-web").
    + destruct (push_handlers s !! to_key (id m)) as [n|];
        [|destruct (bool_decide _)]; intros [= <- <- <-]; split; try done; by left.
    + intros [= <- <- <-]. split; [done|]. by left.
Qed.

Lemma inv_step call_member (w : world) (i : input) : inv w -> inv (step call_member w i).
Proof.
  intros (Hc & Hid & Hh & Hr & Hnd). destruct i as [command d | m | name].
  - (* a call of exchange_message *)
    unfold step, exchange_message_send. cbv beta iota zeta.
    split; [|split; [|split; [|split]]];
      cbn [st posted resolved listeners message_id_counter response_handlers omap list_omap].
    + rewrite length_app, Hc, Nat2Z.inj_add. done.
    + intros n req [Hl | [Hle Hl]]%lookup_app_Some; [by apply Hid|].
      destruct (n - List.length (posted w)) as [|k] eqn:Hk; [|by destruct k].
      injection Hl as <-. simpl. f_equal. lia.
    + intros key n Hl. rewrite length_app. simpl.
      apply lookup_insert_Some in Hl as [[<- <-] | [Hne Hl]].
      * split; [|lia]. rewrite Hc.
        by replace (Z.of_nat (S (List.length (posted w))))
          with (Z.of_nat (List.length (posted w)) + 1)%Z by lia.
      * destruct (Hh key n Hl). split; [done | lia].
    + intros n m Hin. destruct (Hr n m Hin) as (Hk & Hlt & Hnone).
      rewrite length_app. simpl. split; [done|]. split; [lia|].
      rewrite lookup_insert_ne; [done|]. rewrite Hk. intros Heq%to_key_num_inj. lia.
    + done.
  - (* a message *)
    unfold step. destruct (listener call_member (st w) m) as [[s' os] o] eqn:Hl.
    apply listener_cases in Hl
      as (Hcnt & [(Hsame & Hos) | (n & m' & _ & Hown & Hdel & Hos & Hidm & _)]);
      unfold inv; cbn [st posted resolved]; rewrite Hos.
    + rewrite app_nil_r, Hcnt, Hsame. done.
    + split; [|split; [|split; [|split]]].
      * by rewrite Hcnt.
      * done.
      * intros key k Hk. rewrite Hdel in Hk.
        apply lookup_delete_Some in Hk as [_ Hk]. by apply Hh.
      * intros k mk [Hin | Hin]%elem_of_app.
        -- destruct (Hr k mk Hin) as (Hk & Hlt & Hnone). repeat split; try done.
           rewrite Hdel. apply lookup_delete_None. by right.
        -- apply list_elem_of_singleton in Hin. injection Hin as -> ->.
           destruct (Hh _ _ Hown) as [Hkey Hlt]. rewrite Hidm.
           repeat split; try done. rewrite Hdel. apply lookup_delete_eq.
      * rewrite fmap_app. apply NoDup_app. split; [done|]. split; [|apply NoDup_singleton].
        intros k Hk Hk'. apply list_elem_of_singleton in Hk'. simpl in Hk'. subst k.
        apply list_elem_of_fmap in Hk as ([k mk] & Heq & Hin). simpl in Heq. subst k.
        destruct (Hr n mk Hin) as (Hkm & _ & Hnone).
        destruct (Hh _ _ Hown) as [Hkey _]. rewrite Hkm, <- Hkey in Hnone. congruence.
  - (* a push listener is registered *)
    unfold step, add_push_listener. done.
Qed.

Lemma inv_steps call_member (ins : list input) :
  forall w, inv w -> inv (steps call_member w ins).
Proof.
  induction ins as [|i ins IH]; intros w Hw; [done|].
  apply (IH (step call_member w i)). by apply inv_step.
Qed.

Lemma in_flight_start : in_flight_or_resolved start.
Proof. intros n Hn. simpl in Hn. lia. Qed.

Lemma in_flight_step call_member (w : world) (i : input) :
  inv w -> in_flight_or_resolved w -> in_flight_or_resolved (step call_member w i).
Proof.
  intros (Hc & Hid & Hh & Hr & Hnd) Hf. destruct i as [command d | m | name].
  - (* a call of exchange_message *)
    unfold step, exchange_message_send. cbv beta iota zeta. intros n.
    cbn [st posted resolved response_handlers omap list_omap].
    rewrite length_app. simpl. intros Hn. rewrite Hc.
    destruct (decide (n = List.length (posted w))) as [-> | Hne].
    + right.
      replace (Z.of_nat (List.length (posted w)) + 1)%Z
        with (Z.of_nat (S (List.length (posted w)))) by lia.
      apply lookup_insert_eq.
    + destruct (Hf n) as [Hres | Hst]; [lia | by left |]. right.
      rewrite lookup_insert_ne; [done|]. intros Heq%to_key_num_inj. lia.
  - (* a message *)
    unfold step. destruct (listener call_member (st w) m) as [[s' os] o] eqn:Hl.
    apply listener_cases in Hl
      as (Hcnt & [(Hsame & Hos) | (n0 & m' & _ & Hown & Hdel & Hos & _)]);
      intros n; cbn [st posted resolved]; rewrite Hos; intros Hn.
    + rewrite app_nil_r, Hsame. by apply Hf.
    + rewrite fmap_app, elem_of_app, Hdel.
      destruct (Hf n Hn) as [Hres | Hst]; [by left; left|].
      destruct (decide (to_key (id m) = to_key (VNum (Z.of_nat (S n))))) as [Heq | Hne].
      * left. right. rewrite Heq, Hst in Hown. injection Hown as <-.
        apply list_elem_of_here.
      * right. by rewrite lookup_delete_ne.
  - (* a push listener is registered *)
    unfold step, add_push_listener. exact Hf.
Qed.

Lemma in_flight_steps call_member (ins : list input) :
  forall w, inv w -> in_flight_or_resolved w ->
    in_flight_or_resolved (steps call_member w ins).
Proof.
  induction ins as [|i ins IH]; intros w Hw Hf; [done|].
  apply (IH (step call_member w i)); [by apply inv_step | by apply in_flight_step].
Qed.

(** No more requests have been posted than things have happened. *)
Lemma posted_steps_length call_member (ins : list input) :
  forall w, List.length (posted (steps call_member w ins))
            <= List.length (posted w) + List.length ins.
Proof.
  induction ins as [|i ins IH]; intros w; [simpl; lia|].
  specialize (IH (step call_member w i)). cbn [steps fold_left] in *.
  unfold steps in IH. etrans; [exact IH|].
  assert (List.length (posted (step call_member w i)) <= S (List.length (posted w)));
    [|simpl; lia].
  destruct i as [command d | m | name]; unfold step.
  - unfold exchange_message_send. cbv beta iota zeta. cbn [posted omap list_omap].
    rewrite length_app. simpl. lia.
  - destruct (listener call_member (st w) m) as [[s' os] o]. simpl. lia.
  - simpl. lia.
Qed.

(** A response that bears the key of a stored handler: a message that
    completes calls the handler and removes it; a chunk that does not is
    kept and the handler stays. *)
Lemma listener_response call_member (s : state) (m : BridgeMessage) (n : nat) :
  type m = "response-to-web" ->
  response_handlers s !! to_key (id m) = Some n ->
  if completes m then
    exists m',
      resolutions (snd (fst (listener call_member s m))) = [(n, m')] /\
      id m' = id m /\ error m' = error m /\ (truthy (chunk m) = false -> m' = m) /\
      response_handlers (fst (fst (listener call_member s m)))
      = delete (to_key (id m)) (response_handlers s)
  else
    resolutions (snd (fst (listener call_member s m))) = [] /\
    response_handlers (fst (fst (listener call_member s m))) = response_handlers s.
Proof.
  intros Hty Hh. unfold completes, listener, read. rewrite Hty, Hh.
  change (String.eqb "response-to-web" "response-to-web") with true. cbv iota.
  destruct (truthy (chunk m)) eqn:Hch; cbn [negb orb].
  - destruct (strict_eq (chunk m) (total_chunks m)); [|done].
    eexists. unfold dispatch. cbn [fst snd resolutions omap list_omap response_handlers].
    repeat split; done.
  - exists m. unfold dispatch. cbn [fst snd resolutions omap list_omap response_handlers].
    repeat split; done.
Qed.

(** C8. After any sequence of calls of [exchange_message], arriving
    messages and listener registrations, short of the 2^53 calls up to which
    a JavaScript number counts: a further call increments the counter (the
    increment of the number is exact) and only then sends, so that its
    request carries the incremented counter as id and its handler is stored
    under that id; the ids of the requests sent are pairwise distinct; no
    stored handler has been called twice, and one that has been called is
    no longer stored; every handler call was made with a message bearing,
    as a key, the id of the request of that very call of
    [exchange_message]; every request sent either has had its handler
    called or is in flight, its handler stored under its own id; and a
    response that bears the id of a request in flight and completes (it is
    no chunk, or the last chunk) calls the handler of that request, once,
    with the id and the error of the response (and with the response
    itself when it is no chunk), and removes it, while a chunk that does not
    complete calls nothing and leaves the handler stored. *)
Theorem requests_carry_distinct_ids_and_resolve_once
    (call_member : string -> BridgeMessage -> outcome unit) (ins : list input) :
  (Z.of_nat (List.length ins) < 2 ^ 53)%Z ->
  let w := steps call_member start ins in
  (forall command d,
     let w' := step call_member w (Call command d) in
     message_id_counter (st w') = number_increment (message_id_counter (st w)) /\
     message_id_counter (st w') = (message_id_counter (st w) + 1)%Z /\
     posted w' = posted w ++ [request_of (message_id_counter (st w) + 1) command d] /\
     response_handlers (st w') !! to_key (VNum (message_id_counter (st w) + 1))
     = Some (List.length (posted w))) /\
  NoDup (id <$> posted w) /\
  NoDup (resolved w).*1 /\
  (forall n m, (n, m) ∈ resolved w ->
     response_handlers (st w) !! to_key (id m) = None /\
     exists req, posted w !! n = Some req /\ to_key (id m) = to_key (id req)) /\
  (forall n req, posted w !! n = Some req ->
     n ∈ (resolved w).*1 \/ response_handlers (st w) !! to_key (id req) = Some n) /\
  (forall n req m,
     posted w !! n = Some req -> n ∉ (resolved w).*1 ->
     type m = "response-to-web" -> to_key (id m) = to_key (id req) ->
     let w' := step call_member w (Message m) in
     if completes m then
       exists m',
         resolved w' = resolved w ++ [(n, m')] /\
         id m' = id m /\ error m' = error m /\ (truthy (chunk m) = false -> m' = m) /\
         response_handlers (st w') !! to_key (id req) = None
     else
       resolved w' = resolved w /\
       response_handlers (st w') !! to_key (id req) = Some n).
Proof.
  intros Hbound w. destruct (inv_steps call_member ins start inv_start)
    as (Hc & Hid & Hh & Hr & Hnd). fold w in Hc, Hid, Hh, Hr, Hnd.
  pose proof (in_flight_steps call_member ins start inv_start in_flight_start) as Hf.
  fold w in Hf.
  pose proof (posted_steps_length call_member ins start) as Hlen. fold w in Hlen.
  simpl in Hlen.
  assert (Hstored : forall n req, posted w !! n = Some req ->
    n ∈ (resolved w).*1 \/ response_handlers (st w) !! to_key (id req) = Some n).
  { intros n req Hreq. rewrite (Hid _ _ Hreq). apply Hf. by eapply lookup_lt_Some. }
  split; [|split; [|split; [|split; [|split]]]].
  - intros command d. unfold step, exchange_message_send. cbv beta iota zeta.
    cbn [st posted message_id_counter response_handlers omap list_omap].
    split; [|split; [done|split; [done|apply lookup_insert_eq]]].
    unfold number_increment. rewrite Hc.
    destruct (Z.ltb_spec (Z.of_nat (List.length (posted w))) (2 ^ 53)); [done | lia].
  - apply NoDup_alt. intros i j x Hi Hj.
    apply list_lookup_fmap_Some in Hi as (ri & -> & Hri).
    apply list_lookup_fmap_Some in Hj as (rj & Heq & Hrj).
    rewrite (Hid _ _ Hri), (Hid _ _ Hrj) in Heq. injection Heq. lia.
  - done.
  - intros n m Hin. destruct (Hr n m Hin) as (Hk & Hlt & Hnone). split; [done|].
    destruct (lookup_lt_is_Some_2 (posted w) n Hlt) as [req Hreq].
    exists req. split; [done|]. by rewrite (Hid _ _ Hreq).
  - exact Hstored.
  - intros n req m Hreq Hnot Hty Hkey w'.
    destruct (Hstored n req Hreq) as [Hin | Hst]; [done|].
    rewrite <- Hkey in Hst.
    pose proof (listener_response call_member (st w) m n Hty Hst) as Hl.
    unfold w', step. destruct (listener call_member (st w) m) as [[s' os] o].
    cbn [fst snd] in Hl. cbn [st resolved]. destruct (completes m).
    + destruct Hl as (m' & Hos & Hi & He & Hm & Hdel). exists m'.
      rewrite Hos, Hdel, <- Hkey. repeat split; try done. apply lookup_delete_eq.
    + destruct Hl as [Hos Hsame]. rewrite Hos, Hsame, app_nil_r, <- Hkey. done.
Qed.

Lemma requests_carry_distinct_ids_and_resolve_once_witness :
  (Z.of_nat (List.length [Call "git" (VStr "status"); Call "git" (VStr "log");
                          Message Scenario.failed_response]) < 2 ^ 53)%Z /\
  let w := steps Scenario.member_returns start
             [Call "git" (VStr "status"); Call "git" (VStr "log");
              Message Scenario.failed_response] in
  (forall command d,
     let w' := step Scenario.member_returns w (Call command d) in
     message_id_counter (st w') = number_increment (message_id_counter (st w)) /\
     message_id_counter (st w') = (message_id_counter (st w) + 1)%Z /\
     posted w' = posted w ++ [request_of (message_id_counter (st w) + 1) command d] /\
     response_handlers (st w') !! to_key (VNum (message_id_counter (st w) + 1))
     = Some (List.length (posted w))) /\
  NoDup (id <$> posted w) /\
  NoDup (resolved w).*1 /\
  (forall n m, (n, m) ∈ resolved w ->
     response_handlers (st w) !! to_key (id m) = None /\
     exists req, posted w !! n = Some req /\ to_key (id m) = to_key (id req)) /\
  (forall n req, posted w !! n = Some req ->
     n ∈ (resolved w).*1 \/ response_handlers (st w) !! to_key (id req) = Some n) /\
  (forall n req m,
     posted w !! n = Some req -> n ∉ (resolved w).*1 ->
     type m = "response-to-web" -> to_key (id m) = to_key (id req) ->
     let w' := step Scenario.member_returns w (Message m) in
     if completes m then
       exists m',
         resolved w' = resolved w ++ [(n, m')] /\
         id m' = id m /\ error m' = error m /\ (truthy (chunk m) = false -> m' = m) /\
         response_handlers (st w') !! to_key (id req) = None
     else
       resolved w' = resolved w /\
       response_handlers (st w') !! to_key (id req) = Some n).
Proof.
  assert (H : (Z.of_nat (List.length [Call "git" (VStr "status"); Call "git" (VStr "log");
                                      Message Scenario.failed_response]) < 2 ^ 53)%Z)
    by reflexivity.
  split; [exact H|].
  exact (requests_carry_distinct_ids_and_resolve_once Scenario.member_returns
           [Call "git" (VStr "status"); Call "git" (VStr "log");
            Message Scenario.failed_response] H).
Defined.

(** C10. Once its promise is resolved with the response [resp],
    [exchange_message] throws if and only if the error field of [resp] is
    truthy (neither absent nor [null], [false], [0] or the empty string),
    the thrown error carrying that field; otherwise it returns the data
    field of [resp].  A matching response that is not chunked reaches the
    promise as it arrived. *)
Theorem exchange_throws_iff_error_field
    (JSON_stringify : value -> string)
    (call_member : string -> BridgeMessage -> outcome unit)
    (s : state) (request resp : BridgeMessage) (call : nat) :
  response_handlers s !! to_key (id resp) = Some call ->
  type resp = "response-to-web" ->
  truthy (chunk resp) = false ->
  snd (fst (listener call_member s resp)) = [WResolve call resp] /\
  ((exists x, exchange_message_finish JSON_stringify request resp = Thrown x)
   <-> truthy (error resp) = true) /\
  (truthy (error resp) = true ->
   exists x, exchange_message_finish JSON_stringify request resp = Thrown x
             /\ get_prop x "message_error_response" = Some (error resp)) /\
  (truthy (error resp) = false ->
   exchange_message_finish JSON_stringify request resp = Ok (data resp)).
Proof.
  intros Hh Hty Hch. split; [|split; [|split]].
  - unfold listener, read. rewrite Hty, Hh, Hch. done.
  - unfold exchange_message_finish. destruct (truthy (error resp)).
    + split; [done | eauto].
    + split; [by intros [x [=]] | done].
  - unfold exchange_message_finish. intros ->. eauto.
  - unfold exchange_message_finish. by intros ->.
Qed.

Lemma exchange_throws_iff_error_field_witness :
  response_handlers (fst (exchange_message_send initial 0 "git" (VStr "status")))
    !! to_key (id Scenario.failed_response) = Some 0 /\
  type Scenario.failed_response = "response-to-web" /\
  truthy (chunk Scenario.failed_response) = false /\
  snd (fst (listener Scenario.member_returns
              (fst (exchange_message_send initial 0 "git" (VStr "status")))
              Scenario.failed_response))
  = [WResolve 0 Scenario.failed_response] /\
  ((exists x, exchange_message_finish Scenario.json_opaque
                (request_of 1 "git" (VStr "status")) Scenario.failed_response = Thrown x)
   <-> truthy (error Scenario.failed_response) = true) /\
  (truthy (error Scenario.failed_response) = true ->
   exists x, exchange_message_finish Scenario.json_opaque
               (request_of 1 "git" (VStr "status")) Scenario.failed_response = Thrown x
             /\ get_prop x "message_error_response" = Some (error Scenario.failed_response)) /\
  (truthy (error Scenario.failed_response) = false ->
   exchange_message_finish Scenario.json_opaque
     (request_of 1 "git" (VStr "status")) Scenario.failed_response
   = Ok (data Scenario.failed_response)).
Proof.
  assert (H1 : response_handlers (fst (exchange_message_send initial 0 "git" (VStr "status")))
                 !! to_key (id Scenario.failed_response) = Some 0) by (by vm_compute).
  assert (H2 : type Scenario.failed_response = "response-to-web") by reflexivity.
  assert (H3 : truthy (chunk Scenario.failed_response) = false) by reflexivity.
  split; [exact H1|]. split; [exact H2|]. split; [exact H3|].
  exact (exchange_throws_iff_error_field Scenario.json_opaque Scenario.member_returns
           _ (request_of 1 "git" (VStr "status")) _ _ H1 H2 H3).
Defined.

End BridgeFacts.

(** ** The parser core *)

Module ParserFacts.
Import Parser.

(** Two runs over the same rows whose LaneTracks start equal assemble the
    same commits and end with equal LaneTracks, wherever the LaneTracks
    live and whatever else the heaps hold. *)
Lemma rows_agree (resolve_decorations : list Ref -> string -> list Ref)
    (track_glyphs : LaneTrack -> string -> LaneTrack * nat * list nat)
    (known : list Ref) (stashes : gmap string string) (sep : string)
    (rows : list string) :
  forall (hp hp' : heap) (track track' : nat) (out : list CommitRecord),
    hp !! track = hp' !! track' ->
    snd (fold_left (row resolve_decorations track_glyphs known stashes sep track)
           rows (hp, out))
    = snd (fold_left (row resolve_decorations track_glyphs known stashes sep track')
             rows (hp', out)) /\
    fst (fold_left (row resolve_decorations track_glyphs known stashes sep track)
           rows (hp, out)) !! track
    = fst (fold_left (row resolve_decorations track_glyphs known stashes sep track')
             rows (hp', out)) !! track'.
Proof.
  induction rows as [|line rows IH]; intros hp hp' track track' out Heq; [done|].
  cbn [fold_left].
  assert (Hrow : forall (h : heap) (t : nat),
    row resolve_decorations track_glyphs known stashes sep t (h, out) line =
    match split_fields sep line with
    | None => (h, out)
    | Some (glyphs, fields) =>
        let '(lanes, row_lane, row_parents) := track_glyphs (default [] (h !! t)) glyphs in
        (<[t := lanes]> h,
         out ++ option_list (assemble resolve_decorations known stashes fields
                               row_lane row_parents))
    end) by done.
  rewrite !Hrow. destruct (split_fields sep line) as [[glyphs fields]|]; [|by apply IH].
  unfold LaneTrack in *. rewrite Heq.
  destruct (track_glyphs (default [] (hp' !! track')) glyphs) as [[lanes l] ps].
  apply IH. by rewrite !lookup_insert_eq.
Qed.

(** C7. [parse] is deterministic and re-entrant: on whatever heap earlier
    calls have left, a call returns what a first call with the same
    arguments returns; in particular two calls with equal arguments return
    equal results, also when one follows the other. *)
Theorem parse_is_deterministic_and_reentrant
    (correlate_ref : string -> option Ref)
    (resolve_decorations : list Ref -> string -> list Ref)
    (track_glyphs : LaneTrack -> string -> LaneTrack * nat * list nat)
    (hp : heap) (log_text branch_text stash_text separator : string) (curve_radius : Z) :
  fst (parse_on correlate_ref resolve_decorations track_glyphs
         hp log_text branch_text stash_text separator curve_radius)
  = parse correlate_ref resolve_decorations track_glyphs
      log_text branch_text stash_text separator curve_radius /\
  (forall (log_text' branch_text' stash_text' separator' : string) (curve_radius' : Z),
     fst (parse_on correlate_ref resolve_decorations track_glyphs
            (snd (parse_on correlate_ref resolve_decorations track_glyphs
                    hp log_text' branch_text' stash_text' separator' curve_radius'))
            log_text branch_text stash_text separator curve_radius)
     = parse correlate_ref resolve_decorations track_glyphs
         log_text branch_text stash_text separator curve_radius).
Proof.
  assert (Hany : forall h : heap,
    fst (parse_on correlate_ref resolve_decorations track_glyphs
           h log_text branch_text stash_text separator curve_radius)
    = parse correlate_ref resolve_decorations track_glyphs
        log_text branch_text stash_text separator curve_radius).
  { intros h. unfold parse, parse_on.
    destruct (String.eqb log_text EmptyString); [done|].
    pose proof (rows_agree resolve_decorations track_glyphs
                  (ref_correlator correlate_ref branch_text)
                  (stash_correlator stash_text) separator (lines log_text)
                  (<[fresh (dom h) := []]> h) (<[fresh (dom (∅ : heap)) := []]> ∅)
                  (fresh (dom h)) (fresh (dom (∅ : heap))) []) as Hagree.
    destruct Hagree as [Hout _]; [by rewrite !lookup_insert_eq|].
    destruct (fold_left _ (lines log_text) (<[fresh (dom h) := []]> h, []))
      as [h1 out1].
    destruct (fold_left _ (lines log_text) (<[fresh (dom (∅ : heap)) := []]> ∅, []))
      as [h2 out2].
    simpl in *. by rewrite Hout. }
  split; [apply Hany | intros; apply Hany].
Qed.

End ParserFacts.

(** ** The listener: chunks, duplicates and pushes *)

Module ListenerProps.
Import Async Bridge BridgeFacts Samples.

Lemma concat_arrays (parts : list (list value)) :
  forall acc, foldl concat acc (VArr <$> parts) = acc ++ mjoin parts.
Proof.
  induction parts as [|p parts IH]; intros acc; simpl.
  - by rewrite app_nil_r.
  - rewrite IH. by rewrite app_assoc.
Qed.

(** A chunk that is not the last one is stored and nothing else happens. *)
Lemma listener_stores_chunk call_member (s : state) (m : BridgeMessage) (n : nat) :
  type m = "response-to-web" ->
  response_handlers s !! to_key (id m) = Some n ->
  truthy (chunk m) = true ->
  strict_eq (chunk m) (total_chunks m) = false ->
  listener call_member s m =
  ({| response_handlers := response_handlers s;
      message_id_counter := message_id_counter s;
      response_chunks :=
        <[to_key (id m) := concat (default [] (response_chunks s !! to_key (id m))) (data m)]>
          (response_chunks s);
      push_handlers := push_handlers s |}, [], Ok tt).
Proof.
  intros Hty Hh Hc Hlast. unfold listener, read. by rewrite Hty, Hh, Hc, Hlast.
Qed.

Lemma listener_last_chunk call_member (s : state) (m : BridgeMessage) (n : nat) :
  type m = "response-to-web" ->
  response_handlers s !! to_key (id m) = Some n ->
  truthy (chunk m) = true ->
  strict_eq (chunk m) (total_chunks m) = true ->
  listener call_member s m =
  ({| response_handlers := delete (to_key (id m)) (response_handlers s);
      message_id_counter := message_id_counter s;
      response_chunks := delete (to_key (id m)) (response_chunks s);
      push_handlers := push_handlers s |},
   [WResolve n
      (with_data m
         (VArr (concat (default [] (response_chunks s !! to_key (id m))) (data m))))],
   Ok tt).
Proof.
  intros Hty Hh Hc Hlast. unfold listener, read. by rewrite Hty, Hh, Hc, Hlast.
Qed.

Lemma chunks_accumulate call_member (key : string) (n : nat) (ms : list BridgeMessage) :
  forall w : world,
    response_handlers (st w) !! key = Some n ->
    Forall (chunk_of key) ms ->
    Forall (fun m => strict_eq (chunk m) (total_chunks m) = false) ms ->
    let w' := steps call_member w (Message <$> ms) in
    response_handlers (st w') = response_handlers (st w) /\
    message_id_counter (st w') = message_id_counter (st w) /\
    push_handlers (st w') = push_handlers (st w) /\
    delete key (response_chunks (st w')) = delete key (response_chunks (st w)) /\
    default [] (response_chunks (st w') !! key)
    = foldl concat (default [] (response_chunks (st w) !! key)) (data <$> ms) /\
    posted w' = posted w /\ resolved w' = resolved w /\ listeners w' = listeners w.
Proof.
  induction ms as [|m ms IH]; intros w Hh Hms Hnot; [done|].
  apply Forall_cons in Hms as [(Hty & Hkey & Hc) Hms].
  apply Forall_cons in Hnot as [Hm Hnot].
  cbn [fmap list_fmap steps fold_left]. fold (steps call_member).
  set (w1 := step call_member w (Message m)).
  assert (Hw1 : st w1 = fst (fst (listener call_member (st w) m))
                /\ posted w1 = posted w /\ resolved w1 = resolved w
                /\ listeners w1 = listeners w).
  { unfold w1, step. rewrite <- Hkey in Hh.
    rewrite (listener_stores_chunk _ _ _ _ Hty Hh Hc Hm). simpl.
    by rewrite app_nil_r. }
  destruct Hw1 as (Hst & Hp & Hr & Hl).
  rewrite <- Hkey in Hh.
  rewrite (listener_stores_chunk _ _ _ _ Hty Hh Hc Hm) in Hst. simpl in Hst.
  rewrite Hkey in *.
  specialize (IH w1). rewrite Hst in IH. simpl in IH.
  destruct (IH Hh Hms Hnot) as (H1 & H2 & H3 & H4 & H5 & H6 & H7 & H8).
  change (fold_left (step call_member) (Message <$> ms) w1)
    with (steps call_member w1 (Message <$> ms)).
  rewrite H1, H2, H3, H4, H5, H6, H7, H8, Hp, Hr, Hl.
  rewrite lookup_insert_eq, delete_insert_eq. done.
Qed.

(** X2. The chunks of one response, arriving in order, are put together:
    when the last of them arrives (its number equals the total), the
    handler of the request is called once, with the last message carrying
    the elements of all chunks in the order of arrival; the chunk buffer of
    the request is emptied and its handler removed; nothing else in the
    module changes. *)
Theorem chunks_are_reassembled_in_order
    (call_member : string -> BridgeMessage -> outcome unit)
    (w : world) (key : string) (n : nat)
    (ms : list BridgeMessage) (last : BridgeMessage) (parts : list (list value)) :
  response_handlers (st w) !! key = Some n ->
  response_chunks (st w) !! key = None ->
  Forall (chunk_of key) (ms ++ [last]) ->
  Forall (fun m => strict_eq (chunk m) (total_chunks m) = false) ms ->
  strict_eq (chunk last) (total_chunks last) = true ->
  data <$> (ms ++ [last]) = VArr <$> parts ->
  let w' := steps call_member w (Message <$> (ms ++ [last])) in
  resolved w' = resolved w ++ [(n, with_data last (VArr (mjoin parts)))] /\
  response_handlers (st w') = delete key (response_handlers (st w)) /\
  response_chunks (st w') = response_chunks (st w) /\
  message_id_counter (st w') = message_id_counter (st w) /\
  posted w' = posted w.
Proof.
  intros Hh Hnone Hall Hnot Hlast Hdata w'.
  apply Forall_app in Hall as [Hms Hl].
  apply Forall_singleton in Hl as (Hty & Hkey & Hc).
  unfold w', steps. rewrite fmap_app, fold_left_app.
  change (fold_left (step call_member) (Message <$> ms) w)
    with (steps call_member w (Message <$> ms)).
  destruct (chunks_accumulate call_member key n ms w Hh Hms Hnot)
    as (H1 & H2 & H3 & H4 & H5 & H6 & H7 & H8).
  set (w1 := steps call_member w (Message <$> ms)) in *.
  cbn [fmap list_fmap fold_left]. unfold step.
  assert (Hh1 : response_handlers (st w1) !! to_key (id last) = Some n).
  { by rewrite Hkey, H1. }
  rewrite (listener_last_chunk _ _ _ _ Hty Hh1 Hc Hlast). cbn [st posted resolved].
  rewrite Hkey, H1, H2, H4, H5, H6, H7, Hnone. cbn [resolutions omap list_omap default].
  split; [|split; [done|split; [|done]]].
  - assert (Hj : concat (foldl concat [] (data <$> ms)) (data last) = mjoin parts).
    { change (mjoin parts) with ([] ++ mjoin parts).
      rewrite <- (concat_arrays parts []), <- Hdata, fmap_app, foldl_app. done. }
    by rewrite Hj.
  - cbn [response_chunks]. by apply delete_id.
Qed.

Lemma chunks_are_reassembled_in_order_witness :
  response_handlers (st after_first_call) !! "1" = Some 0 /\
  response_chunks (st after_first_call) !! "1" = None /\
  Forall (chunk_of "1") ([chunk_message 1 2 [VNum 10]] ++ [chunk_message 2 2 [VNum 20; VNum 30]]) /\
  Forall (fun m => strict_eq (chunk m) (total_chunks m) = false) [chunk_message 1 2 [VNum 10]] /\
  strict_eq (chunk (chunk_message 2 2 [VNum 20; VNum 30]))
    (total_chunks (chunk_message 2 2 [VNum 20; VNum 30])) = true /\
  data <$> ([chunk_message 1 2 [VNum 10]] ++ [chunk_message 2 2 [VNum 20; VNum 30]])
  = VArr <$> [[VNum 10]; [VNum 20; VNum 30]] /\
  let w' := steps Scenario.member_returns after_first_call
              (Message <$> ([chunk_message 1 2 [VNum 10]]
                              ++ [chunk_message 2 2 [VNum 20; VNum 30]])) in
  resolved w' = resolved after_first_call
                ++ [(0, with_data (chunk_message 2 2 [VNum 20; VNum 30])
                          (VArr (mjoin [[VNum 10]; [VNum 20; VNum 30]])))] /\
  response_handlers (st w') = delete "1" (response_handlers (st after_first_call)) /\
  response_chunks (st w') = response_chunks (st after_first_call) /\
  message_id_counter (st w') = message_id_counter (st after_first_call) /\
  posted w' = posted after_first_call.
Proof.
  assert (H1 : response_handlers (st after_first_call) !! "1" = Some 0) by (by vm_compute).
  assert (H2 : response_chunks (st after_first_call) !! "1" = None) by (by vm_compute).
  assert (H3 : Forall (chunk_of "1")
                 ([chunk_message 1 2 [VNum 10]] ++ [chunk_message 2 2 [VNum 20; VNum 30]])).
  { repeat constructor. }
  assert (H4 : Forall (fun m => strict_eq (chunk m) (total_chunks m) = false)
                 [chunk_message 1 2 [VNum 10]]).
  { repeat constructor. }
  assert (H5 : strict_eq (chunk (chunk_message 2 2 [VNum 20; VNum 30]))
                 (total_chunks (chunk_message 2 2 [VNum 20; VNum 30])) = true)
    by reflexivity.
  assert (H6 : data <$> ([chunk_message 1 2 [VNum 10]]
                           ++ [chunk_message 2 2 [VNum 20; VNum 30]])
               = VArr <$> [[VNum 10]; [VNum 20; VNum 30]]) by reflexivity.
  split; [exact H1|]. split; [exact H2|]. split; [exact H3|]. split; [exact H4|].
  split; [exact H5|]. split; [exact H6|].
  exact (chunks_are_reassembled_in_order Scenario.member_returns after_first_call "1" 0
           _ _ _ H1 H2 H3 H4 H5 H6).
Defined.

Lemma pretty_go_head (x : N) :
  forall s, (0 < x)%N -> exists k t, pretty_N_go x s = String (pretty_N_char k) t.
Proof.
  induction (N.lt_wf_0 x) as [x _ IH]; intros s Hx.
  rewrite pretty_N_go_step by done.
  destruct (N.eq_dec (x `div` 10) 0) as [-> | Hd].
  - rewrite pretty_N_go_0. eauto.
  - apply IH; [by apply N.div_lt | by apply N.neq_0_lt_0].
Qed.

Lemma key_of_positive_head (z : Z) :
  (0 < z)%Z -> exists k t, to_key (VNum z) = String (pretty_N_char k) t.
Proof.
  intros Hz. destruct z as [|p|p]; try lia. simpl.
  unfold pretty, pretty_Z, pretty, pretty_N.
  destruct (decide (N.pos p = 0%N)); [done|]. by apply pretty_go_head.
Qed.

(** The key of a request id is no name that a dictionary inherits. *)
Lemma key_of_positive_not_inherited (z : Z) :
  (0 < z)%Z -> to_key (VNum z) ∉ Object_prototype_members.
Proof.
  intros (k & t & ->)%key_of_positive_head Hin. unfold Object_prototype_members in Hin.
  repeat (apply elem_of_cons in Hin as [Hin | Hin];
          [injection Hin as Hc _; revert Hc; unfold pretty_N_char;
           by repeat (discriminate || case_match)|]).
  by apply elem_of_nil in Hin.
Qed.

(** X3. Once the handler of a request has been called, any further
    response bearing the id of that request is rejected: the listener throws
    "unhandled message response id", calls no handler and leaves the module
    as it is. *)
Theorem duplicate_response_is_rejected
    (call_member : string -> BridgeMessage -> outcome unit) (ins : list input)
    (n : nat) (answered again : BridgeMessage) :
  (n, answered) ∈ resolved (steps call_member start ins) ->
  type again = "response-to-web" ->
  to_key (id again) = to_key (id answered) ->
  listener call_member (st (steps call_member start ins)) again
  = (st (steps call_member start ins), [], Thrown (Error "unhandled message response id")).
Proof.
  intros Hin Hty Hkey.
  destruct (inv_steps call_member ins start inv_start) as (_ & _ & _ & Hr & _).
  destruct (Hr n answered Hin) as (Hk & _ & Hnone).
  unfold listener, read. rewrite Hty, Hkey, Hnone. cbn [String.eqb Ascii.eqb Bool.eqb].
  change (String.eqb "response-to-web" "response-to-web") with true. cbv iota.
  rewrite bool_decide_eq_false_2; [done|].
  rewrite Hk. apply key_of_positive_not_inherited. lia.
Qed.

Lemma duplicate_response_is_rejected_witness :
  (0, Scenario.failed_response)
    ∈ resolved (steps Scenario.member_returns start
                  [Call "git" (VStr "status"); Message Scenario.failed_response]) /\
  type Scenario.failed_response = "response-to-web" /\
  to_key (id Scenario.failed_response) = to_key (id Scenario.failed_response) /\
  listener Scenario.member_returns
    (st (steps Scenario.member_returns start
           [Call "git" (VStr "status"); Message Scenario.failed_response]))
    Scenario.failed_response
  = (st (steps Scenario.member_returns start
           [Call "git" (VStr "status"); Message Scenario.failed_response]),
     [], Thrown (Error "unhandled message response id")).
Proof.
  assert (H1 : (0, Scenario.failed_response)
                 ∈ resolved (steps Scenario.member_returns start
                               [Call "git" (VStr "status");
                                Message Scenario.failed_response])).
  { vm_compute. repeat constructor. }
  assert (H2 : type Scenario.failed_response = "response-to-web") by reflexivity.
  assert (H3 : to_key (id Scenario.failed_response) = to_key (id Scenario.failed_response))
    by reflexivity.
  split; [exact H1|]. split; [exact H2|]. split; [exact H3|].
  exact (duplicate_response_is_rejected Scenario.member_returns _ _ _ _ H1 H2 H3).
Defined.

(** X4. A push message goes to the listener registered last under its id
    and to no other; registering a listener leaves the listeners under other
    ids and the handlers of the requests alone; and no push message ever
    calls the handler of a request or changes the module. *)
Theorem push_reaches_latest_listener
    (call_member : string -> BridgeMessage -> outcome unit)
    (s : state) (name : string) (earlier latest : nat) (m : BridgeMessage) :
  type m = "push-to-web" ->
  to_key (id m) = name ->
  listener call_member
    (add_push_listener (add_push_listener s name earlier) name latest) m
  = (add_push_listener (add_push_listener s name earlier) name latest,
     [WPush latest m], Ok tt) /\
  (forall other, other <> name ->
     push_handlers (add_push_listener s name latest) !! other = push_handlers s !! other) /\
  response_handlers (add_push_listener s name latest) = response_handlers s /\
  (forall s' : state,
     fst (fst (listener call_member s' m)) = s' /\
     resolutions (snd (fst (listener call_member s' m))) = []).
Proof.
  intros Hty Hkey.
  assert (Hresp : String.eqb (type m) "response-to-web" = false) by (by rewrite Hty).
  assert (Hpush : String.eqb (type m) "push-to-web" = true) by (by rewrite Hty).
  split; [|split; [|split; [done|]]].
  - unfold listener, read. rewrite Hresp, Hpush, Hkey. cbn [add_push_listener push_handlers].
    by rewrite lookup_insert_eq.
  - intros other Hne. cbn [add_push_listener push_handlers]. by rewrite lookup_insert_ne.
  - intros s'. unfold listener, read. rewrite Hresp, Hpush.
    destruct (push_handlers s' !! to_key (id m)); [done|].
    by destruct (bool_decide _).
Qed.

Lemma push_reaches_latest_listener_witness :
  type (push_message "refresh-main-view") = "push-to-web" /\
  to_key (id (push_message "refresh-main-view")) = "refresh-main-view" /\
  listener Scenario.member_returns
    (add_push_listener (add_push_listener initial "refresh-main-view" 0)
       "refresh-main-view" 1)
    (push_message "refresh-main-view")
  = (add_push_listener (add_push_listener initial "refresh-main-view" 0)
       "refresh-main-view" 1,
     [WPush 1 (push_message "refresh-main-view")], Ok tt) /\
  (forall other, other <> "refresh-main-view" ->
     push_handlers (add_push_listener initial "refresh-main-view" 1) !! other
     = push_handlers initial !! other) /\
  response_handlers (add_push_listener initial "refresh-main-view" 1)
  = response_handlers initial /\
  (forall s' : state,
     fst (fst (listener Scenario.member_returns s' (push_message "refresh-main-view"))) = s' /\
     resolutions (snd (fst (listener Scenario.member_returns s'
                              (push_message "refresh-main-view")))) = []).
Proof.
  assert (H1 : type (push_message "refresh-main-view") = "push-to-web") by reflexivity.
  assert (H2 : to_key (id (push_message "refresh-main-view")) = "refresh-main-view")
    by reflexivity.
  split; [exact H1|]. split; [exact H2|].
  exact (push_reaches_latest_listener Scenario.member_returns initial
           "refresh-main-view" 0 1 (push_message "refresh-main-view") H1 H2).
Defined.

End ListenerProps.

(** ** A request from the webview to the host and back *)

Module RoundTrip.
Import Str Async Host Bridge Channel AsyncFacts HelperFacts Samples.

(** An unchunked response whose id is the key of a stored handler is
    dispatched to it. *)
Lemma listener_dispatches call_member (s : state) (m : BridgeMessage) (n : nat) :
  type m = "response-to-web" ->
  response_handlers s !! to_key (id m) = Some n ->
  truthy (chunk m) = false ->
  listener call_member s m = dispatch s (to_key (id m)) n m.
Proof. intros Hty Hh Hch. unfold listener, read. by rewrite Hty, Hh, Hch. Qed.

(** The pushes that announce a state, delivered to the webview, resolve no
    promise and leave the module as it is. *)
Lemma state_updates_resolve_nothing call_member (wire : value -> value)
    (ms : list BridgeMessage) :
  Forall is_state_update ms ->
  forall w,
    st (steps call_member w (Message <$> (deliver wire <$> ms))) = st w /\
    resolved (steps call_member w (Message <$> (deliver wire <$> ms))) = resolved w.
Proof.
  induction 1 as [|m ms (key & v & ->) _ IH]; intros w; [done|].
  cbn [fmap list_fmap steps fold_left].
  destruct (IH (step call_member w (Message (deliver wire (StateStore.state_update key v)))))
    as [Hst Hres].
  unfold steps in Hst, Hres. rewrite Hst, Hres. clear Hst Hres.
  unfold step, listener, read. cbn [deliver type StateStore.state_update].
  change (String.eqb "push-to-web" "response-to-web") with false.
  change (String.eqb "push-to-web" "push-to-web") with true. cbv iota.
  destruct (push_handlers (st w) !! _); [|destruct (bool_decide _)];
    cbn [st resolved resolutions omap list_omap]; by rewrite app_nil_r.
Qed.

(** X5. A call of [exchange_message] for a command that the host handles
    through [h], followed through both sides: the request posted carries the
    incremented counter; the host posts one response for it, after the
    pushes that the function of [set-state] may post (the function of no
    other command posts anything); all that the host posted, delivered to
    the listener in order, resolves the promise of this very call and of no
    other, and its handler is removed.  The call then returns what the
    function of the command returned, as it comes out of JSON; it throws
    when the function threw a value whose message, or which itself, is
    truthy; and it returns [undefined], as if nothing had failed, when the
    function threw [0], [false] or the empty string.  When the function
    threw [undefined] or [null], no response is posted and the handler of
    the call stays stored. *)
Theorem request_round_trip
    (call_member : string -> BridgeMessage -> outcome unit)
    (wire : value -> value) (JSON_stringify : value -> string)
    (element_text : value -> value -> string) (Number : value -> value)
    (e : env) (hist : list obs) (w : world) (cmd : string) (d : value)
    (func : task value) :
  (forall z, wire (VNum z) = VNum z) ->
  wire VUndefined = VUndefined ->
  (forall v, truthy (wire v) = truthy v) ->
  func_of element_text Number cmd d = Some func ->
  let call := List.length (posted w) in
  let request := request_of (message_id_counter (st w) + 1) cmd d in
  let w1 := step call_member w (Call cmd d) in
  let debug := ObsLog "logger.debug" (VStr "receive from webview") in
  let pushed := posts (fst (run e (hist ++ [debug]) func)) in
  let sent := posts (fst (run e hist (on_message element_text Number request))) in
  let w2 := steps call_member w1 (Message <$> (deliver wire <$> sent)) in
  let answered (resp : BridgeMessage) (result : outcome value) :=
    sent = pushed ++ [resp] /\
    resolved w2 = resolved w ++ [(call, deliver wire resp)] /\
    response_handlers (st w2) !! to_key (id request) = None /\
    exchange_message_finish JSON_stringify request (deliver wire resp) = result in
  posted w1 = posted w ++ [request] /\
  Forall is_state_update pushed /\
  (cmd <> "set-state" -> pushed = []) /\
  match snd (run e (hist ++ [debug]) func) with
  | Ok v => answered (response_ok request v) (Ok (wire v))
  | Thrown err =>
      match get_prop err "message" with
      | Some m =>
          answered (response_error request m err)
            (if truthy (or_else m err)
             then Thrown (exchange_error JSON_stringify request (wire (or_else m err)))
             else Ok VUndefined)
      | None =>
          sent = pushed /\
          resolved w2 = resolved w /\
          response_handlers (st w2) !! to_key (id request) = Some call
      end
  end.
Proof.
  intros Hnum Hundef Htruthy Hf call request w1 debug pushed sent w2 answered.
  destruct (func_posts_pushes element_text Number e (hist ++ [debug]) _ _ _ Hf)
    as [Hpush Hnone].
  fold pushed in Hpush, Hnone.
  pose proof (on_message_posts element_text Number e hist request cmd func
                eq_refl eq_refl Hf) as Hposts.
  cbv zeta in Hposts. fold debug pushed sent in Hposts.
  assert (Hstored : response_handlers (st w1) !! to_key (id request) = Some call).
  { unfold w1, step, exchange_message_send. cbv beta iota zeta.
    cbn [st response_handlers]. apply lookup_insert_eq. }
  assert (Hres1 : resolved w1 = resolved w) by done.
  destruct (state_updates_resolve_nothing call_member wire pushed Hpush w1) as [Hst Hres].
  assert (Hdeliver : forall resp,
    type resp = "response-to-web" -> id resp = id request -> chunk resp = VUndefined ->
    sent = pushed ++ [resp] ->
    resolved w2 = resolved w ++ [(call, deliver wire resp)] /\
    response_handlers (st w2) !! to_key (id request) = None).
  { intros resp Hty Hid Hch Hsent.
    assert (Hkey : to_key (id (deliver wire resp)) = to_key (id request)).
    { cbn [deliver id]. rewrite Hid. cbn [request request_of id]. by rewrite Hnum. }
    unfold w2. rewrite Hsent, !fmap_app. unfold steps. rewrite fold_left_app.
    cbn [fmap list_fmap fold_left]. unfold steps in Hst, Hres. unfold step at 1 3.
    rewrite Hst, (listener_dispatches call_member (st w1) (deliver wire resp) call).
    - unfold dispatch. cbn [st resolved response_handlers resolutions omap list_omap].
      rewrite Hres, Hres1, Hkey. split; [done | apply lookup_delete_eq].
    - done.
    - by rewrite Hkey.
    - cbn [deliver chunk]. by rewrite Hch, Hundef. }
  split; [done|]. split; [done|]. split; [done|].
  destruct (snd (run e _ func)) as [v | err].
  - unfold answered. split; [done|].
    destruct (Hdeliver (response_ok request v)) as [Hr Hh]; try done.
    split; [done|]. split; [done|].
    unfold exchange_message_finish. cbn [deliver error data response_ok].
    by rewrite Hundef.
  - destruct (get_prop err "message") as [m|].
    + unfold answered. split; [done|].
      destruct (Hdeliver (response_error request m err)) as [Hr Hh]; try done.
      split; [done|]. split; [done|].
      unfold exchange_message_finish, exchange_error.
      cbn [deliver error data response_error]. rewrite Htruthy, Hundef.
      by destruct (truthy (or_else m err)).
    + rewrite app_nil_r in Hposts. split; [done|].
      unfold w2. rewrite Hposts, Hst, Hres. done.
Qed.

Lemma request_round_trip_witness :
  (forall z, wire_same (VNum z) = VNum z) /\
  wire_same VUndefined = VUndefined /\
  (forall v, truthy (wire_same v) = truthy v) /\
  func_of StateStore.sample_element_text StateStore.sample_Number "set-state"
    (data StateStore.set_index_request)
  = Some (set_state StateStore.sample_element_text StateStore.sample_Number
            (data StateStore.set_index_request)) /\
  let call := List.length (posted start) in
  let request := request_of (message_id_counter (st start) + 1) "set-state"
                   (data StateStore.set_index_request) in
  let w1 := step Scenario.member_returns start
              (Call "set-state" (data StateStore.set_index_request)) in
  let debug := ObsLog "logger.debug" (VStr "receive from webview") in
  let pushed :=
    posts (fst (run StateStore.one_repository ([] ++ [debug])
                  (set_state StateStore.sample_element_text StateStore.sample_Number
                     (data StateStore.set_index_request)))) in
  let sent :=
    posts (fst (run StateStore.one_repository []
                  (on_message StateStore.sample_element_text StateStore.sample_Number
                     request))) in
  let w2 := steps Scenario.member_returns w1 (Message <$> (deliver wire_same <$> sent)) in
  let answered (resp : BridgeMessage) (result : outcome value) :=
    sent = pushed ++ [resp] /\
    resolved w2 = resolved start ++ [(call, deliver wire_same resp)] /\
    response_handlers (st w2) !! to_key (id request) = None /\
    exchange_message_finish Scenario.json_opaque request (deliver wire_same resp) = result in
  posted w1 = posted start ++ [request] /\
  Forall is_state_update pushed /\
  ("set-state" <> "set-state" -> pushed = []) /\
  match snd (run StateStore.one_repository ([] ++ [debug])
               (set_state StateStore.sample_element_text StateStore.sample_Number
                  (data StateStore.set_index_request))) with
  | Ok v => answered (response_ok request v) (Ok (wire_same v))
  | Thrown err =>
      match get_prop err "message" with
      | Some m =>
          answered (response_error request m err)
            (if truthy (or_else m err)
             then Thrown (exchange_error Scenario.json_opaque request
                            (wire_same (or_else m err)))
             else Ok VUndefined)
      | None =>
          sent = pushed /\
          resolved w2 = resolved start /\
          response_handlers (st w2) !! to_key (id request) = Some call
      end
  end.
Proof.
  assert (H1 : forall z, wire_same (VNum z) = VNum z) by reflexivity.
  assert (H2 : wire_same VUndefined = VUndefined) by reflexivity.
  assert (H3 : forall v, truthy (wire_same v) = truthy v) by reflexivity.
  assert (H4 : func_of StateStore.sample_element_text StateStore.sample_Number "set-state"
                 (data StateStore.set_index_request)
               = Some (set_state StateStore.sample_element_text StateStore.sample_Number
                         (data StateStore.set_index_request))) by reflexivity.
  split; [exact H1|]. split; [exact H2|]. split; [exact H3|]. split; [exact H4|].
  exact (request_round_trip Scenario.member_returns wire_same Scenario.json_opaque
           StateStore.sample_element_text StateStore.sample_Number
           StateStore.one_repository [] start "set-state"
           (data StateStore.set_index_request) _ H1 H2 H3 H4).
Defined.

(** X6. A push of the host reaches the webview: [push_message_id(id)]
    makes one call of [post_message], with a [push-to-web] message; the
    listener of the webview hands what arrives to the push listener
    registered under that id, calls no handler of a request, and leaves the
    module as it is.  With no push listener under that id, inherited names
    apart, the listener throws. *)
Theorem push_round_trip
    (call_member : string -> BridgeMessage -> outcome unit) (wire : value -> value)
    (e : env) (hist : list obs) (s : state) (name : string) :
  (forall t, wire (VStr t) = VStr t) ->
  name ∉ Object_prototype_members ->
  exists (m : BridgeMessage) (r : outcome value),
    run e hist (push_message_id name) = ([ObsPost m r], r) /\
    type m = "push-to-web" /\ id m = VStr name /\
    listener call_member s (deliver wire m)
    = match push_handlers s !! name with
      | Some n => (s, [WPush n (deliver wire m)], Ok tt)
      | None => (s, [], Thrown (Error "unhandled message push id"))
      end.
Proof.
  intros Hstr Hname. eexists _, _. split.
  { unfold push_message_id. rewrite run_await. reflexivity. }
  split; [done|]. split; [done|].
  - unfold listener, read. cbn [deliver type id]. rewrite Hstr. cbn [to_key].
    change (String.eqb "push-to-web" "response-to-web") with false.
    change (String.eqb "push-to-web" "push-to-web") with true. cbv iota.
    destruct (push_handlers s !! name); [done|].
    by rewrite bool_decide_eq_false_2.
Qed.

Lemma push_round_trip_witness :
  (forall t, wire_same (VStr t) = VStr t) /\
  ("refresh-main-view" ∉ Object_prototype_members) /\
  exists (m : BridgeMessage) (r : outcome value),
    run Scenario.one_commit [] (push_message_id "refresh-main-view") = ([ObsPost m r], r) /\
    type m = "push-to-web" /\ id m = VStr "refresh-main-view" /\
    listener Scenario.member_returns (add_push_listener initial "refresh-main-view" 0)
      (deliver wire_same m)
    = match push_handlers (add_push_listener initial "refresh-main-view" 0)
              !! "refresh-main-view" with
      | Some n => (add_push_listener initial "refresh-main-view" 0,
                   [WPush n (deliver wire_same m)], Ok tt)
      | None => (add_push_listener initial "refresh-main-view" 0, [],
                 Thrown (Error "unhandled message push id"))
      end.
Proof.
  assert (H1 : forall t, wire_same (VStr t) = VStr t) by reflexivity.
  assert (H2 : "refresh-main-view" ∉ Object_prototype_members).
  { apply (bool_decide_unpack _). vm_compute. exact I. }
  split; [exact H1|]. split; [exact H2|].
  exact (push_round_trip Scenario.member_returns wire_same Scenario.one_commit []
           (add_push_listener initial "refresh-main-view" 0) "refresh-main-view" H1 H2).
Defined.

End RoundTrip.

(** ** Failures and edge cases of the request handlers *)

Module RequestProps.
Import Str Async Host Activation AsyncFacts PromiseAll GitLogFacts HelperFacts StrFacts.

#[local] Arguments String.append !_ _ / : simpl nomatch.

(** A rejection that the trace of [settle_all] shows either belongs to an
    element with a [.catch], or is the rejection of the whole. *)
Lemma settle_all_rejection (e : env) (items : list par_item) (i : nat) (cmd : string)
    (x : value) :
  forall order hist results tr res,
    settle_all e hist items order results = (tr, res) ->
    ObsSettle i cmd (Thrown x) ∈ tr ->
    (exists v, items !! i = Some (PGit cmd (Some v))) \/ res = Thrown x.
Proof.
  induction order as [|j order IH]; intros hist results tr res Hrun Hin; simpl in Hrun.
  - injection Hrun as <- <-. by apply elem_of_nil in Hin.
  - destruct (items !! j) as [[c catch | s]|] eqn:Hit; [|by eapply IH..].
    destruct (answer e string hist (git_run (VStr c))) as [v | y] eqn:Hr.
    + destruct (settle_all e _ items order (<[j:=v]> results)) as [tr' res'] eqn:Hrec.
      injection Hrun as <- <-. apply elem_of_cons in Hin as [[=] | Hin]. by eapply IH.
    + destruct catch as [v|].
      * destruct (settle_all e _ items order (<[j:=v]> results)) as [tr' res'] eqn:Hrec.
        injection Hrun as <- <-. apply elem_of_cons in Hin as [Heq | Hin]; [|by eapply IH].
        injection Heq as -> -> ->. left. eauto.
      * injection Hrun as <- <-. apply list_elem_of_singleton in Hin.
        injection Hin as -> -> ->. by right.
Qed.

Lemma run_all_rejection (e : env) (hist : list obs) (items : list par_item) tr res i cmd x :
  run_all e hist items = (tr, res) ->
  ObsSettle i cmd (Thrown x) ∈ tr ->
  (exists v, items !! i = Some (PGit cmd (Some v))) \/ res = Thrown x.
Proof.
  unfold run_all. destruct (settle_all e _ items _ _) as [tr' res'] eqn:Hs.
  intros [= <- <-] [Hin | Hin]%elem_of_app.
  - apply start_all_obs in Hin as (? & ? & [=]).
  - by eapply settle_all_rejection.
Qed.

(** Only the third element of the array of the handler has a [.catch]. *)
Lemma caught_slot (args stash_refs : string) (fb : value) (i : nat) (cmd v : string) :
  git_log_items args stash_refs fb !! i = Some (PGit cmd (Some v)) -> i = 2.
Proof.
  unfold git_log_items. destruct i as [|[|[|i]]]; simpl; try done.
  by destruct (truthy fb).
Qed.

(** X7. Whatever the order in which the commands complete: when the first
    stash listing (which has no [.catch]) fails, or when a command of the
    [Promise.all] other than the second stash listing is seen to fail, the
    handler fails with that very rejection, [Promise.all] is never joined
    and [parse] is not called. *)
Theorem uncaught_rejection_ends_request (e : env) (hist : list obs) (d : value)
    (tr : list obs) (res : outcome value) (x : value) :
  run e hist (git_log d) = (tr, res) ->
  ((exists cmd, ObsGit cmd (Thrown x) ∈ tr) \/
   (exists slot cmd, slot <> 2 /\ ObsSettle slot cmd (Thrown x) ∈ tr)) ->
  res = Thrown x /\ parse_calls tr = [] /\ forall vs, ObsJoin vs ∉ tr.
Proof.
  intros [[-> _] | (args & fsr & fb & _ & _ & _ & Hshape)]%run_git_log_shape Hfail.
  { destruct Hfail as [(c & Hin) | (i & c & _ & Hin)]; by apply elem_of_nil in Hin. }
  assert (Hpre : forall pre sr c,
    run e hist (git_log_stash_refs fsr) = (pre, Ok sr) -> ObsGit c (Thrown x) ∉ pre).
  { intros pre sr c [(_ & -> & _) | (_ & -> & _)]%run_stash_refs Hin.
    - by apply elem_of_nil in Hin.
    - by apply list_elem_of_singleton in Hin. }
  destruct Hshape as [y Ht Hy | pre sr tr1 y Hp Hall | pre sr tr1 b s Hp Hall
                     | pre sr tr1 l b s rad r Hp Hall Hl].
  - destruct Hfail as [(c & Hin) | (i & c & _ & Hin)];
      apply list_elem_of_singleton in Hin; [|discriminate].
    injection Hin as _ ->. split; [done|]. split; [done|].
    intros vs Hj. by apply list_elem_of_singleton in Hj.
  - assert (Hq : Forall quiet (pre ++ tr1)).
    { apply Forall_app. split; [by eapply stash_refs_quiet | by eapply run_all_quiet]. }
    split; [|split; [by apply parse_calls_quiet | intros vs; by apply quiet_not_join]].
    destruct Hfail as [(c & Hin) | (i & c & Hi & Hin)].
    + apply elem_of_app in Hin as [Hin | Hin]; [by apply (Hpre _ _ _ Hp) in Hin|].
      apply run_all_sound in Hall as (Hobs & _).
      destruct (Hobs _ Hin) as [(? & ? & [=]) | (? & ? & ? & [=])].
    + apply elem_of_app in Hin as [Hin | Hin].
      { destruct (stash_refs_obs _ _ _ _ _ _ Hp Hin) as (? & ? & [=]). }
      destruct (run_all_rejection _ _ _ _ _ _ _ _ Hall Hin) as [[v Hv] | Hres];
        [|by injection Hres as ->].
      by apply caught_slot in Hv.
  - exfalso. destruct Hfail as [(c & Hin) | (i & c & Hi & Hin)].
    + apply elem_of_app in Hin as [Hin | Hin]; [by apply (Hpre _ _ _ Hp) in Hin|].
      apply elem_of_app in Hin as [Hin | Hin]; [|by apply list_elem_of_singleton in Hin].
      apply run_all_sound in Hall as (Hobs & _).
      destruct (Hobs _ Hin) as [(? & ? & [=]) | (? & ? & ? & [=])].
    + apply elem_of_app in Hin as [Hin | Hin].
      { destruct (stash_refs_obs _ _ _ _ _ _ Hp Hin) as (? & ? & [=]). }
      apply elem_of_app in Hin as [Hin | Hin]; [|by apply list_elem_of_singleton in Hin].
      destruct (run_all_rejection _ _ _ _ _ _ _ _ Hall Hin) as [[v Hv] | [=]].
      by apply caught_slot in Hv.
  - exfalso. destruct Hfail as [(c & Hin) | (i & c & Hi & Hin)].
    + apply elem_of_app in Hin as [Hin | Hin]; [by apply (Hpre _ _ _ Hp) in Hin|].
      apply elem_of_app in Hin as [Hin | Hin].
      * apply run_all_sound in Hall as (Hobs & _).
        destruct (Hobs _ Hin) as [(? & ? & [=]) | (? & ? & ? & [=])].
      * repeat (apply elem_of_cons in Hin as [[=] | Hin]). by apply elem_of_nil in Hin.
    + apply elem_of_app in Hin as [Hin | Hin].
      { destruct (stash_refs_obs _ _ _ _ _ _ Hp Hin) as (? & ? & [=]). }
      apply elem_of_app in Hin as [Hin | Hin].
      * destruct (run_all_rejection _ _ _ _ _ _ _ _ Hall Hin) as [[v Hv] | [=]].
        by apply caught_slot in Hv.
      * repeat (apply elem_of_cons in Hin as [[=] | Hin]). by apply elem_of_nil in Hin.
Qed.

Lemma uncaught_rejection_ends_request_witness :
  ((exists cmd, ObsGit cmd (Thrown (Error "fatal: bad revision"))
                  ∈ fst (run log_fails [] (git_log Scenario.request_data))) \/
   (exists slot cmd,
      slot <> 2 /\
      ObsSettle slot cmd (Thrown (Error "fatal: bad revision"))
        ∈ fst (run log_fails [] (git_log Scenario.request_data)))) /\
  snd (run log_fails [] (git_log Scenario.request_data))
  = Thrown (Error "fatal: bad revision") /\
  parse_calls (fst (run log_fails [] (git_log Scenario.request_data))) = [] /\
  forall vs, ObsJoin vs ∉ fst (run log_fails [] (git_log Scenario.request_data)).
Proof.
  assert (H : (exists cmd, ObsGit cmd (Thrown (Error "fatal: bad revision"))
                             ∈ fst (run log_fails [] (git_log Scenario.request_data))) \/
              (exists slot cmd,
                 slot <> 2 /\
                 ObsSettle slot cmd (Thrown (Error "fatal: bad revision"))
                   ∈ fst (run log_fails [] (git_log Scenario.request_data)))).
  { right. exists 0, (log_command "log --graph --pretty={EXT_FORMAT} -n 100 --all {STASH_REFS}"
                        EmptyString).
    split; [lia|]. vm_compute. repeat constructor. }
  split; [exact H|].
  exact (uncaught_rejection_ends_request log_fails [] Scenario.request_data _ _ _
           (run_pair _ _ _) H).
Defined.

Lemma git_log_malformed (d : value) :
  (forall args, get_prop d "args" <> Some (VStr args)) ->
  git_log d = Throw (TypeError "args.replace is not a function").
Proof.
  intros Hno. unfold git_log.
  destruct (get_prop d "args") as [[| | | |args| |]|]; try done.
  by destruct (Hno args).
Qed.

(** X8. A request for the log whose data holds no string under [args]
    runs no command at all: the function of the command throws a TypeError
    before anything is started, and [h] answers the request with exactly
    one response, whose error field is the message of that TypeError, whose
    data is [undefined] and whose id is that of the request. *)
Theorem malformed_log_request_is_refused
    (element_text : value -> value -> string) (Number : value -> value)
    (e : env) (hist : list obs) (message : BridgeMessage) :
  type message = "request-from-web" ->
  command message = VStr "git-log" ->
  (forall args, get_prop (data message) "args" <> Some (VStr args)) ->
  exists what resp,
    run e (hist ++ [ObsLog "logger.debug" (VStr "receive from webview")])
      (git_log (data message)) = ([], Thrown (TypeError what)) /\
    posts (fst (run e hist (on_message element_text Number message))) = [resp] /\
    type resp = "response-to-web" /\ id resp = id message /\
    error resp = VStr what /\ data resp = VUndefined /\
    Forall (fun o => ~ quiet o) (fst (run e hist (on_message element_text Number message))).
Proof.
  intros Hty Hcmd Hno.
  exists "args.replace is not a function",
    (response_error message (VStr "args.replace is not a function")
       (TypeError "args.replace is not a function")).
  rewrite (run_on_message element_text Number e hist message "git-log" (git_log (data message)) Hty Hcmd eq_refl).
  cbv zeta. rewrite run_h, (git_log_malformed _ Hno). cbn [run get_prop TypeError assoc].
  cbn [String.eqb Ascii.eqb Bool.eqb]. cbv zeta.
  split; [done|].
  destruct (answer e value _ (post_message _)); cbn [fst app];
    (split; [done|]); repeat (split; [done|]);
    repeat (apply List.Forall_cons; [intros Hq; exact Hq|]); apply List.Forall_nil.
Qed.

Lemma malformed_log_request_is_refused_witness :
  type malformed_request = "request-from-web" /\
  command malformed_request = VStr "git-log" /\
  (forall args, get_prop (data malformed_request) "args" <> Some (VStr args)) /\
  exists what resp,
    run Scenario.one_commit ([] ++ [ObsLog "logger.debug" (VStr "receive from webview")])
      (git_log (data malformed_request)) = ([], Thrown (TypeError what)) /\
    posts (fst (run Scenario.one_commit [] (on_message StateStore.sample_element_text StateStore.sample_Number
            malformed_request))) = [resp] /\
    type resp = "response-to-web" /\ id resp = id malformed_request /\
    error resp = VStr what /\ data resp = VUndefined /\
    Forall (fun o => ~ quiet o) (fst (run Scenario.one_commit [] (on_message StateStore.sample_element_text StateStore.sample_Number
            malformed_request))).
Proof.
  assert (H1 : type malformed_request = "request-from-web") by reflexivity.
  assert (H2 : command malformed_request = VStr "git-log") by reflexivity.
  assert (H3 : forall args, get_prop (data malformed_request) "args" <> Some (VStr args))
    by (intros args; simpl; discriminate).
  split; [exact H1|]. split; [exact H2|]. split; [exact H3|].
  exact (malformed_log_request_is_refused StateStore.sample_element_text
           StateStore.sample_Number Scenario.one_commit [] malformed_request H1 H2 H3).
Defined.

(** X9. Whatever the order in which the commands complete, the handler
    starts them in one order, and all of them before any of them settles:
    the history listing, whose command line holds the output of the first
    stash listing, then the branch listing if [fetch_branches] is truthy,
    then the second stash listing.  Without [fetch_stash_refs] no command runs
    before them. *)
Theorem commands_start_in_fixed_order (e : env) (hist : list obs) (d : value)
    (args : string) (fsr fb : value) (pre : list obs) (stash_refs : string)
    (tr : list obs) (res : outcome value) :
  get_prop d "args" = Some (VStr args) ->
  get_prop d "fetch_stash_refs" = Some fsr ->
  get_prop d "fetch_branches" = Some fb ->
  run e hist (git_log_stash_refs fsr) = (pre, Ok stash_refs) ->
  run e hist (git_log d) = (tr, res) ->
  exists rest,
    tr = pre ++ [ObsStart 0 (log_command args stash_refs)]
             ++ (if truthy fb then [ObsStart 1 (branch_command sep)] else [])
             ++ [ObsStart 2 stash_command] ++ rest /\
    Forall (fun o => forall i c, o <> ObsStart i c) rest /\
    (truthy fsr = false -> pre = [] /\ stash_refs = EmptyString).
Proof.
  intros Ha Hs Hb Hpre Hrun. unfold git_log in Hrun. rewrite Ha, Hs, Hb in Hrun.
  rewrite run_bind, Hpre in Hrun. cbn [run] in Hrun.
  destruct (run_all e (hist ++ pre) (git_log_items args stash_refs fb)) as [tr1 r] eqn:Hall.
  pose proof Hall as Hsound. apply run_all_sound in Hsound as (_ & _ & Hres).
  unfold run_all in Hall.
  destruct (settle_all e _ _ _ _) as [tr' res'] eqn:Hset.
  injection Hall as <- <-.
  apply settle_all_sound in Hset as [Hobs _];
    [|apply settle_order_NoDup|apply initial_results_length].
  destruct (run e _ (git_log_joined res')) as [tr2 res2] eqn:Hj.
  injection Hrun as <- <-.
  exists (tr' ++ match res' with Ok vs => [ObsJoin vs] | Thrown _ => [] end ++ tr2).
  split; [|split].
  - unfold git_log_items. destruct (truthy fb); cbn [start_all app]; by rewrite <- ?app_assoc.
  - apply Forall_app. split.
    { apply Forall_forall. intros o Ho i c ->. by destruct (Hobs _ Ho) as (? & ? & ? & [=]). }
    apply Forall_app. split.
    { destruct res'; [|done]. by apply Forall_singleton. }
    destruct res' as [vs | y]; [|simpl in Hj; by injection Hj as <- <-].
    destruct Hres as (Hlen & _). rewrite git_log_items_length in Hlen.
    destruct vs as [|l [|b [|s0 [|? ?]]]]; try discriminate Hlen.
    unfold git_log_joined in Hj. destruct (negb _).
    + cbn [run] in Hj. rewrite run_await in Hj. simpl in Hj. injection Hj as <- _.
      by repeat constructor.
    + simpl in Hj. by injection Hj as <- _.
  - intros Hf. apply run_stash_refs in Hpre as [(_ & -> & [= <-]) | (Ht & _)]; [done|].
    congruence.
Qed.

Lemma commands_start_in_fixed_order_witness :
  get_prop Scenario.request_data "args"
  = Some (VStr "log --graph --pretty={EXT_FORMAT} -n 100 --all {STASH_REFS}") /\
  get_prop Scenario.request_data "fetch_stash_refs" = Some (VBool true) /\
  get_prop Scenario.request_data "fetch_branches" = Some (VBool true) /\
  run Scenario.one_commit [] (git_log_stash_refs (VBool true))
  = ([ObsGit (VStr stash_refs_command) (Ok EmptyString)], Ok EmptyString) /\
  exists rest,
    fst (run Scenario.one_commit [] (git_log Scenario.request_data))
    = [ObsGit (VStr stash_refs_command) (Ok EmptyString)]
        ++ [ObsStart 0 (log_command
                          "log --graph --pretty={EXT_FORMAT} -n 100 --all {STASH_REFS}"
                          EmptyString)]
        ++ (if truthy (VBool true) then [ObsStart 1 (branch_command sep)] else [])
        ++ [ObsStart 2 stash_command] ++ rest /\
    Forall (fun o => forall i c, o <> ObsStart i c) rest /\
    (truthy (VBool true) = false ->
     [ObsGit (VStr stash_refs_command) (Ok EmptyString)] = [] /\ EmptyString = EmptyString).
Proof.
  assert (H1 : get_prop Scenario.request_data "args"
               = Some (VStr "log --graph --pretty={EXT_FORMAT} -n 100 --all {STASH_REFS}"))
    by reflexivity.
  assert (H2 : get_prop Scenario.request_data "fetch_stash_refs" = Some (VBool true))
    by reflexivity.
  assert (H3 : get_prop Scenario.request_data "fetch_branches" = Some (VBool true))
    by reflexivity.
  assert (H4 : run Scenario.one_commit [] (git_log_stash_refs (VBool true))
               = ([ObsGit (VStr stash_refs_command) (Ok EmptyString)], Ok EmptyString))
    by reflexivity.
  split; [exact H1|]. split; [exact H2|]. split; [exact H3|]. split; [exact H4|].
  exact (commands_start_in_fixed_order Scenario.one_commit [] Scenario.request_data _ _ _ _ _
           _ _ H1 H2 H3 H4 (run_pair _ _ _)).
Defined.

Lemma has_char_app (c : ascii) (s t : string) :
  has_char c (s +:+ t) = has_char c s || has_char c t.
Proof. induction s as [|x s IH]; simpl; [done|]. by rewrite IH, orb_assoc. Qed.

Lemma replaceAll_has_no_lf (s : string) : has_char lf (replaceAll_lf_space s) = false.
Proof.
  induction s as [|x s IH]; [done|]. cbn [replaceAll_lf_space has_char]. rewrite IH.
  destruct (Ascii.eqb x lf) eqn:Hx; [done|]. by rewrite Ascii.eqb_sym, Hx.
Qed.

(** The replacement text that [replace] puts in holds a character only if
    the subject or the replacement pattern does. *)
Lemma get_substitution_lacks (c : ascii) (matched before after : string) :
  has_char c matched = false -> has_char c before = false -> has_char c after = false ->
  forall n repl, String.length repl <= n -> has_char c repl = false ->
    has_char c (get_substitution matched before after repl) = false.
Proof.
  intros Hm Hb Ha. induction n as [|n IH]; intros [|x t] Hlen Hr; try done.
  { simpl in Hlen. lia. }
  cbn [has_char] in Hr. apply orb_false_elim in Hr as [Hx Ht].
  assert (Hrec : has_char c (get_substitution matched before after t) = false).
  { apply IH; [simpl in Hlen; lia | done]. }
  cbn [get_substitution]. destruct (Ascii.eqb x "$") eqn:Hd.
  - destruct t as [|y t']; [by cbn [has_char]; rewrite Hx|].
    cbn [has_char] in Ht. apply orb_false_elim in Ht as [Hy Ht'].
    assert (Hrec' : has_char c (get_substitution matched before after t') = false).
    { apply IH; [simpl in Hlen; lia | done]. }
    apply Ascii.eqb_eq in Hd as ->.
    destruct (Ascii.eqb y "$"); [by cbn [has_char]; rewrite Hx, Hrec'|].
    destruct (Ascii.eqb y "&"); [by rewrite has_char_app, Hm, Hrec'|].
    destruct (Ascii.eqb y "`"); [by rewrite has_char_app, Hb, Hrec'|].
    destruct (Ascii.eqb y "'"); [by rewrite has_char_app, Ha, Hrec'|].
    cbn [has_char]. by rewrite Hx, Hrec.
  - cbn [has_char]. by rewrite Hx, Hrec.
Qed.

Lemma replace_lacks (c : ascii) (pat repl s : string) :
  has_char c s = false -> has_char c repl = false ->
  has_char c (replace pat repl s) = false.
Proof.
  intros Hs Hr. unfold replace. destruct (find_first pat s) as [[a b]|] eqn:Hf; [|done].
  apply find_first_Some in Hf. rewrite Hf, !has_char_app in Hs.
  apply orb_false_elim in Hs as [Ha Hs]. apply orb_false_elim in Hs as [Hp Hb].
  rewrite !has_char_app, Ha, Hb, orb_false_r. cbn [orb].
  by apply (get_substitution_lacks c pat a b Hp Ha Hb (String.length repl)).
Qed.

(** X10. The history listing is run as one command line: when the [args]
    of the request hold no line feed, neither does the command line that the
    handler starts, whatever the first stash listing printed (its line feeds
    are replaced by spaces before it is put in) and whatever replacement
    patterns its output may hold. *)
Theorem log_command_line_has_no_line_feed (e : env) (hist : list obs) (d : value)
    (tr : list obs) (res : outcome value) (args cmd : string) :
  run e hist (git_log d) = (tr, res) ->
  get_prop d "args" = Some (VStr args) ->
  has_char lf args = false ->
  ObsStart 0 cmd ∈ tr ->
  has_char lf cmd = false.
Proof.
  intros Hrun Hargs Hlf Hin.
  destruct (FormatProps.started_commands _ _ _ _ _ _ _ Hrun Hin)
    as (args' & Ha & [(_ & sr & ->) | [([=] & _) | ([=] & _)]]).
  rewrite Ha in Hargs. injection Hargs as ->.
  unfold log_command. apply replace_lacks; [|apply replaceAll_has_no_lf].
  by apply replace_lacks.
Qed.

Lemma log_command_line_has_no_line_feed_witness :
  get_prop Scenario.request_data "args"
  = Some (VStr "log --graph --pretty={EXT_FORMAT} -n 100 --all {STASH_REFS}") /\
  has_char lf "log --graph --pretty={EXT_FORMAT} -n 100 --all {STASH_REFS}" = false /\
  ObsStart 0 (log_command "log --graph --pretty={EXT_FORMAT} -n 100 --all {STASH_REFS}"
                EmptyString)
    ∈ fst (run Scenario.one_commit [] (git_log Scenario.request_data)) /\
  has_char lf (log_command "log --graph --pretty={EXT_FORMAT} -n 100 --all {STASH_REFS}"
                 EmptyString) = false.
Proof.
  assert (H1 : get_prop Scenario.request_data "args"
               = Some (VStr "log --graph --pretty={EXT_FORMAT} -n 100 --all {STASH_REFS}"))
    by reflexivity.
  assert (H2 : has_char lf "log --graph --pretty={EXT_FORMAT} -n 100 --all {STASH_REFS}"
               = false) by reflexivity.
  assert (H3 : ObsStart 0
                 (log_command "log --graph --pretty={EXT_FORMAT} -n 100 --all {STASH_REFS}"
                    EmptyString)
                 ∈ fst (run Scenario.one_commit [] (git_log Scenario.request_data))).
  { vm_compute. repeat constructor. }
  split; [exact H1|]. split; [exact H2|]. split; [exact H3|].
  exact (log_command_line_has_no_line_feed Scenario.one_commit [] Scenario.request_data _ _ _ _
           (run_pair _ _ _) H1 H2 H3).
Defined.

Lemma func_of_unknown (element_text : value -> value -> string) (Number : value -> value)
    (cmd : string) (d : value) :
  cmd ∉ "git" :: "git-log" :: editor_commands -> func_of element_text Number cmd d = None.
Proof.
  intros Hno. unfold func_of.
  destruct (String.eqb cmd "git") eqn:H1.
  { apply String.eqb_eq in H1 as ->. destruct Hno. apply list_elem_of_here. }
  destruct (String.eqb cmd "git-log") eqn:H2.
  { apply String.eqb_eq in H2 as ->. destruct Hno.
    apply list_elem_of_further, list_elem_of_here. }
  assert (Hed : cmd ∉ editor_commands).
  { intros Hin. apply Hno. by do 2 apply list_elem_of_further. }
  destruct (String.eqb cmd "get-state") eqn:H3.
  { apply String.eqb_eq in H3 as ->. destruct Hed. apply (bool_decide_unpack _). by vm_compute. }
  destruct (String.eqb cmd "set-state") eqn:H4.
  { apply String.eqb_eq in H4 as ->. destruct Hed. apply (bool_decide_unpack _). by vm_compute. }
  by rewrite bool_decide_eq_false_2.
Qed.

(** X11. A message that is no request, or a request whose command is none
    of those the callback knows, is logged and otherwise ignored: the
    callback returns [undefined], runs nothing and posts nothing, so that no
    response is ever sent for it. *)
Theorem unhandled_message_is_ignored
    (element_text : value -> value -> string) (Number : value -> value)
    (e : env) (hist : list obs) (message : BridgeMessage) :
  type message <> "request-from-web" \/
  (forall cmd, command message = VStr cmd -> cmd ∉ "git" :: "git-log" :: editor_commands) ->
  run e hist (on_message element_text Number message)
  = ([ObsLog "logger.debug" (VStr "receive from webview")], Ok VUndefined).
Proof.
  intros Hun. unfold on_message, intercept_errors. rewrite run_try_catch. cbn [run].
  destruct (String.eqb (type message) "request-from-web") eqn:Hty; [|done].
  apply String.eqb_eq in Hty. destruct Hun as [Hne | Hcmd]; [done|].
  destruct (command message) as [| | | |cmd| |]; try done.
  by rewrite (func_of_unknown _ _ cmd _ (Hcmd cmd eq_refl)).
Qed.

Lemma unhandled_message_is_ignored_witness :
  (type unknown_request <> "request-from-web" \/
   (forall cmd, command unknown_request = VStr cmd ->
      cmd ∉ "git" :: "git-log" :: editor_commands)) /\
  run Scenario.one_commit []
    (on_message StateStore.sample_element_text StateStore.sample_Number unknown_request)
  = ([ObsLog "logger.debug" (VStr "receive from webview")], Ok VUndefined).
Proof.
  assert (H : type unknown_request <> "request-from-web" \/
              (forall cmd, command unknown_request = VStr cmd ->
                 cmd ∉ "git" :: "git-log" :: editor_commands)).
  { right. intros cmd [= <-]. apply (bool_decide_unpack _). vm_compute. exact I. }
  split; [exact H|].
  exact (unhandled_message_is_ignored StateStore.sample_element_text StateStore.sample_Number
           Scenario.one_commit [] unknown_request H).
Defined.

(** X12. The provider of the [git-show] documents never fails: it runs
    one [show] command on the quoted path of the document and yields its
    output, or the empty text when the command is rejected; the error
    interception around it therefore never logs. *)
Theorem content_provider_never_fails (e : env) (hist : list obs) (uri_path : string) :
  let cmd := VStr ("show " +:+ dq +:+ uri_path +:+ dq) in
  let r := answer e string hist (git_run cmd) in
  run e hist (provideTextDocumentContent uri_path)
  = ([ObsGit cmd r], Ok match r with Ok out => out | Thrown _ => EmptyString end).
Proof.
  intros cmd r. unfold provideTextDocumentContent, intercept_errors.
  rewrite !run_try_catch, run_await. fold cmd r. by destruct r.
Qed.

End RequestProps.

(** ** The blame item of the status bar *)

Module BlameProps.
Import Str Blame StrFacts.

#[local] Arguments String.append !_ _ / : simpl nomatch.

Lemma clear_debouncer_debounced (s : status) : debounced s -> clear_debouncer s = [].
Proof.
  unfold debounced, clear_debouncer, clearTimeout.
  intros [H0 | (t & Ht & Hd)].
  - rewrite H0. by destruct (line_change_debouncer s).
  - rewrite Hd, Ht. rewrite filter_cons, decide_False by (intros H; by apply H). done.
Qed.

Lemma clearTimeout_debounced (s : status) (t : nat) :
  debounced s -> clearTimeout t (armed s) = [] \/ clearTimeout t (armed s) = armed s.
Proof.
  unfold clearTimeout. intros [H0 | (t0 & Ht & Hd)]; rewrite ?H0, ?Ht; [by left|].
  rewrite filter_cons. destruct (decide (t0 <> t)); [by right | by left].
Qed.

Lemma debounced_step relative (s : status) (h : happening) :
  debounced s -> debounced (step relative s h).
Proof.
  intros Hs. destruct h as [|sel|t|index|blamed]; simpl.
  - left. by apply clear_debouncer_debounced.
  - unfold on_selection. destruct (ignored sel); [done|].
    destruct (line sel =? current_line s)%Z; [done|].
    right. exists (timers s). cbn [armed line_change_debouncer].
    by rewrite clear_debouncer_debounced.
  - destruct (clearTimeout_debounced s t Hs) as [H0 | Hsame].
    + left. exact H0.
    + unfold debounced, fire. cbn [armed line_change_debouncer]. by rewrite Hsame.
  - unfold on_repo_index. destruct (index <? 0)%Z; [|exact Hs].
    left. cbn [hide_blame armed]. by apply (clear_debouncer_debounced _ Hs).
  - unfold show_blame. destruct blamed as [[|l0 [|l1 [|l2 [|l3 rest]]]]|]; try exact Hs.
    + destruct (relative _); exact Hs.
    + left. by apply clear_debouncer_debounced.
Qed.

Lemma debounced_steps relative (hs : list happening) :
  forall s, debounced s -> debounced (steps relative s hs).
Proof.
  induction hs as [|h hs IH]; intros s Hs; [done|].
  apply (IH (step relative s h)). by apply debounced_step.
Qed.

(** X13. The blame is debounced: after any sequence of selection changes,
    closed documents, editor changes, running timers and arriving answers,
    at most one timer is armed, and it is the one that
    [line_change_debouncer] holds.  A selection change in a document that is
    no file, that is a log, or whose path holds [extension-output] or the
    id of the extension, or one on the line that [current_line] already
    holds (also after the blame was hidden), changes nothing and arms no
    timer; any other one makes its line the current one and leaves exactly
    the timer it sets armed, whatever was armed before. *)
Theorem blame_is_debounced (relative : string -> Async.outcome string)
    (hs : list happening) (sel : selection) :
  let s := steps relative initial hs in
  List.length (armed s) <= 1 /\
  (forall t, t ∈ armed s -> line_change_debouncer s = Some t) /\
  (ignored sel = true \/ line sel = current_line s -> on_selection s sel = s) /\
  (ignored sel = false -> line sel <> current_line s ->
   armed (on_selection s sel) = [timers s] /\
   current_line (on_selection s sel) = line sel /\
   blame_text (on_selection s sel) = blame_text s /\
   current_line_long_hash (on_selection s sel) = current_line_long_hash s).
Proof.
  intros s. assert (Hs : debounced s).
  { apply debounced_steps. by left. }
  split; [|split; [|split]].
  - destruct Hs as [-> | (t & -> & _)]; simpl; lia.
  - intros t Hin. destruct Hs as [H0 | (t0 & Ht & Hd)].
    + rewrite H0 in Hin. by apply elem_of_nil in Hin.
    + rewrite Ht in Hin. by apply list_elem_of_singleton in Hin as ->.
  - unfold on_selection. intros [-> | ->]; [done|].
    destruct (ignored sel); [done|]. by rewrite Z.eqb_refl.
  - intros Hi Hl. unfold on_selection. rewrite Hi.
    apply Z.eqb_neq in Hl. rewrite Hl. cbn [armed current_line blame_text current_line_long_hash].
    by rewrite (clear_debouncer_debounced _ Hs).
Qed.

Lemma take_app (a b : string) : take (String.length a) (a +:+ b) = a.
Proof. induction a as [|c a IH]; simpl; [by destruct b | by rewrite IH]. Qed.

(** Splitting at the first line feed. *)
Lemma split_lf_line (a b : string) :
  has_char lf a = false -> split_lf (a +:+ String lf b) = a :: split_lf b.
Proof.
  induction a as [|c a IH]; intros Ha.
  - cbn [String.append split_lf]. by rewrite Ascii.eqb_refl.
  - cbn [has_char] in Ha. apply orb_false_elim in Ha as [Hc Ha].
    cbn [String.append split_lf]. rewrite Ascii.eqb_sym, Hc, (IH Ha). done.
Qed.

Lemma split_lf_nonempty (s : string) : split_lf s <> [].
Proof.
  destruct s as [|c t]; [done|]. simpl. destruct (Ascii.eqb c lf); [done|].
  by destruct (split_lf t).
Qed.

(** X14. The answer of [git blame --porcelain] for one line is read as
    that format lays it out: the forty characters that start the first line
    become [current_line_long_hash], and the text of the status bar is made
    of what follows [author ] on the second line and of the relative time
    of what follows [author-time ] on the fourth; nothing else changes. *)
Theorem blame_output_is_read_by_position (relative : string -> Async.outcome string)
    (s : status) (hash rest name mail time more ago : string) :
  String.length hash = 40 ->
  has_char lf (hash +:+ " " +:+ rest) = false ->
  has_char lf name = false ->
  has_char lf mail = false ->
  has_char lf time = false ->
  relative time = Async.Ok ago ->
  show_blame relative s (Some (split_lf (porcelain hash rest name mail time more)))
  = (with_text (with_hash s hash) ("$(git-commit) " +:+ name +:+ ", " +:+ ago), Async.Ok tt).
Proof.
  intros Hlen Hl0 Hname Hmail Htime Hrel. unfold porcelain.
  rewrite <- !append_assoc.
  rewrite (split_lf_line ((hash +:+ " ") +:+ rest)) by (by rewrite append_assoc).
  rewrite (split_lf_line ("author " +:+ name)) by done.
  rewrite (split_lf_line ("author-mail " +:+ mail)) by done.
  rewrite (split_lf_line ("author-time " +:+ time)) by done.
  unfold show_blame.
  change (drop 12 ("author-time " +:+ time)) with time.
  change (drop 7 ("author " +:+ name)) with name.
  rewrite Hrel, append_assoc, <- Hlen, take_app. by rewrite !append_assoc.
Qed.

Lemma blame_output_is_read_by_position_witness :
  String.length sample_hash = 40 /\
  has_char lf (sample_hash +:+ " " +:+ "7 7 1") = false /\
  has_char lf "Ada" = false /\
  has_char lf "<ada@example.org>" = false /\
  has_char lf "1700000000" = false /\
  sample_relative "1700000000" = Async.Ok "at 1700000000" /\
  show_blame sample_relative initial
    (Some (split_lf (porcelain sample_hash "7 7 1" "Ada" "<ada@example.org>" "1700000000"
                       "author-tz +0000")))
  = (with_text (with_hash initial sample_hash)
       ("$(git-commit) " +:+ "Ada" +:+ ", " +:+ "at 1700000000"), Async.Ok tt).
Proof.
  assert (H1 : String.length sample_hash = 40) by reflexivity.
  assert (H2 : has_char lf (sample_hash +:+ " " +:+ "7 7 1") = false) by reflexivity.
  assert (H3 : has_char lf "Ada" = false) by reflexivity.
  assert (H4 : has_char lf "<ada@example.org>" = false) by reflexivity.
  assert (H5 : has_char lf "1700000000" = false) by reflexivity.
  assert (H6 : sample_relative "1700000000" = Async.Ok "at 1700000000") by reflexivity.
  split; [exact H1|]. split; [exact H2|]. split; [exact H3|]. split; [exact H4|].
  split; [exact H5|]. split; [exact H6|].
  exact (blame_output_is_read_by_position sample_relative initial sample_hash "7 7 1" "Ada"
           "<ada@example.org>" "1700000000" "author-tz +0000" "at 1700000000"
           H1 H2 H3 H4 H5 H6).
Defined.

End BlameProps.

(** ** The state shared with the webview *)

Module StateProps.
Import Async Host StateStore AsyncFacts HelperFacts.

Lemma bind_returns {A B : Type} (e : env) (hist : list obs) (t : task A) (f : A -> task B)
    (tr : list obs) (b : B) :
  run e hist (bind t f) = (tr, Ok b) ->
  exists tr1 a tr2,
    run e hist t = (tr1, Ok a) /\ run e (hist ++ tr1) (f a) = (tr2, Ok b) /\ tr = tr1 ++ tr2.
Proof.
  rewrite run_bind. destruct (run e hist t) as [tr1 [a | x]]; [|done].
  destruct (run e (hist ++ tr1) (f a)) as [tr2 r2] eqn:H2. intros [= <- ->].
  by exists tr1, a, tr2.
Qed.

Lemma await_returns {B : Type} (e : env) (hist : list obs) (ev : event B)
    (tr : list obs) (b : B) :
  run e hist (await ev) = (tr, Ok b) -> tr = [observe ev (Ok b)].
Proof. rewrite run_await. by intros [= <- ->]. Qed.

Lemma repo_key_returns (element_text : value -> value -> string) (e : env) (hist : list obs) (local_key : string) tr k :
  run e hist (repo_key element_text local_key) = (tr, Ok k) -> posts tr = [].
Proof.
  unfold repo_key, get_repo_names, workspace_get.
  intros (tr1 & names & tr2 & ->%await_returns & H2 & ->)%bind_returns.
  apply bind_returns in H2 as (tr3 & index & tr4 & ->%await_returns & H4 & ->).
  destruct (nullish names); [done|]. by injection H4 as <- _.
Qed.

(** What [state(key).set(state(key).get())] leaves behind for a state kept
    per repository. *)
Lemma reannounce_returns (element_text : value -> value -> string) (e : env) (hist : list obs) (name local_key : string) tr res :
  run e hist (reannounce element_text name local_key) = (tr, Ok res) ->
  exists w,
    posts tr = [state_update (VStr name) w] /\
    (exists k, ObsExtern "context.workspaceState.get" [k] (Ok w) ∈ tr) /\
    (exists k r, ObsExtern "context.workspaceState.update" [k; w] r ∈ tr).
Proof.
  unfold reannounce, repo_get, repo_set, set_then_broadcast, workspace_get, workspace_update.
  intros (tr1 & w & tr2 & Hget & Hset & ->)%bind_returns.
  apply bind_returns in Hget as (tg1 & k & tg2 & Hk%repo_key_returns & ->%await_returns & ->).
  apply bind_returns in Hset as (ts & stored & tp & Hupd & Hpost & ->).
  apply bind_returns in Hupd as (tu1 & k' & tu2 & Hk'%repo_key_returns & ->%await_returns & ->).
  cbn [strict_eq negb] in Hpost.
  apply bind_returns in Hpost as (tp1 & sent & tp2 & ->%await_returns & [= <- _] & ->).
  exists w. split; [|split].
  - rewrite !posts_app, Hk, Hk'. done.
  - exists k. rewrite !elem_of_app, !list_elem_of_singleton. naive_solver.
  - exists k', (Ok stored). rewrite !elem_of_app, !list_elem_of_singleton. naive_solver.
Qed.

(** X15. Selecting a repository announces the states kept per
    repository anew, whether or not the new index itself is to be broadcast:
    when [state('selected-repo-index').set(v, options)] completes, it has
    first stored [v] in the workspace state and told [git] the index
    [Number(v) || 0]; it has then, for [repo:action-history] and for
    [repo:selected-commits-hashes] in this order, read the value from the
    workspace state, written that value back and pushed it to the webview
    as a [state-update]; and it has pushed the update of
    [selected-repo-index] itself last, and only if [options.broadcast] is
    not [false].  Nothing else is posted. *)
Theorem selecting_a_repository_reannounces_its_state
    (element_text : value -> value -> string) (Number : value -> value)
    (e : env) (hist : list obs) (v broadcast : value) (tr : list obs) (res : value) :
  run e hist (state_set element_text Number (VStr "selected-repo-index") v broadcast)
  = (tr, Ok res) ->
  exists (r0 r1 : outcome value) (v1 v2 : value),
    tr !! 0 = Some (ObsExtern "context.workspaceState.update"
                      [VStr "selected-repo-index"; v] r0) /\
    tr !! 1 = Some (ObsExtern "git.set_selected_repo_index"
                      [or_else (Number v) (VNum 0)] r1) /\
    posts tr
    = [state_update (VStr "repo:action-history") v1;
       state_update (VStr "repo:selected-commits-hashes") v2]
        ++ (if strict_eq broadcast (VBool false) then []
            else [state_update (VStr "selected-repo-index") v]) /\
    (forall w, w = v1 \/ w = v2 ->
       (exists k, ObsExtern "context.workspaceState.get" [k] (Ok w) ∈ tr) /\
       (exists k r, ObsExtern "context.workspaceState.update" [k; w] r ∈ tr)).
Proof.
  unfold state_set, set_then_broadcast, memento_set, workspace_update.
  cbn [to_key]. change (String.eqb "selected-repo-index" "selected-repo-index") with true.
  cbv iota.
  intros (tm & stored & tb & Hm & Hb & ->)%bind_returns.
  apply bind_returns in Hm as (t0 & a0 & tm1 & ->%await_returns & Hm & ->).
  apply bind_returns in Hm as (t1 & a1 & tm2 & ->%await_returns & Hm & ->).
  apply bind_returns in Hm as (t2 & a2 & tm3 & H1 & Hm & ->).
  apply bind_returns in Hm as (t3 & a3 & tm4 & H2 & [= <- _] & ->).
  apply reannounce_returns in H1 as (v1 & Hp1 & Hg1 & Hu1).
  apply reannounce_returns in H2 as (v2 & Hp2 & Hg2 & Hu2).
  exists (Ok a0), (Ok a1), v1, v2.
  split; [done|]. split; [done|]. split.
  - rewrite !posts_app, Hp1, Hp2. cbn [posts omap observe app].
    destruct (strict_eq broadcast (VBool false)); cbn [negb] in Hb.
    + by injection Hb as <- _.
    + by apply bind_returns in Hb as (tp1 & sent & tp2 & ->%await_returns & [= <- _] & ->).
  - intros w [-> | ->].
    + destruct Hg1 as (k & Hk), Hu1 as (k' & r & Hk'). split; [exists k | exists k', r];
        rewrite !elem_of_app, !elem_of_cons; tauto.
    + destruct Hg2 as (k & Hk), Hu2 as (k' & r & Hk'). split; [exists k | exists k', r];
        rewrite !elem_of_app, !elem_of_cons; tauto.
Qed.

Lemma selecting_a_repository_reannounces_its_state_witness :
  run one_repository []
    (state_set sample_element_text sample_Number (VStr "selected-repo-index") (VNum 0)
       (VBool false))
  = (fst (run one_repository []
            (state_set sample_element_text sample_Number (VStr "selected-repo-index")
               (VNum 0) (VBool false))), Ok VUndefined) /\
  exists (r0 r1 : outcome value) (v1 v2 : value),
    fst (run one_repository []
           (state_set sample_element_text sample_Number (VStr "selected-repo-index")
              (VNum 0) (VBool false))) !! 0
    = Some (ObsExtern "context.workspaceState.update"
              [VStr "selected-repo-index"; VNum 0] r0) /\
    fst (run one_repository []
           (state_set sample_element_text sample_Number (VStr "selected-repo-index")
              (VNum 0) (VBool false))) !! 1
    = Some (ObsExtern "git.set_selected_repo_index"
              [or_else (sample_Number (VNum 0)) (VNum 0)] r1) /\
    posts (fst (run one_repository []
                  (state_set sample_element_text sample_Number
                     (VStr "selected-repo-index") (VNum 0) (VBool false))))
    = [state_update (VStr "repo:action-history") v1;
       state_update (VStr "repo:selected-commits-hashes") v2]
        ++ (if strict_eq (VBool false) (VBool false) then []
            else [state_update (VStr "selected-repo-index") (VNum 0)]) /\
    (forall w, w = v1 \/ w = v2 ->
       (exists k, ObsExtern "context.workspaceState.get" [k] (Ok w)
                    ∈ fst (run one_repository []
                             (state_set sample_element_text sample_Number
                                (VStr "selected-repo-index") (VNum 0) (VBool false)))) /\
       (exists k r, ObsExtern "context.workspaceState.update" [k; w] r
                      ∈ fst (run one_repository []
                               (state_set sample_element_text sample_Number
                                  (VStr "selected-repo-index") (VNum 0) (VBool false))))).
Proof.
  assert (H : run one_repository []
                (state_set sample_element_text sample_Number (VStr "selected-repo-index")
                   (VNum 0) (VBool false))
              = (fst (run one_repository []
                        (state_set sample_element_text sample_Number
                           (VStr "selected-repo-index") (VNum 0) (VBool false))),
                 Ok VUndefined)) by reflexivity.
  split; [exact H|].
  exact (selecting_a_repository_reannounces_its_state sample_element_text sample_Number
           one_repository [] (VNum 0) (VBool false) _ VUndefined H).
Defined.

Lemma intercept_returns {A : Type} (e : env) (hist : list obs) (t : task A) tr (a : A) :
  run e hist (intercept_errors t) = (tr, Ok a) -> run e hist t = (tr, Ok a).
Proof.
  unfold intercept_errors. rewrite run_try_catch.
  destruct (run e hist t) as [tr1 [a1 | x]]; [done|]. simpl. discriminate.
Qed.

(** What is posted when the index of the selected repository is set, and
    when a state kept per repository is. *)
Lemma index_set_posts (element_text : value -> value -> string) (Number : value -> value)
    (e : env) (hist : list obs) (v broadcast : value) tr res :
  run e hist (state_set element_text Number (VStr "selected-repo-index") v broadcast)
  = (tr, Ok res) ->
  exists v1 v2,
    posts tr
    = [state_update (VStr "repo:action-history") v1;
       state_update (VStr "repo:selected-commits-hashes") v2]
        ++ (if strict_eq broadcast (VBool false) then []
            else [state_update (VStr "selected-repo-index") v]).
Proof.
  unfold state_set, set_then_broadcast, memento_set, workspace_update.
  cbn [to_key]. change (String.eqb "selected-repo-index" "selected-repo-index") with true.
  cbv iota.
  intros (tm & stored & tb & Hm & Hb & ->)%bind_returns.
  apply bind_returns in Hm as (t0 & a0 & tm1 & ->%await_returns & Hm & ->).
  apply bind_returns in Hm as (t1 & a1 & tm2 & ->%await_returns & Hm & ->).
  apply bind_returns in Hm as (t2 & a2 & tm3 & H1 & Hm & ->).
  apply bind_returns in Hm as (t3 & a3 & tm4 & H2 & [= <- _] & ->).
  apply reannounce_returns in H1 as (v1 & Hp1 & _).
  apply reannounce_returns in H2 as (v2 & Hp2 & _).
  exists v1, v2. rewrite !posts_app, Hp1, Hp2. cbn [posts omap observe app].
  destruct (strict_eq broadcast (VBool false)); cbn [negb] in Hb.
  - by injection Hb as <- _.
  - by apply bind_returns in Hb as (tp1 & sent & tp2 & ->%await_returns & [= <- _] & ->).
Qed.

Lemma selection_set_posts (element_text : value -> value -> string) (Number : value -> value)
    (e : env) (hist : list obs) (v : value) tr res :
  run e hist (state_set element_text Number (VStr "repo:selected-commits-hashes") v VUndefined)
  = (tr, Ok res) ->
  posts tr = [state_update (VStr "repo:selected-commits-hashes") v].
Proof.
  unfold state_set, set_then_broadcast, memento_set, repo_set, workspace_update.
  cbn [to_key strict_eq negb].
  change (String.eqb "repo:selected-commits-hashes" "selected-repo-index") with false.
  change (String.eqb "repo:selected-commits-hashes" "repo-names") with false.
  change (repo_local_key "repo:selected-commits-hashes") with (Some "selected-commits-hashes").
  cbv iota.
  intros (tm & stored & tb & Hm & Hb & ->)%bind_returns.
  apply bind_returns in Hm as (tk & k & tu & Hk%repo_key_returns & ->%await_returns & ->).
  apply bind_returns in Hb as (tp1 & sent & tp2 & ->%await_returns & [= <- _] & ->).
  rewrite !posts_app, Hk. done.
Qed.

(** X16. The command of the blame item does nothing but log when no
    blame is shown ([current_line_long_hash] is empty).  Otherwise, when it
    completes, it has asked for the short form of that hash and posted five
    pushes in this order: the two per-repository states announced anew and
    the index of the repository of the blamed line; then the state
    [repo:selected-commits-hashes] holding the trimmed short hash alone; and
    only then [scroll-to-selected-commit], so that the webview knows the
    commit to scroll to before it is told to scroll. *)
Theorem blame_command_pushes_in_order
    (element_text : value -> value -> string) (Number : value -> value)
    (trim : string -> string) (e : env) (hist : list obs)
    (hash : string) (index : Z) (tr : list obs) (res : value) :
  hash <> EmptyString ->
  run e hist (BlameCommand.blame_line element_text Number trim hash index) = (tr, Ok res) ->
  run e hist (BlameCommand.blame_line element_text Number trim EmptyString index)
  = ([ObsLog "logger.info" (VStr "blame cmd")], Ok VUndefined) /\
  exists (v1 v2 : value) (out : string),
    ObsGit (VStr ("rev-parse --short " +:+ hash)) (Ok out) ∈ tr /\
    posts tr
    = [state_update (VStr "repo:action-history") v1;
       state_update (VStr "repo:selected-commits-hashes") v2;
       state_update (VStr "selected-repo-index") (VNum index);
       state_update (VStr "repo:selected-commits-hashes") (VArr [VStr (trim out)]);
       BlameCommand.push_of "scroll-to-selected-commit"].
Proof.
  intros Hhash Hrun. split; [done|].
  apply intercept_returns in Hrun. unfold BlameCommand.blame_line in Hrun.
  apply String.eqb_neq in Hhash. cbn [run] in Hrun. rewrite Hhash in Hrun.
  destruct (run e (hist ++ [_]) _) as [tr0 r0] eqn:Hbody. injection Hrun as <- ->.
  apply bind_returns in Hbody as (t1 & a1 & tb1 & Hidx & Hbody & ->).
  apply bind_returns in Hbody as (t2 & out & tb2 & ->%await_returns & Hbody & ->).
  apply bind_returns in Hbody as (t3 & a3 & tb3 & Hsel & Hbody & ->).
  apply bind_returns in Hbody as (t4 & a4 & tb4 & ->%await_returns & Hpush & ->).
  unfold Channel.push_message_id in Hpush. apply await_returns in Hpush as ->.
  apply index_set_posts in Hidx as (v1 & v2 & Hp1).
  apply selection_set_posts in Hsel as Hp3.
  exists v1, v2, out. split.
  - rewrite !elem_of_cons, !elem_of_app, !elem_of_cons. naive_solver.
  - rewrite posts_cons, !posts_app, Hp1, Hp3. done.
Qed.

Lemma blame_command_pushes_in_order_witness :
  Blame.sample_hash <> EmptyString /\
  run one_repository []
    (BlameCommand.blame_line sample_element_text sample_Number BlameCommand.sample_trim
       Blame.sample_hash 0)
  = (fst (run one_repository []
            (BlameCommand.blame_line sample_element_text sample_Number
               BlameCommand.sample_trim Blame.sample_hash 0)),
     Ok (VBool true)) /\
  run one_repository []
    (BlameCommand.blame_line sample_element_text sample_Number BlameCommand.sample_trim
       EmptyString 0)
  = ([ObsLog "logger.info" (VStr "blame cmd")], Ok VUndefined) /\
  exists (v1 v2 : value) (out : string),
    ObsGit (VStr ("rev-parse --short " +:+ Blame.sample_hash)) (Ok out)
      ∈ fst (run one_repository []
               (BlameCommand.blame_line sample_element_text sample_Number
                  BlameCommand.sample_trim Blame.sample_hash 0)) /\
    posts (fst (run one_repository []
                  (BlameCommand.blame_line sample_element_text sample_Number
                     BlameCommand.sample_trim Blame.sample_hash 0)))
    = [state_update (VStr "repo:action-history") v1;
       state_update (VStr "repo:selected-commits-hashes") v2;
       state_update (VStr "selected-repo-index") (VNum 0);
       state_update (VStr "repo:selected-commits-hashes")
         (VArr [VStr (BlameCommand.sample_trim out)]);
       BlameCommand.push_of "scroll-to-selected-commit"].
Proof.
  assert (H1 : Blame.sample_hash <> EmptyString) by discriminate.
  assert (H2 : run one_repository []
                 (BlameCommand.blame_line sample_element_text sample_Number
                    BlameCommand.sample_trim Blame.sample_hash 0)
               = (fst (run one_repository []
                         (BlameCommand.blame_line sample_element_text sample_Number
                            BlameCommand.sample_trim Blame.sample_hash 0)),
                  Ok (VBool true))) by reflexivity.
  split; [exact H1|]. split; [exact H2|].
  exact (blame_command_pushes_in_order sample_element_text sample_Number
           BlameCommand.sample_trim one_repository [] Blame.sample_hash 0 _ (VBool true)
           H1 H2).
Defined.

End StateProps.
